(** * Dual-store cart consistency: the cart routes and the cart sync job

    A shallow embedding of [src/routes/cart.ts], [src/jobs/cartSync.ts] and
    [src/utils/cart.ts].  The Redis cache, the PostgreSQL tables and the
    possible failure of every store call are explicit: a handler is a
    function from a world to a result and a world. *)

From Stdlib Require Import ZArith QArith Ascii String Decimal DecimalString DecimalZ DecimalPos Lia.
From stdpp Require Import base option gmap strings list fin_maps.

#[local] Open Scope string_scope.
#[local] Open Scope Z_scope.

(** ** JavaScript values *)

Module JS.

(** A JavaScript number: a finite number, given by the rational it is, an
    infinity, or [NaN].  The sign of zero is not modelled.  The arithmetic
    of the checkout total rounds to binary64 ([round64] below).  A number
    of a request body or of a stored string is taken as the rational its
    text denotes: that is the number itself for the safe integers
    ([safe_integer]) and for the binary64 numbers ([binary64]), and the
    statements that depend on its digits or its value keep to these. *)
Inductive jsnum : Type :=
| Num (q : Q)
| Inf (negative : bool)
| NaN.

(** A scalar JSON value as found in a request body ([JUndefined] stands
    for a missing property).  Arrays and objects as quantities are outside
    the model. *)
Inductive jsval : Type :=
| JUndefined
| JNull
| JBool (b : bool)
| JNum (q : Q)
| JStr (s : string).

Definition of_Z (z : Z) : jsnum := Num (inject_Z z).

(** [Number.isSafeInteger]: the integers every one of which is a binary64
    number of its own, printed by [toString] with all its digits. *)
Definition safe_integer (z : Z) : bool :=
  Z.leb (Z.abs z) (2 ^ 53 - 1).

(** *** binary64 *)

(** [floor (log2 (n / d))] for positive [n] and [d]. *)
Definition ilog2 (n d : Z) : Z :=
  let l := Z.log2 n - Z.log2 d in
  if Z.leb (d * 2 ^ Z.max 0 l) (n * 2 ^ Z.max 0 (- l)) then l else l - 1.

(** The integer nearest to [n / d], the even one of two that are equally
    near, for [0 <= n] and [0 < d]. *)
Definition nearest_even (n d : Z) : Z :=
  let k := n / d in
  match Z.compare (2 * (n mod d)) d with
  | Lt => k
  | Gt => k + 1
  | Eq => if Z.even k then k else k + 1
  end.

(** The binary64 number nearest to a rational, ties to even: 53
    significant bits, the last of them worth [2 ^ e] with [e] from -1074
    up; a result of magnitude [2 ^ 1024] or more is an infinity. *)
Definition round64 (q : Q) : jsnum :=
  let s := Qnum (Qred q) in
  let n := Z.abs s in
  let d := Zpos (Qden (Qred q)) in
  if Z.eqb n 0 then Num 0 else
  let e := Z.max (ilog2 n d - 52) (-1074) in
  let m := nearest_even (n * 2 ^ Z.max 0 (- e)) (d * 2 ^ Z.max 0 e) in
  if Z.leb (2 ^ 1024) (m * 2 ^ Z.max 0 e) then Inf (Z.ltb s 0)
  else Num (Qred (inject_Z (Z.sgn s * m) * 2 ^ e)).

(** A rational that is a binary64 number: rounding leaves it as it is. *)
Definition binary64 (q : Q) : Prop :=
  round64 q = Num (Qred q).

(** [x + y] and [x * y] on binary64 numbers. *)
Definition add (x y : jsnum) : jsnum :=
  match x, y with
  | Num a, Num b => round64 (a + b)
  | NaN, _ | _, NaN => NaN
  | Inf s, Inf s' => if Bool.eqb s s' then Inf s else NaN
  | Inf s, Num _ | Num _, Inf s => Inf s
  end.

Definition mul (x y : jsnum) : jsnum :=
  match x, y with
  | Num a, Num b => round64 (a * b)
  | NaN, _ | _, NaN => NaN
  | Inf s, Inf s' => Inf (xorb s s')
  | Inf s, Num b | Num b, Inf s =>
      if Z.eqb (Qnum b) 0 then NaN else Inf (xorb s (Z.ltb (Qnum b) 0))
  end.

(** [x > 0]; false on [NaN]. *)
Definition gt0 (x : jsnum) : bool :=
  match x with
  | Num q => negb (Qle_bool q 0)
  | Inf negative => negb negative
  | NaN => false
  end.

(** The integer a number denotes, if it denotes one. *)
Definition as_integer (x : jsnum) : option Z :=
  match x with
  | Num q =>
      if Z.eqb (Qnum q mod Zpos (Qden q)) 0
      then Some (Qnum q / Zpos (Qden q)) else None
  | Inf _ | NaN => None
  end.

(** [typeof v === "number"] *)
Definition is_number (v : jsval) : bool :=
  match v with JNum _ => true | _ => false end.

(** [v == null] *)
Definition is_nullish (v : jsval) : bool :=
  match v with JUndefined | JNull => true | _ => false end.

(** [String(z)] for an integer. *)
Definition string_of_Z (z : Z) : string :=
  NilZero.string_of_int (Z.to_int z).

Definition digit_char (n : Z) : ascii :=
  ascii_of_nat (48 + Z.to_nat n).

(** The digits after the decimal point of [r / d], for [0 <= r < d]. *)
Fixpoint frac_digits (fuel : nat) (r d : Z) : string :=
  match fuel with
  | O => EmptyString
  | S fuel' =>
      if Z.eqb r 0 then EmptyString
      else String (digit_char (10 * r / d)) (frac_digits fuel' ((10 * r) mod d) d)
  end.

(** [q.toString()]: an integer prints as its decimal digits, another
    number as integer part, point and fraction digits (at most 17).  This
    is what [Number.prototype.toString] prints for the safe integers and
    for the short decimals a client sends; above 2^53 the platform prints
    the shortest digits that read back (and an exponent from 1e21 on),
    which is not modelled: the statements that depend on the digits keep
    to the safe integers. *)
Definition num_toString (q : Q) : string :=
  let n := Qnum q in
  let d := Zpos (Qden q) in
  if Z.eqb (n mod d) 0 then string_of_Z (n / d)
  else
    let a := Z.abs n in
    ((if Z.ltb n 0 then "-" else "")
       ++ string_of_Z (a / d) ++ "." ++ frac_digits 17 (a mod d) d)%string.

(** [v.toString()]; [None] is the TypeError on [null] and [undefined]. *)
Definition toString (v : jsval) : option string :=
  match v with
  | JUndefined | JNull => None
  | JBool true => Some "true"
  | JBool false => Some "false"
  | JNum q => Some (num_toString q)
  | JStr s => Some s
  end.

(** *** parseInt(s, 10) *)

Definition is_space (a : ascii) : bool :=
  let n := nat_of_ascii a in
  (Nat.eqb n 32 || (Nat.leb 9 n && Nat.leb n 13))%bool.

Fixpoint skip_spaces (s : string) : string :=
  match s with
  | String a r => if is_space a then skip_spaces r else s
  | EmptyString => s
  end.

Definition digit_of_char (a : ascii) : option (uint -> uint) :=
  match a with
  | "0" => Some D0
  | "1" => Some D1
  | "2" => Some D2
  | "3" => Some D3
  | "4" => Some D4
  | "5" => Some D5
  | "6" => Some D6
  | "7" => Some D7
  | "8" => Some D8
  | "9" => Some D9
  | _ => None
  end%char.

(** The longest prefix of decimal digits. *)
Fixpoint scan_digits (s : string) : uint :=
  match s with
  | String a r =>
      match digit_of_char a with
      | Some D => D (scan_digits r)
      | None => Nil
      end
  | EmptyString => Nil
  end.

Definition parse_unsigned (s : string) : option Z :=
  match scan_digits s with
  | Nil => None
  | d => Some (Z.of_uint d)
  end.

(** Leading white space is skipped, one sign is accepted, the digits that
    follow are read and whatever comes after them is ignored; no digit
    gives [NaN].  The result is the integer the digits denote: the
    platform rounds it to binary64, which changes nothing up to 2^53; the
    statements that depend on the value read keep to that range. *)
Definition parseInt (s : string) : jsnum :=
  match skip_spaces s with
  | String "-" r =>
      match parse_unsigned r with Some z => of_Z (- z) | None => NaN end
  | String "+" r =>
      match parse_unsigned r with Some z => of_Z z | None => NaN end
  | r =>
      match parse_unsigned r with Some z => of_Z z | None => NaN end
  end.

End JS.

(** ** The Redis cache *)

Module Redis.

(** Hashes (one per cart key), the time to live of a key in seconds as
    last set (the passing of time and the expiry itself are not modelled),
    and sets (the dirty set lives under ["dirtyCarts"]). *)
Record state : Type := mkState {
  hashes : gmap string (gmap string string);
  ttl : gmap string Z;
  sets : gmap string (gset string)
}.

Definition empty : state := mkState ∅ ∅ ∅.

Definition int64_ok (z : Z) : bool :=
  (Z.leb (- 2 ^ 63) z && Z.leb z (2 ^ 63 - 1))%bool.

(** The server's strict integer reader: only the canonical decimal form of
    a 64-bit integer is accepted. *)
Definition string2ll (s : string) : option Z :=
  let cand :=
    match s with
    | String "-" r => Z.opp <$> JS.parse_unsigned r
    | _ => JS.parse_unsigned s
    end in
  match cand with
  | Some z =>
      if (String.eqb (JS.string_of_Z z) s && int64_ok z)%bool then Some z else None
  | None => None
  end.

Definition hGetAll (key : string) (r : state) : gmap string string :=
  default ∅ (hashes r !! key).

Definition hSet (key field value : string) (r : state) : state :=
  mkState (<[key := <[field := value]> (hGetAll key r)]> (hashes r)) (ttl r) (sets r).

(** Removing the last field removes the key, and its time to live with it. *)
Definition hDel (key field : string) (r : state) : state :=
  match hashes r !! key with
  | None => r
  | Some h =>
      let h' := delete field h in
      if decide (h' = ∅)
      then mkState (delete key (hashes r)) (delete key (ttl r)) (sets r)
      else mkState (<[key := h']> (hashes r)) (ttl r) (sets r)
  end.

(** The integer HINCRBY reads from a field: 0 when the field is absent. *)
Definition stored_integer (key field : string) (r : state) : option Z :=
  match hGetAll key r !! field with
  | None => Some 0
  | Some v => string2ll v
  end.

(** HINCRBY: the increment and the stored value must be 64-bit integers
    and so must their sum; otherwise the server replies with an error and
    changes nothing. *)
Definition hIncrBy (key field increment : string) (r : state) : string + state :=
  match string2ll increment with
  | None => inl "ERR value is not an integer or out of range"
  | Some n =>
      match stored_integer key field r with
      | None => inl "ERR hash value is not an integer"
      | Some o =>
          if int64_ok (o + n)
          then inr (hSet key field (JS.string_of_Z (o + n)) r)
          else inl "ERR increment or decrement would overflow"
      end
  end.

(** EXPIRE only applies to an existing key. *)
Definition expire (key : string) (seconds : Z) (r : state) : state :=
  match hashes r !! key with
  | Some _ => mkState (hashes r) (<[key := seconds]> (ttl r)) (sets r)
  | None => r
  end.

Definition del (key : string) (r : state) : state :=
  mkState (delete key (hashes r)) (delete key (ttl r)) (sets r).

Definition sMembers (key : string) (r : state) : gset string :=
  default ∅ (sets r !! key).

Definition sAdd (key member : string) (r : state) : state :=
  mkState (hashes r) (ttl r) (<[key := {[member]} ∪ sMembers key r]> (sets r)).

Definition sRem (key member : string) (r : state) : state :=
  let s' := sMembers key r ∖ {[member]} in
  if decide (s' = ∅)
  then mkState (hashes r) (ttl r) (delete key (sets r))
  else mkState (hashes r) (ttl r) (<[key := s']> (sets r)).

(** The commands a MULTI block can queue. *)
Inductive command : Type :=
| HSET (key field value : string)
| HDEL (key field : string)
| EXPIRE (key : string) (seconds : Z).

Definition run_command (c : command) (r : state) : state :=
  match c with
  | HSET k f v => hSet k f v r
  | HDEL k f => hDel k f r
  | EXPIRE k n => expire k n r
  end.

(** EXEC applies the queued commands in order. *)
Definition run_commands (cs : list command) (r : state) : state :=
  foldl (fun acc c => run_command c acc) r cs.

End Redis.

(** ** The PostgreSQL tables *)

Module Pg.

Record cart_row : Type := mkCart {
  cart_id : Z;
  updated_at : Z;
  last_synced_at : Z
}.

Record cart_item_row : Type := mkCartItem {
  quantity : Z;
  item_updated_at : Z
}.

Record order_row : Type := mkOrder {
  order_id : Z;
  order_user_id : string;
  order_status : string;
  placed_at : Z;
  total_amount : JS.jsnum
}.

Record order_item_row : Type := mkOrderItem {
  item_order_id : Z;
  item_product_id : string;
  item_quantity : Z;
  item_price : option Q
}.

(** [carts] is keyed by [user_id] (UNIQUE), [cart_items] by [cart_id] and
    then [product_id] (UNIQUE (cart_id, product_id)); [next_id] feeds the
    generated ids.  Foreign keys to users and products are not modelled. *)
Record tables : Type := mkTables {
  products : gmap string Q;
  carts : gmap string cart_row;
  cart_items : gmap Z (gmap string cart_item_row);
  orders : list order_row;
  order_items : list order_item_row;
  next_id : Z
}.

(** The committed tables, the working copy of the open transaction if
    there is one, and the clock read by [NOW()]. *)
Record state : Type := mkState {
  committed : tables;
  session : option tables;
  now : Z
}.

(** SELECT ci.product_id, ci.quantity FROM cart_items ci
    JOIN carts c ON ci.cart_id = c.id WHERE c.user_id = $1 *)
Definition select_cart_items (userId : option string) (t : tables)
  : list (string * Z) :=
  match userId with
  | Some u =>
      match carts t !! u with
      | Some c =>
          (fun kv => (kv.1, quantity kv.2))
            <$> map_to_list (default ∅ (cart_items t !! cart_id c))
      | None => []
      end
  | None => []
  end.

(** DELETE FROM carts WHERE user_id = $1; the items go with the cart. *)
Definition delete_cart (userId : string) (t : tables) : tables :=
  match carts t !! userId with
  | Some c =>
      mkTables (products t) (delete userId (carts t))
               (delete (cart_id c) (cart_items t))
               (orders t) (order_items t) (next_id t)
  | None => t
  end.

(** INSERT INTO carts ... ON CONFLICT (user_id) DO UPDATE
    SET updated_at = NOW(), last_synced_at = NOW() RETURNING id *)
Definition upsert_cart (userId : string) (clock : Z) (t : tables) : Z * tables :=
  match carts t !! userId with
  | Some c =>
      (cart_id c,
       mkTables (products t) (<[userId := mkCart (cart_id c) clock clock]> (carts t))
                (cart_items t) (orders t) (order_items t) (next_id t))
  | None =>
      (next_id t,
       mkTables (products t) (<[userId := mkCart (next_id t) clock clock]> (carts t))
                (cart_items t) (orders t) (order_items t) (next_id t + 1))
  end.

(** DELETE FROM cart_items WHERE cart_id = $1 *)
Definition delete_cart_items (cartId : Z) (t : tables) : tables :=
  mkTables (products t) (carts t) (delete cartId (cart_items t))
           (orders t) (order_items t) (next_id t).

(** The quantity columns.  The table declarations are not part of the
    repository; the tests read [quantity] back as a JavaScript number,
    which the driver does for the integer types of at most four bytes, and
    the columns are taken to be of type [integer]: -2^31 to 2^31 - 1. *)
Definition int4_ok (z : Z) : bool :=
  (Z.leb (- 2 ^ 31) z && Z.leb z (2 ^ 31 - 1))%bool.

(** A number sent as the value of an integer column: an integer of the
    column's range is taken, anything else makes the statement fail. *)
Definition integer_value (x : JS.jsnum) : option Z :=
  match JS.as_integer x with
  | Some z => if int4_ok z then Some z else None
  | None => None
  end.

(** The values of an integer column: anything else is refused. *)
Fixpoint integer_rows (items : list (string * JS.jsnum)) : option (list (string * Z)) :=
  match items with
  | [] => Some []
  | (p, q) :: rest =>
      match integer_value q, integer_rows rest with
      | Some z, Some zs => Some ((p, z) :: zs)
      | _, _ => None
      end
  end.

(** The parameters one statement can bind: the protocol counts them in
    sixteen bits. *)
Definition max_parameters : Z := 65535.

(** INSERT INTO cart_items ... VALUES ... ON CONFLICT (cart_id, product_id)
    DO UPDATE SET quantity = EXCLUDED.quantity, updated_at = NOW(): one
    statement for all the items, binding three parameters for each. *)
Definition insert_cart_items (cartId : Z) (items : list (string * JS.jsnum))
    (clock : Z) (t : tables) : option tables :=
  if Z.leb (3 * Z.of_nat (length items)) max_parameters then
    match integer_rows items with
    | Some rows =>
        let old := default ∅ (cart_items t !! cartId) in
        let new := foldl (fun acc pq => <[pq.1 := mkCartItem pq.2 clock]> acc) old rows in
        Some (mkTables (products t) (carts t) (<[cartId := new]> (cart_items t))
                       (orders t) (order_items t) (next_id t))
    | None => None
    end
  else None.

(** SELECT id, price FROM products WHERE id = ANY($1) *)
Definition select_prices (productIds : list string) (t : tables) : list (string * Q) :=
  omap (fun p => (fun price => (p, price)) <$> products t !! p) productIds.

(** INSERT INTO orders (user_id, status, placed_at, total_amount)
    VALUES ($1, 'pending', NOW(), $2) RETURNING id.  The row keeps the
    number the handler sends as [total_amount]; the tables are not declared
    in the repository, and what a column with a scale would round it to is
    not modelled. *)
Definition insert_order (userId : string) (total : JS.jsnum) (clock : Z)
    (t : tables) : Z * tables :=
  (next_id t,
   mkTables (products t) (carts t) (cart_items t)
            (orders t ++ [mkOrder (next_id t) userId "pending" clock total])
            (order_items t) (next_id t + 1)).

(** INSERT INTO order_items (order_id, product_id, quantity, price) *)
Definition insert_order_item (orderId : Z) (productId : string)
    (qty : JS.jsnum) (price : option Q) (t : tables) : option tables :=
  match integer_value qty with
  | Some z =>
      Some (mkTables (products t) (carts t) (cart_items t) (orders t)
                     (order_items t ++ [mkOrderItem orderId productId z price])
                     (next_id t))
  | None => None
  end.

End Pg.

(** ** Worlds, failures and the handler monad *)

(** What a store call or the handler itself can throw. *)
Inductive exn : Type :=
| ConnectionError                 (* the store could not be reached in time *)
| ReplyError (msg : string)       (* an error reply of the Redis server *)
| QueryError                      (* a statement refused by PostgreSQL *)
| TypeError                       (* a JavaScript TypeError *)
| ProductsNotFound.               (* Error("One or more products in the cart not found.") *)

Inductive outcome (A : Type) : Type :=
| Ok (a : A)
| Throw (e : exn).
Arguments Ok {A} a.
Arguments Throw {A} e.

(** The two stores, the fate of the store calls still to come ([true]: the
    call fails with a connectivity error and has no effect; an exhausted
    list means no further failure) and what [console.error] printed. *)
Record world : Type := mkWorld {
  redis : Redis.state;
  pg : Pg.state;
  faults : list bool;
  console : list (string * exn)
}.

Definition io (A : Type) : Type := world -> outcome A * world.

#[global] Instance io_ret : MRet io := fun A a w => (Ok a, w).

#[global] Instance io_bind : MBind io :=
  fun A B k m w =>
    match m w with
    | (Ok a, w') => k a w'
    | (Throw e, w') => (Throw e, w')
    end.

Definition throw {A : Type} (e : exn) : io A := fun w => (Throw e, w).

(** try { m } catch (err) { h err } *)
Definition try_catch {A : Type} (m : io A) (h : exn -> io A) : io A :=
  fun w =>
    match m w with
    | (Ok a, w') => (Ok a, w')
    | (Throw e, w') => h e w'
    end.

(** try { m } finally { f } *)
Definition finally {A : Type} (m : io A) (f : io unit) : io A :=
  fun w =>
    match m w with
    | (r, w') =>
        match f w' with
        | (Ok _, w'') => (r, w'')
        | (Throw e, w'') => (Throw e, w'')
        end
    end.

(** for (const x of xs) { await f x } *)
Fixpoint for_each {A : Type} (xs : list A) (f : A -> io unit) : io unit :=
  match xs with
  | [] => mret tt
  | x :: rest => f x ;; for_each rest f
  end.

Definition console_error (label : string) (err : exn) : io unit :=
  fun w => (Ok tt, mkWorld (redis w) (pg w) (faults w) (console w ++ [(label, err)])).

(** Every store call starts by reaching the store. *)
Definition attempt : io unit :=
  fun w =>
    match faults w with
    | true :: rest => (Throw ConnectionError, mkWorld (redis w) (pg w) rest (console w))
    | false :: rest => (Ok tt, mkWorld (redis w) (pg w) rest (console w))
    | [] => (Ok tt, w)
    end.

(** A store call: reach the store, then act on the world. *)
Definition call {A : Type} (act : world -> outcome A * world) : io A :=
  attempt ;; act.

Definition redis_read {A : Type} (f : Redis.state -> A) : io A :=
  call (fun w => (Ok (f (redis w)), w)).

Definition redis_write (f : Redis.state -> Redis.state) : io unit :=
  call (fun w => (Ok tt, mkWorld (f (redis w)) (pg w) (faults w) (console w))).

Definition redis_hGetAll (key : string) : io (gmap string string) :=
  redis_read (Redis.hGetAll key).

Definition redis_sMembers (key : string) : io (list string) :=
  redis_read (fun r => elements (Redis.sMembers key r)).

Definition redis_hSet (key field value : string) : io unit :=
  redis_write (Redis.hSet key field value).

Definition redis_hDel (key field : string) : io unit :=
  redis_write (Redis.hDel key field).

Definition redis_expire (key : string) (seconds : Z) : io unit :=
  redis_write (Redis.expire key seconds).

Definition redis_del (key : string) : io unit :=
  redis_write (Redis.del key).

Definition redis_sAdd (key member : string) : io unit :=
  redis_write (Redis.sAdd key member).

Definition redis_sRem (key member : string) : io unit :=
  redis_write (Redis.sRem key member).

(** The client sends [increment.toString()]; an error reply is thrown. *)
Definition redis_hIncrBy (key field : string) (increment : Q) : io unit :=
  call (fun w =>
    match Redis.hIncrBy key field (JS.num_toString increment) (redis w) with
    | inr r' => (Ok tt, mkWorld r' (pg w) (faults w) (console w))
    | inl msg => (Throw (ReplyError msg), w)
    end).

(** multi() ... exec(): the queued commands reach the server in one
    MULTI/EXEC block, applied as a whole or not at all. *)
Definition redis_exec (pipeline : list Redis.command) : io unit :=
  redis_write (Redis.run_commands pipeline).

Definition set_pg (p : Pg.state) (w : world) : world :=
  mkWorld (redis w) p (faults w) (console w).

(** pool.query: one statement on the committed tables. *)
Definition pool_query {A : Type} (stmt : Z -> Pg.tables -> option (A * Pg.tables)) : io A :=
  call (fun w =>
    match stmt (Pg.now (pg w)) (Pg.committed (pg w)) with
    | Some (a, t') => (Ok a, set_pg (Pg.mkState t' (Pg.session (pg w)) (Pg.now (pg w))) w)
    | None => (Throw QueryError, w)
    end).

Definition pool_connect : io unit := attempt.

(** client.query("BEGIN"), ("COMMIT"), ("ROLLBACK"), client.release(). *)
Definition client_begin : io unit :=
  call (fun w => (Ok tt, set_pg (Pg.mkState (Pg.committed (pg w)) (Some (Pg.committed (pg w))) (Pg.now (pg w))) w)).

Definition client_commit : io unit :=
  call (fun w =>
    match Pg.session (pg w) with
    | Some t => (Ok tt, set_pg (Pg.mkState t None (Pg.now (pg w))) w)
    | None => (Ok tt, w)
    end).

Definition client_rollback : io unit :=
  call (fun w => (Ok tt, set_pg (Pg.mkState (Pg.committed (pg w)) None (Pg.now (pg w))) w)).

Definition client_release : io unit :=
  fun w => (Ok tt, set_pg (Pg.mkState (Pg.committed (pg w)) None (Pg.now (pg w))) w).

(** client.query: one statement inside the open transaction (on the
    committed tables when none is open). *)
Definition client_query {A : Type} (stmt : Z -> Pg.tables -> option (A * Pg.tables)) : io A :=
  call (fun w =>
    match Pg.session (pg w) with
    | Some t =>
        match stmt (Pg.now (pg w)) t with
        | Some (a, t') => (Ok a, set_pg (Pg.mkState (Pg.committed (pg w)) (Some t') (Pg.now (pg w))) w)
        | None => (Throw QueryError, w)
        end
    | None =>
        match stmt (Pg.now (pg w)) (Pg.committed (pg w)) with
        | Some (a, t') => (Ok a, set_pg (Pg.mkState t' None (Pg.now (pg w))) w)
        | None => (Throw QueryError, w)
        end
    end).

(** ** src/utils/cart.ts *)

(** Parse cart quantities from Redis (strings) to numbers.  The source
    fills a plain object, on which [__proto__] names no property of its
    own: a field of that name is dropped there.  It is kept here, and the
    statements about parsed carts leave such a field aside. *)
Definition parseCart (cartRaw : gmap string string) : gmap string JS.jsnum :=
  JS.parseInt <$> cartRaw.

(** ** src/routes/cart.ts *)

Inductive body : Type :=
| Message (text : string)
| Error (text : string)
| CartJson (cart : gmap string JS.jsnum)
| CheckoutOk (orderId : Z).

Record response : Type := mkResponse {
  status : Z;
  json : body
}.

Definition CART_TTL : Z := 60 * 60 * 24.
Definition CART_KEY_PREFIX : string := "cart:".

(** [!id] for [req.user?.id] and for a product id of the body: absent
    ([None]) or the empty string.  (A product id is a string or absent; what
    the Redis client does with another JSON value is outside the model.) *)
Definition falsy (id : option string) : bool :=
  match id with
  | None => true
  | Some s => String.eqb s ""
  end.

(** The id as the template literal [`${CART_KEY_PREFIX}${userId}`] prints it. *)
Definition template (id : option string) : string :=
  default "undefined" id.

Definition cart_key (userId : option string) : string :=
  (CART_KEY_PREFIX ++ template userId)%string.

Definition handleRedisError (err : exn) (message : string) : io response :=
  console_error "Redis error" err ;;
  mret (mkResponse 500 (Error message)).

(** POST /add *)
Definition post_add (userId productId : option string) (quantity : JS.jsval)
  : io response :=
  if falsy userId then mret (mkResponse 401 (Error "User not authenticated")) else
  let cartKey := cart_key userId in
  match productId, quantity with
  | Some pid, JS.JNum q =>
      if (falsy productId || Qle_bool q 0)%bool
      then mret (mkResponse 400 (Error "Valid productId and quantity required"))
      else
        try_catch
          (redis_hIncrBy cartKey pid q ;;
           redis_expire cartKey CART_TTL ;;
           redis_sAdd "dirtyCarts" (template userId) ;;
           mret (mkResponse 200 (Message "Item added to cart")))
          (fun err => handleRedisError err "Failed to add to cart")
  | _, _ => mret (mkResponse 400 (Error "Valid productId and quantity required"))
  end.

(** GET / *)
Definition get_cart (userId : option string) : io response :=
  let cartKey := cart_key userId in
  try_catch
    (cartRaw ← redis_hGetAll cartKey;
     if decide (size cartRaw = 0%nat) then
       rows ← pool_query (fun _ t => Some (Pg.select_cart_items userId t, t));
       if decide (0 < length rows)%nat then
         let cart : gmap string Z :=
           foldl (fun acc row => <[row.1 := row.2]> acc) ∅ rows in
         redis_exec
           (((fun '(pId, qty) => Redis.HSET cartKey pId (JS.string_of_Z qty))
               <$> map_to_list cart)
              ++ [Redis.EXPIRE cartKey CART_TTL]) ;;
         mret (mkResponse 200 (CartJson (JS.of_Z <$> cart)))
       else mret (mkResponse 200 (CartJson ∅))
     else mret (mkResponse 200 (CartJson (parseCart cartRaw))))
    (fun err => handleRedisError err "Failed to fetch cart").

(** PUT /update *)
Definition put_update (userId productId : option string) (quantity : JS.jsval)
  : io response :=
  if falsy userId then mret (mkResponse 401 (Error "User not authenticated")) else
  let cartKey := cart_key userId in
  if falsy productId then mret (mkResponse 400 (Error "productId required")) else
  if (negb (JS.is_nullish quantity) && negb (JS.is_number quantity))%bool
  then mret (mkResponse 400 (Error "Quantity must be a number"))
  else
    try_catch
      (match quantity with
       | JS.JNum q =>
           if Qle_bool q 0
           then redis_hDel cartKey (template productId)
           else redis_hSet cartKey (template productId) (JS.num_toString q)
       | _ => redis_hDel cartKey (template productId)
       end ;;
       redis_expire cartKey CART_TTL ;;
       redis_sAdd "dirtyCarts" (template userId) ;;
       mret (mkResponse 200 (Message "Cart updated")))
      (fun err => handleRedisError err "Failed to update cart").

(** DELETE /clear *)
Definition delete_clear (userId : option string) : io response :=
  if falsy userId then mret (mkResponse 401 (Error "User not authenticated")) else
  let cartKey := cart_key userId in
  try_catch
    (redis_del cartKey ;;
     pool_query (fun _ t => Some (tt, Pg.delete_cart (template userId) t)) ;;
     redis_sAdd "dirtyCarts" (template userId) ;;
     mret (mkResponse 200 (Message "Cart cleared")))
    (fun err => handleRedisError err "Failed to clear cart").

(** One element of the [items] array of POST /update-bulk: an object with
    a string [productId] and any scalar (or no) [quantity]. *)
Record bulk_item : Type := mkItem {
  productId : string;
  quantity : JS.jsval
}.

Section Bulk.

(** The conversion of a string to a number that [quantity > 0] applies to a
    string operand is the platform's; it is left abstract. *)
Variable StringToNumber : string -> JS.jsnum.

Definition ToNumber (v : JS.jsval) : JS.jsnum :=
  match v with
  | JS.JUndefined => JS.NaN
  | JS.JNull => JS.of_Z 0
  | JS.JBool true => JS.of_Z 1
  | JS.JBool false => JS.of_Z 0
  | JS.JNum q => JS.Num q
  | JS.JStr s => StringToNumber s
  end.

(** The command one item queues on the pipeline; [None] is the TypeError
    of [quantity.toString()]. *)
Definition bulk_command (cartKey : string) (item : bulk_item) : option Redis.command :=
  if JS.gt0 (ToNumber (quantity item))
  then Redis.HSET cartKey (productId item) <$> JS.toString (quantity item)
  else Some (Redis.HDEL cartKey (productId item)).

(** POST /update-bulk; [items] is [None] when the body holds no array. *)
Definition post_update_bulk (userId : option string) (items : option (list bulk_item))
  : io response :=
  if falsy userId then mret (mkResponse 401 (Error "User not authenticated")) else
  let cartKey := cart_key userId in
  match items with
  | None => mret (mkResponse 400 (Error "Items array required"))
  | Some items =>
      try_catch
        (pipeline ← match mapM (bulk_command cartKey) items with
                    | Some cs => mret cs
                    | None => throw TypeError
                    end;
         redis_exec pipeline ;;
         redis_expire cartKey CART_TTL ;;
         redis_sAdd "dirtyCarts" (template userId) ;;
         mret (mkResponse 200 (Message "Cart updated in bulk")))
        (fun err => handleRedisError err "Failed to bulk update cart")
  end.

End Bulk.

(** [prices[productId]] as the operand of [*]: the price, which a numeric
    column gives as its decimal text, converts to the nearest binary64
    number; [undefined] multiplies to [NaN]. *)
Definition price_of (prices : gmap string Q) (productId : string) : JS.jsnum :=
  match prices !! productId with
  | Some price => JS.round64 price
  | None => JS.NaN
  end.

(** POST /checkout.  (The order number the handler builds is not part of
    any statement and is left out.) *)
Definition post_checkout (userId : option string) : io response :=
  let cartKey := cart_key userId in
  try_catch
    (cartRaw ← redis_hGetAll cartKey;
     let cart := parseCart cartRaw in
     if decide (size cart = 0%nat)
     then mret (mkResponse 400 (Error "Cart is empty"))
     else if falsy userId
     then mret (mkResponse 401 (Error "Authentication error, user not found."))
     else
       pool_connect ;;
       finally
         (try_catch
            (client_begin ;;
             let productIds := (map_to_list cart).*1 in
             priceRows ← client_query (fun _ t => Some (Pg.select_prices productIds t, t));
             let prices : gmap string Q :=
               foldl (fun acc row => <[row.1 := row.2]> acc) ∅ priceRows in
             (if decide (length priceRows ≠ length productIds)
              then throw ProductsNotFound else mret tt) ;;
             let totalAmount :=
               foldl (fun acc '(productId, quantity) =>
                        JS.add acc (JS.mul (price_of prices productId) quantity))
                     (JS.of_Z 0) (map_to_list cart) in
             orderId ← client_query
                         (fun clock t => Some (Pg.insert_order (template userId) totalAmount clock t));
             for_each (map_to_list cart)
               (fun '(productId, quantity) =>
                  client_query
                    (fun _ t => (fun t' => (tt, t')) <$>
                       Pg.insert_order_item orderId productId quantity (prices !! productId) t)) ;;
             client_commit ;;
             redis_del cartKey ;;
             pool_query (fun _ t => Some (tt, Pg.delete_cart (template userId) t)) ;;
             mret (mkResponse 200 (CheckoutOk orderId)))
            (fun err =>
               client_rollback ;;
               console_error "Checkout failed" err ;;
               mret (mkResponse 500 (Error "Checkout failed"))))
         client_release)
    (fun err =>
       console_error "Checkout failed (Redis error)" err ;;
       mret (mkResponse 500 (Error "Checkout failed"))).

(** ** src/jobs/cartSync.ts *)

(** Sync one user's cart from Redis to PostgreSQL. *)
Definition syncCartToPostgres (userId : string) (cart : gmap string JS.jsnum) : io unit :=
  if decide (size cart = 0%nat) then mret tt else
  pool_connect ;;
  finally
    (try_catch
       (client_begin ;;
        cartId ← client_query (fun clock t => Some (Pg.upsert_cart userId clock t));
        client_query (fun _ t => Some (tt, Pg.delete_cart_items cartId t)) ;;
        let items := map_to_list cart in
        (if decide (0 < length items)%nat
         then client_query
                (fun clock t => (fun t' => (tt, t')) <$> Pg.insert_cart_items cartId items clock t)
         else mret tt) ;;
        client_commit)
       (fun err =>
          client_rollback ;;
          console_error ("Failed to sync cart for user " ++ userId) err))
    client_release.

(** The body of the loop over the dirty users. *)
Definition sync_dirty_user (userId : string) : io unit :=
  cartRaw ← redis_hGetAll ("cart:" ++ userId)%string;
  let cart := parseCart cartRaw in
  syncCartToPostgres userId cart ;;
  (* remove from dirty set after successful sync *)
  redis_sRem "dirtyCarts" userId.

(** The callback [startCartSyncJob] schedules every hour. *)
Definition startCartSyncJob : io unit :=
  try_catch
    (userIds ← redis_sMembers "dirtyCarts";
     for_each userIds sync_dirty_user)
    (fun err => console_error "Cart sync job failed" err).

(** ** Vocabulary of the specification *)

(** The dirty set. *)
Definition dirty (r : Redis.state) : gset string :=
  Redis.sMembers "dirtyCarts" r.

(** The cache-side cart of a user, as stored. *)
Definition cache_cart (u : string) (r : Redis.state) : gmap string string :=
  Redis.hGetAll (cart_key (Some u)) r.

(** The durable mirror of a user's cart: product to quantity. *)
Definition durable_cart (u : string) (t : Pg.tables) : gmap string Z :=
  match Pg.carts t !! u with
  | Some c => Pg.quantity <$> default ∅ (Pg.cart_items t !! Pg.cart_id c)
  | None => ∅
  end.

(** A world in which no store call fails. *)
Definition calm (r : Redis.state) (p : Pg.state) (out : list (string * exn)) : world :=
  mkWorld r p [] out.

(** One of the first [n] store calls to come fails. *)
Definition fails_within (n : nat) (plan : list bool) : Prop :=
  true ∈ take n plan.

(** The mutating calls of the Cart Accessor, with well-formed arguments. *)
Inductive mutation : Type :=
| AddItem (product : string) (qty : Q)
| UpdateItem (product : string) (qty : option Q)
| BulkUpdate (items : list bulk_item)
| ClearCart.

Definition well_formed (m : mutation) : Prop :=
  match m with
  | AddItem p q => p ≠ "" ∧ Qle_bool q 0 = false
  | UpdateItem p _ => p ≠ ""
  | BulkUpdate _ => True
  | ClearCart => True
  end.

Definition perform (StringToNumber : string -> JS.jsnum) (u : string) (m : mutation)
  : io response :=
  match m with
  | AddItem p q => post_add (Some u) (Some p) (JS.JNum q)
  | UpdateItem p (Some q) => put_update (Some u) (Some p) (JS.JNum q)
  | UpdateItem p None => put_update (Some u) (Some p) JS.JNull
  | BulkUpdate items => post_update_bulk StringToNumber (Some u) (Some items)
  | ClearCart => delete_clear (Some u)
  end.

(** A stored quantity that is the decimal form of a positive integer. *)
Definition positive_integer (v : string) : bool :=
  match JS.parse_unsigned v with
  | Some z => (String.eqb (JS.string_of_Z z) v && Z.ltb 0 z)%bool
  | None => false
  end.

(** Every quantity of every cache-side cart is a positive integer. *)
Definition cache_quantities_positive (r : Redis.state) : Prop :=
  map_Forall (fun _ h => map_Forall (fun _ v => positive_integer v = true) h)
             (Redis.hashes r).

(** Every quantity of every durable cart item is positive, and within
    the range of its column. *)
Definition durable_quantities_positive (t : Pg.tables) : Prop :=
  map_Forall (fun _ items =>
                map_Forall (fun _ row => 0 < Pg.quantity row
                                         ∧ Pg.int4_ok (Pg.quantity row) = true) items)
             (Pg.cart_items t).

(** A quantity of a request body that is a safe integer, or no quantity. *)
Definition integral (v : JS.jsval) : Prop :=
  match v with
  | JS.JNum q => exists z : Z, q = inject_Z z ∧ JS.safe_integer z = true
  | JS.JUndefined | JS.JNull => True
  | _ => False
  end.

(** The sum over a cart of quantity times unit price. *)
Definition cart_total (price : string -> Q) (cart : list (string * Z)) : Q :=
  foldr (fun '(p, z) acc => inject_Z z * price p + acc)%Q (0%Q) cart.

(** The total POST /checkout computes over the entries of a cart, taken
    in their order: the binary64 sum of the binary64 products of price and
    quantity. *)
Definition checkout_total (price : string -> Q) (entries : list (string * Z)) : JS.jsnum :=
  foldl (fun acc '(p, z) => JS.add acc (JS.mul (JS.round64 (price p)) (JS.of_Z z)))
        (JS.of_Z 0) entries.

(** Nothing is rounded when the total of the entries is computed in
    their order, starting from [acc]: every price, every product and every
    partial sum is a binary64 number. *)
Fixpoint sums_exactly (price : string -> Q) (acc : Q) (entries : list (string * Z)) : Prop :=
  match entries with
  | [] => True
  | (p, z) :: rest =>
      JS.binary64 (price p)
      ∧ JS.binary64 (price p * inject_Z z)
      ∧ JS.binary64 (acc + price p * inject_Z z)
      ∧ sums_exactly price (acc + price p * inject_Z z)%Q rest
  end.

(** Every quantity of the cart fits the integer column. *)
Definition cart_fits (C : gmap string Z) : Prop :=
  map_Forall (fun _ z => Pg.int4_ok z = true) C.

(** The total of the cart is a finite number, in whatever order its
    entries are taken. *)
Definition finite_total (price : string -> Q) (C : gmap string Z) : Prop :=
  forall l, l ≡ₚ map_to_list C -> exists q, checkout_total price l = JS.Num q.

(** The unit price of a product, 0 when the catalog has none. *)
Definition unit_price (t : Pg.tables) (p : string) : Q :=
  default 0%Q (Pg.products t !! p).

(** The order-item rows of an order for the entries of a cart. *)
Definition order_item_rows (orderId : Z) (price : string -> option Q)
    (entries : list (string * Z)) : list Pg.order_item_row :=
  (fun '(p, z) => Pg.mkOrderItem orderId p z (price p)) <$> entries.

(** The tables after a committed checkout, before the cart rows go. *)
Definition with_order (t : Pg.tables) (u : string) (clock : Z) (total : JS.jsnum)
    (entries : list (string * Z)) : Pg.tables :=
  Pg.mkTables (Pg.products t) (Pg.carts t) (Pg.cart_items t)
    (Pg.orders t ++ [Pg.mkOrder (Pg.next_id t) u "pending" clock total])
    (Pg.order_items t
       ++ order_item_rows (Pg.next_id t) (fun p => Pg.products t !! p) entries)
    (Pg.next_id t + 1).

(** The cache after the restore pipeline of GET / has run. *)
Definition restored (k : string) (mirror : gmap string Z) (r : Redis.state) : Redis.state :=
  Redis.run_commands
    (((fun '(pId, qty) => Redis.HSET k pId (JS.string_of_Z qty)) <$> map_to_list mirror)
       ++ [Redis.EXPIRE k CART_TTL]) r.

(** The cache after the users of [l] have left the dirty set. *)
Definition cleared (l : list string) (r : Redis.state) : Redis.state :=
  foldl (fun acc u => Redis.sRem "dirtyCarts" u acc) r l.

(** The invariant on a world. *)
Definition quantities_positive (w : world) : Prop :=
  cache_quantities_positive (redis w)
  ∧ durable_quantities_positive (Pg.committed (pg w)).

(** [m] keeps the invariant and its results satisfy [Q]. *)
Definition keeps {A : Type} (m : io A) (Q : A -> Prop) : Prop :=
  forall w, quantities_positive w ->
    quantities_positive (m w).2 ∧ forall a, (m w).1 = Ok a -> Q a.

(** A queued command that writes no bad quantity. *)
Definition positive_command (c : Redis.command) : Prop :=
  match c with
  | Redis.HSET _ _ v => positive_integer v = true
  | _ => True
  end.

(** The mutating calls whose quantities are safe integers. *)
Definition integral_mutation (m : mutation) : Prop :=
  match m with
  | AddItem _ q => exists z : Z, q = inject_Z z ∧ JS.safe_integer z = true
  | UpdateItem _ (Some q) => exists z : Z, q = inject_Z z ∧ JS.safe_integer z = true
  | UpdateItem _ None => True
  | BulkUpdate items => Forall (fun it => integral (quantity it)) items
  | ClearCart => True
  end.

(** ** Sample data *)

Module Sample.

Definition no_tables : Pg.tables := Pg.mkTables ∅ ∅ ∅ [] [] 1.

Definition no_rows : Pg.state := Pg.mkState no_tables None 1000.

(** A catalog with product A at 3.99. *)
Definition catalog : Pg.state :=
  Pg.mkState (Pg.mkTables {[ "A" := (399 # 100)%Q ]} ∅ ∅ [] [] 1) None 1000.

(** A catalog with product A at 2.50, and one with A at 0.70. *)
Definition catalog_250 : Pg.state :=
  Pg.mkState (Pg.mkTables {[ "A" := (5 # 2)%Q ]} ∅ ∅ [] [] 1) None 1000.

Definition catalog_070 : Pg.state :=
  Pg.mkState (Pg.mkTables {[ "A" := (7 # 10)%Q ]} ∅ ∅ [] [] 1) None 1000.

(** The binary64 number that prints as 2.0999999999999996. *)
Definition below_2_1 : Q := (1182194902184755 # 562949953421312)%Q.

(** User U holds three thousand million of A in the cache. *)
Definition cart_A_huge : Redis.state :=
  Redis.mkState {[ "cart:U" := {[ "A" := "3000000000" ]} ]} {[ "cart:U" := 500 ]} ∅.

(** User U holds the cart {A: 3} in the cache. *)
Definition cart_A3 : Redis.state :=
  Redis.mkState {[ "cart:U" := {[ "A" := "3" ]} ]} {[ "cart:U" := 500 ]} ∅.

Definition A3 : gmap string Z := {[ "A" := 3 ]}.

(** User U holds {A: 2, B: 1} in the cache. *)
Definition cart_A2_B1 : Redis.state :=
  Redis.mkState {[ "cart:U" := {[ "A" := "2"; "B" := "1" ]} ]} {[ "cart:U" := 500 ]} ∅.

(** The durable mirror of U holds {A: 2, B: 1}, synced at time 5. *)
Definition mirror_A2_B1 : Pg.state :=
  Pg.mkState
    (Pg.mkTables ∅ {[ "U" := Pg.mkCart 1 5 5 ]}
       {[ 1 := {[ "A" := Pg.mkCartItem 2 5; "B" := Pg.mkCartItem 1 5 ]} ]} [] [] 2)
    None 1000.

(** U is dirty and has no cart in the cache. *)
Definition dirty_U : Redis.state :=
  Redis.mkState ∅ ∅ {[ "dirtyCarts" := {[ "U" ]} ]}.

(** X and Y are dirty, each with one item in the cache. *)
Definition dirty_X_Y : Redis.state :=
  Redis.mkState
    {[ "cart:X" := {[ "A" := "2" ]}; "cart:Y" := {[ "B" := "1" ]} ]}
    {[ "cart:X" := 86400; "cart:Y" := 86400 ]}
    {[ "dirtyCarts" := {[ "X"; "Y" ]} ]}.

(** The job visits Y, then X; the thirteenth store call is the upsert of
    X's cart row. *)
Definition upsert_of_X_fails : list bool := replicate 12 false ++ [true].

(** The third store call is the first [pool.connect()] of the run. *)
Definition first_connect_fails : list bool := [false; false; true].

End Sample.

(** ** Vocabulary of the further properties *)

(** The results of [m] satisfy [Q] whenever [m] returns. *)
Definition yields {A : Type} (m : io A) (Q : A -> Prop) : Prop :=
  forall w a, (m w).1 = Ok a -> Q a.

(** [m] always returns: no exception leaves it. *)
Definition returns {A : Type} (m : io A) : Prop :=
  forall w, exists a, (m w).1 = Ok a.

(** The statuses a cart handler answers with. *)
Definition cart_status (resp : response) : Prop :=
  status resp = 200 ∨ status resp = 400 ∨ status resp = 401 ∨ status resp = 500.

(** The command PUT /update issues for a quantity that is a number or
    absent. *)
Definition update_command (k p : string) (quantity : JS.jsval) : Redis.command :=
  match quantity with
  | JS.JNum q => if Qle_bool q 0 then Redis.HDEL k p else Redis.HSET k p (JS.num_toString q)
  | _ => Redis.HDEL k p
  end.

(** A quantity PUT /update accepts: a number, or none. *)
Definition accepted_quantity (v : JS.jsval) : Prop :=
  JS.is_number v = true ∨ JS.is_nullish v = true.

(** The world after the items went through PUT /update one by one. *)
Definition updated_one_by_one (u : string) (items : list bulk_item) (w : world) : world :=
  foldl (fun w it => (put_update (Some u) (Some (productId it)) (quantity it) w).2) w items.

(** Requests with integer quantities, and their effect on a cart seen as
    a mapping from products to integers. *)
Inductive cart_op : Type :=
| AddQty (p : string) (n : Z)
| SetQty (p : string) (z : Z).

Definition apply_op (C : gmap string Z) (op : cart_op) : gmap string Z :=
  match op with
  | AddQty p n => <[p := default 0 (C !! p) + n]> C
  | SetQty p z => if Z.leb z 0 then delete p C else <[p := z]> C
  end.

Definition op_request (op : cart_op) : mutation :=
  match op with
  | AddQty p n => AddItem p (inject_Z n)
  | SetQty p z => UpdateItem p (Some (inject_Z z))
  end.

(** The requests considered: the product id is present and is not
    [__proto__] (a field the source's [parseCart] drops), the quantities
    sent and the quantities stored before and after are safe integers, and
    an addition is positive. *)
Definition op_accepted (C : gmap string Z) (op : cart_op) : Prop :=
  match op with
  | AddQty p n =>
      p ≠ "" ∧ p ≠ "__proto__" ∧ 0 < n ∧ JS.safe_integer n = true
      ∧ JS.safe_integer (default 0 (C !! p)) = true
      ∧ JS.safe_integer (default 0 (C !! p) + n) = true
  | SetQty p z => p ≠ "" ∧ p ≠ "__proto__" ∧ JS.safe_integer z = true
  end.

(** Every quantity of the cart is a safe integer. *)
Definition cart_safe (C : gmap string Z) : Prop :=
  map_Forall (fun _ z => JS.safe_integer z = true) C.

Fixpoint ops_accepted (C : gmap string Z) (ops : list cart_op) : Prop :=
  match ops with
  | [] => True
  | op :: rest => op_accepted C op ∧ ops_accepted (apply_op C op) rest
  end.

(** The requests of [ops], sent one after the other. *)
Fixpoint run_ops (StringToNumber : string -> JS.jsnum) (u : string) (ops : list cart_op)
  : io (list response) :=
  match ops with
  | [] => mret []
  | op :: rest =>
      resp ← perform StringToNumber u (op_request op);
      resps ← run_ops StringToNumber u rest;
      mret (resp :: resps)
  end.

(** The tables after the cart [C] of user [u] was flushed at time [clock]. *)
Definition flushed (t : Pg.tables) (u : string) (clock : Z) (C : gmap string Z) : Pg.tables :=
  let cartId := (Pg.upsert_cart u clock t).1 in
  let t1 := (Pg.upsert_cart u clock t).2 in
  Pg.mkTables (Pg.products t1) (Pg.carts t1)
    (<[cartId := (fun z => Pg.mkCartItem z clock) <$> C]> (Pg.cart_items t1))
    (Pg.orders t1) (Pg.order_items t1) (Pg.next_id t1).

(** A cart the sync job can write: every quantity fits the integer column
    and the items fit one statement. *)
Definition flushable (C : gmap string Z) : Prop :=
  cart_fits C ∧ Z.leb (3 * Z.of_nat (size C)) Pg.max_parameters = true.

(** The world after the cart key of [u] was lost (expired or evicted). *)
Definition cache_lost (u : string) (w : world) : world :=
  mkWorld (Redis.del (cart_key (Some u)) (redis w)) (pg w) (faults w) (console w).

(** Cart ids identify carts: two users never share one, and every id in
    use lies below the next id to be handed out. *)
Definition cart_ids_sound (t : Pg.tables) : Prop :=
  (forall u1 u2 c1 c2,
     Pg.carts t !! u1 = Some c1 -> Pg.carts t !! u2 = Some c2 ->
     Pg.cart_id c1 = Pg.cart_id c2 -> u1 = u2)
  ∧ (forall u c, Pg.carts t !! u = Some c -> Pg.cart_id c < Pg.next_id t).

(** The accessor and checkout handlers of the cart router. *)
Inductive cart_request : Type :=
| PostAdd (productId : option string) (quantity : JS.jsval)
| GetCart
| PutUpdate (productId : option string) (quantity : JS.jsval)
| DeleteClear
| PostUpdateBulk (items : option (list bulk_item))
| PostCheckout.

Definition handle (StringToNumber : string -> JS.jsnum) (userId : option string)
    (req : cart_request) : io response :=
  match req with
  | PostAdd productId quantity => post_add userId productId quantity
  | GetCart => get_cart userId
  | PutUpdate productId quantity => put_update userId productId quantity
  | DeleteClear => delete_clear userId
  | PostUpdateBulk items => post_update_bulk StringToNumber userId items
  | PostCheckout => post_checkout userId
  end.

(** ** The authentication middleware (src/middleware/auth.ts) *)

Module Auth.

(** The payload of a verified token; a field the token does not carry is
    [None] ([undefined]). *)
Record UserPayload : Type := mkUserPayload {
  id : option string;
  phone : option string
}.

End Auth.

(** [s.split(sep)] for a separator of one character: never empty, and two
    separators in a row enclose an empty field. *)
Fixpoint split (sep : ascii) (s : string) : list string :=
  match s with
  | EmptyString => [EmptyString]
  | String c s' =>
      if Ascii.eqb c sep then EmptyString :: split sep s'
      else
        match split sep s' with
        | field :: fields => String c field :: fields
        | [] => [String c EmptyString]
        end
  end.

(** [s.startsWith(p)] *)
Definition startsWith (s p : string) : bool := String.prefix p s.

(** What the middleware does with a request: it answers itself, or calls
    [next()] with [req.user] set. *)
Inductive verdict : Type :=
| Respond (resp : response)
| Next (user : Auth.UserPayload).

Section Authenticate.

(** [jwt.verify(token, process.env.JWT_SECRET)]: the decoded payload, or
    [None] when it throws. *)
Variable jwt_verify : string -> option Auth.UserPayload.

Definition authenticate (authHeader : option string) : verdict :=
  if falsy authHeader || negb (startsWith (default "" authHeader) "Bearer ") then
    Respond (mkResponse 401 (Error "Authentication token required"))
  else
    let token := split " " (default "" authHeader) !! 1%nat in
    match token ≫= jwt_verify with
    | Some decoded => Next decoded
    | None => Respond (mkResponse 401 (Error "Invalid or expired token"))
    end.

(** A route of the cart router: the middleware, then the handler with
    [req.user?.id]. *)
Definition cart_route (StringToNumber : string -> JS.jsnum)
    (authHeader : option string) (req : cart_request) : io response :=
  match authenticate authHeader with
  | Respond resp => mret resp
  | Next user => handle StringToNumber (Auth.id user) req
  end.

End Authenticate.

(** The character occurs in the string. *)
Fixpoint has_char (c : ascii) (s : string) : bool :=
  match s with
  | EmptyString => false
  | String c' s' => Ascii.eqb c' c || has_char c s'
  end.

(** The requests that change the cart through its accessors. *)
Definition changes_cart (req : cart_request) : bool :=
  match req with
  | PostAdd _ _ | PutUpdate _ _ | DeleteClear | PostUpdateBulk _ => true
  | GetCart | PostCheckout => false
  end.

(** Further sample data. *)
Module Cases.

Definition A2 : gmap string Z := {[ "A" := 2 ]}.

(** Two more of A, five of B, then A removed. *)
Definition ops : list cart_op := [AddQty "A" 2; SetQty "B" 5; SetQty "A" 0].

Definition items : list bulk_item := [mkItem "A" (JS.JNum 5); mkItem "B" JS.JNull].

(** A verifier that knows the one token of user U. *)
Definition verify_tok (token : string) : option Auth.UserPayload :=
  if String.eqb token "tok" then Some (Auth.mkUserPayload (Some "U") (Some "555")) else None.

End Cases.

(** * Facts *)

(** ** Reading and printing quantities *)

Example parseInt_5 : JS.parseInt "5" = JS.of_Z 5.
Proof. reflexivity. Qed.

Example parseInt_frac : JS.parseInt "1.5" = JS.of_Z 1.
Proof. reflexivity. Qed.

Example parseInt_word : JS.parseInt "true" = JS.NaN.
Proof. reflexivity. Qed.

Example parseInt_neg : JS.parseInt "  -42abc" = JS.of_Z (-42).
Proof. reflexivity. Qed.

Example toString_frac : JS.num_toString (3 # 2) = "1.5".
Proof. reflexivity. Qed.

Example toString_int : JS.num_toString (12 # 4) = "3".
Proof. reflexivity. Qed.

Example toString_price : JS.num_toString (1197 # 100) = "11.97".
Proof. reflexivity. Qed.
Lemma scan_digits_string_of_uint (d : uint) :
  JS.scan_digits (NilEmpty.string_of_uint d) = d.
Proof. induction d; simpl; congruence. Qed.

Lemma string_of_uint_to_uint (p : positive) :
  NilZero.string_of_uint (Pos.to_uint p) = NilEmpty.string_of_uint (Pos.to_uint p).
Proof.
  pose proof (DecimalPos.Unsigned.to_uint_nonnil p) as H.
  destruct (Pos.to_uint p); [contradiction | reflexivity ..].
Qed.

Lemma parse_unsigned_pos (p : positive) :
  JS.parse_unsigned (NilEmpty.string_of_uint (Pos.to_uint p)) = Some (Zpos p).
Proof.
  unfold JS.parse_unsigned. rewrite scan_digits_string_of_uint.
  pose proof (DecimalPos.Unsigned.to_uint_nonnil p) as H.
  assert (Z.of_uint (Pos.to_uint p) = Zpos p) as Hz.
  { unfold Z.of_uint. rewrite DecimalPos.Unsigned.of_to. reflexivity. }
  destruct (Pos.to_uint p); [contradiction | rewrite <- Hz; reflexivity ..].
Qed.

Lemma parseInt_digits (d : uint) :
  d ≠ Nil ->
  JS.parseInt (NilEmpty.string_of_uint d)
  = match JS.parse_unsigned (NilEmpty.string_of_uint d) with
    | Some z => JS.of_Z z
    | None => JS.NaN
    end.
Proof. intros H. destruct d; [contradiction | reflexivity ..]. Qed.

Lemma string2ll_digits (d : uint) :
  d ≠ Nil ->
  Redis.string2ll (NilEmpty.string_of_uint d)
  = match JS.parse_unsigned (NilEmpty.string_of_uint d) with
    | Some z =>
        if (String.eqb (JS.string_of_Z z) (NilEmpty.string_of_uint d) && Redis.int64_ok z)%bool
        then Some z else None
    | None => None
    end.
Proof. intros H. destruct d; [contradiction | reflexivity ..]. Qed.

Lemma parseInt_string_of_Z (z : Z) : JS.parseInt (JS.string_of_Z z) = JS.of_Z z.
Proof.
  destruct z as [|p|p]; [reflexivity | |].
  - unfold JS.string_of_Z. simpl Z.to_int. cbn [NilZero.string_of_int].
    rewrite string_of_uint_to_uint, parseInt_digits by apply DecimalPos.Unsigned.to_uint_nonnil.
    by rewrite parse_unsigned_pos.
  - unfold JS.string_of_Z. simpl Z.to_int. cbn [NilZero.string_of_int].
    rewrite string_of_uint_to_uint.
    change (JS.parseInt (String "-" ?s)) with
      (match JS.parse_unsigned s with Some z => JS.of_Z (- z) | None => JS.NaN end).
    by rewrite parse_unsigned_pos.
Qed.

Lemma string2ll_string_of_Z (z : Z) :
  Redis.int64_ok z = true -> Redis.string2ll (JS.string_of_Z z) = Some z.
Proof.
  intros Hz. destruct z as [|p|p]; [reflexivity | |].
  - unfold JS.string_of_Z at 1. simpl Z.to_int. cbn [NilZero.string_of_int].
    rewrite string_of_uint_to_uint, string2ll_digits by apply DecimalPos.Unsigned.to_uint_nonnil.
    rewrite parse_unsigned_pos, Hz, andb_true_r.
    unfold JS.string_of_Z. simpl Z.to_int. cbn [NilZero.string_of_int].
    by rewrite string_of_uint_to_uint, String.eqb_refl.
  - unfold JS.string_of_Z at 1. simpl Z.to_int. cbn [NilZero.string_of_int].
    rewrite string_of_uint_to_uint.
    unfold Redis.string2ll.
    change (match String "-" ?s with String "-" r => ?f r | _ => _ end) with (f s).
    rewrite parse_unsigned_pos.
    change (Z.opp <$> Some (Z.pos p)) with (Some (Z.neg p)).
    cbv beta iota. rewrite Hz, andb_true_r.
    unfold JS.string_of_Z. simpl Z.to_int. cbn [NilZero.string_of_int].
    by rewrite string_of_uint_to_uint, String.eqb_refl.
Qed.

Lemma string2ll_canonical (s : string) (z : Z) :
  Redis.string2ll s = Some z -> s = JS.string_of_Z z ∧ Redis.int64_ok z = true.
Proof.
  unfold Redis.string2ll.
  match goal with |- match ?c with _ => _ end = _ -> _ => destruct c as [z'|] end; [|done].
  destruct (String.eqb (JS.string_of_Z z') s) eqn:He; [|done].
  destruct (Redis.int64_ok z') eqn:Hr; [|done].
  simpl. intros [= <-]. apply String.eqb_eq in He. done.
Qed.

(** ** Running the monad *)

Lemma falsy_Some (s : string) : s ≠ "" -> falsy (Some s) = false.
Proof. intros H. unfold falsy. by apply String.eqb_neq. Qed.

(** Unfold the handler monad down to the store operations. *)
Ltac run_io :=
  cbv beta iota zeta delta
    [mbind mret io_bind io_ret try_catch finally throw call attempt
     redis_read redis_write redis_hGetAll redis_sMembers redis_hSet redis_hDel
     redis_expire redis_del redis_sAdd redis_sRem redis_hIncrBy redis_exec
     pool_query pool_connect client_begin client_commit client_rollback
     client_release client_query console_error handleRedisError set_pg calm
     redis pg faults console Pg.committed Pg.session Pg.now].

(** Case analysis on the fate of the next store call. *)
Ltac next_call :=
  match goal with
  | |- context [match ?plan with [] => _ | _ :: _ => _ end] =>
      is_var plan; destruct plan as [|[] plan]
  end.

Lemma num_toString_inject_Z (z : Z) : JS.num_toString (inject_Z z) = JS.string_of_Z z.
Proof.
  unfold JS.num_toString, inject_Z; cbn [Qnum Qden].
  by rewrite Z.mod_1_r, Z.div_1_r.
Qed.

Lemma Qle_bool_inject_Z (z : Z) : Qle_bool (inject_Z z) 0 = Z.leb z 0.
Proof. unfold Qle_bool, inject_Z; cbn [Qnum Qden]. by rewrite Z.mul_1_r. Qed.

(** ** Redis state lemmas *)

Lemma hGetAll_hSet (k f v : string) (r : Redis.state) :
  Redis.hGetAll k (Redis.hSet k f v r) = <[f := v]> (Redis.hGetAll k r).
Proof. unfold Redis.hGetAll, Redis.hSet; cbn. by rewrite lookup_insert_eq. Qed.

Lemma hGetAll_expire (k k' : string) (n : Z) (r : Redis.state) :
  Redis.hGetAll k (Redis.expire k' n r) = Redis.hGetAll k r.
Proof. unfold Redis.hGetAll, Redis.expire. by destruct (Redis.hashes r !! k'). Qed.

Lemma hashes_expire (k : string) (n : Z) (r : Redis.state) :
  Redis.hashes (Redis.expire k n r) = Redis.hashes r.
Proof. unfold Redis.expire. by destruct (Redis.hashes r !! k). Qed.

Lemma sets_expire (k : string) (n : Z) (r : Redis.state) :
  Redis.sets (Redis.expire k n r) = Redis.sets r.
Proof. unfold Redis.expire. by destruct (Redis.hashes r !! k). Qed.

Lemma ttl_expire_present (k : string) (n : Z) (r : Redis.state) :
  is_Some (Redis.hashes r !! k) -> Redis.ttl (Redis.expire k n r) !! k = Some n.
Proof. intros [h Hh]. unfold Redis.expire. rewrite Hh. cbn. by rewrite lookup_insert_eq. Qed.

Lemma elem_of_dirty_sAdd (u : string) (r : Redis.state) :
  u ∈ dirty (Redis.sAdd "dirtyCarts" u r).
Proof.
  unfold dirty, Redis.sMembers, Redis.sAdd; cbn.
  rewrite lookup_insert_eq. cbn. set_solver.
Qed.

Lemma hGetAll_sAdd (k s m : string) (r : Redis.state) :
  Redis.hGetAll k (Redis.sAdd s m r) = Redis.hGetAll k r.
Proof. reflexivity. Qed.

Lemma ttl_sAdd (s m : string) (r : Redis.state) :
  Redis.ttl (Redis.sAdd s m r) = Redis.ttl r.
Proof. reflexivity. Qed.

Lemma hashes_sAdd (s m : string) (r : Redis.state) :
  Redis.hashes (Redis.sAdd s m r) = Redis.hashes r.
Proof. reflexivity. Qed.

(** ** Step lemmas for runs without store failure *)

Lemma bind_run {A B : Type} (m : io A) (k : A -> io B) (w w' : world) (a : A) :
  m w = (Ok a, w') -> (m ≫= k) w = k a w'.
Proof. intros H. unfold mbind, io_bind. by rewrite H. Qed.

Lemma bind_throw {A B : Type} (m : io A) (k : A -> io B) (w w' : world) (e : exn) :
  m w = (Throw e, w') -> (m ≫= k) w = (Throw e, w').
Proof. intros H. unfold mbind, io_bind. by rewrite H. Qed.

Lemma try_catch_ok {A : Type} (m : io A) (h : exn -> io A) (w w' : world) (a : A) :
  m w = (Ok a, w') -> try_catch m h w = (Ok a, w').
Proof. intros H. unfold try_catch. by rewrite H. Qed.

Lemma try_catch_throw {A : Type} (m : io A) (h : exn -> io A) (w w' : world) (e : exn) :
  m w = (Throw e, w') -> try_catch m h w = h e w'.
Proof. intros H. unfold try_catch. by rewrite H. Qed.

Lemma finally_run {A : Type} (m : io A) (f : io unit) (w w' w'' : world) (res : outcome A) :
  m w = (res, w') -> f w' = (Ok tt, w'') -> finally m f w = (res, w'').
Proof. intros H1 H2. unfold finally. by rewrite H1, H2. Qed.

Section Calm.

Variables (r : Redis.state) (t : Pg.tables) (clock : Z) (out : list (string * exn)).

Lemma redis_read_calm {A : Type} (f : Redis.state -> A) (p : Pg.state) :
  redis_read f (mkWorld r p [] out) = (Ok (f r), mkWorld r p [] out).
Proof. reflexivity. Qed.

Lemma redis_write_calm (f : Redis.state -> Redis.state) (p : Pg.state) :
  redis_write f (mkWorld r p [] out) = (Ok tt, mkWorld (f r) p [] out).
Proof. reflexivity. Qed.

Lemma pool_connect_calm (p : Pg.state) :
  pool_connect (mkWorld r p [] out) = (Ok tt, mkWorld r p [] out).
Proof. reflexivity. Qed.

Lemma client_begin_calm (s : option Pg.tables) :
  client_begin (mkWorld r (Pg.mkState t s clock) [] out)
  = (Ok tt, mkWorld r (Pg.mkState t (Some t) clock) [] out).
Proof. reflexivity. Qed.

Lemma client_commit_calm (ts : Pg.tables) :
  client_commit (mkWorld r (Pg.mkState t (Some ts) clock) [] out)
  = (Ok tt, mkWorld r (Pg.mkState ts None clock) [] out).
Proof. reflexivity. Qed.

Lemma client_rollback_calm (s : option Pg.tables) :
  client_rollback (mkWorld r (Pg.mkState t s clock) [] out)
  = (Ok tt, mkWorld r (Pg.mkState t None clock) [] out).
Proof. reflexivity. Qed.

Lemma client_release_run (s : option Pg.tables) (plan : list bool) :
  client_release (mkWorld r (Pg.mkState t s clock) plan out)
  = (Ok tt, mkWorld r (Pg.mkState t None clock) plan out).
Proof. reflexivity. Qed.

Lemma client_query_calm {A : Type} (stmt : Z -> Pg.tables -> option (A * Pg.tables))
    (ts ts' : Pg.tables) (a : A) :
  stmt clock ts = Some (a, ts') ->
  client_query stmt (mkWorld r (Pg.mkState t (Some ts) clock) [] out)
  = (Ok a, mkWorld r (Pg.mkState t (Some ts') clock) [] out).
Proof.
  intros H. unfold client_query, call, attempt, mbind, io_bind.
  cbn [faults pg redis console Pg.session Pg.now Pg.committed set_pg]. by rewrite H.
Qed.

Lemma pool_query_calm {A : Type} (stmt : Z -> Pg.tables -> option (A * Pg.tables))
    (s : option Pg.tables) (t' : Pg.tables) (a : A) :
  stmt clock t = Some (a, t') ->
  pool_query stmt (mkWorld r (Pg.mkState t s clock) [] out)
  = (Ok a, mkWorld r (Pg.mkState t' s clock) [] out).
Proof.
  intros H. unfold pool_query, call, attempt, mbind, io_bind.
  cbn [faults pg redis console Pg.session Pg.now Pg.committed set_pg]. by rewrite H.
Qed.

End Calm.

(** Run the next call of a sequence with the given fact. *)
Ltac step_with lem := erewrite bind_run; [cbv beta zeta | apply lem].

(** ** AddItem *)

Lemma post_add_increments (u p : string) (n old : Z)
    (r : Redis.state) (pgs : Pg.state) (out : list (string * exn)) :
  u ≠ "" -> p ≠ "" -> 0 < n ->
  Redis.int64_ok n = true ->
  Redis.stored_integer (cart_key (Some u)) p r = Some old ->
  Redis.int64_ok (old + n) = true ->
  exists r',
    post_add (Some u) (Some p) (JS.JNum (inject_Z n)) (calm r pgs out)
    = (Ok (mkResponse 200 (Message "Item added to cart")), calm r' pgs out)
    ∧ cache_cart u r' = <[p := JS.string_of_Z (old + n)]> (cache_cart u r)
    ∧ Redis.ttl r' !! cart_key (Some u) = Some CART_TTL
    ∧ u ∈ dirty r'.
Proof.
  intros Hu Hp Hn Hn64 Hold Hsum.
  eexists. split.
  - unfold post_add. rewrite (falsy_Some u Hu), (falsy_Some p Hp).
    rewrite Qle_bool_inject_Z. destruct (Z.leb_spec n 0) as [?|_]; [lia|].
    cbn [orb]. run_io.
    unfold Redis.hIncrBy. rewrite num_toString_inject_Z, string2ll_string_of_Z by done.
    rewrite Hold, Hsum. reflexivity.
  - split; [|split].
    + unfold cache_cart. by rewrite hGetAll_sAdd, hGetAll_expire, hGetAll_hSet.
    + rewrite ttl_sAdd. apply ttl_expire_present.
      unfold Redis.hSet; cbn. rewrite lookup_insert_eq. by eexists.
    + apply elem_of_dirty_sAdd.
Qed.

Lemma scan_digits_until_point (d : uint) (rest : string) :
  JS.scan_digits (NilEmpty.string_of_uint d ++ String "." rest) = d.
Proof. induction d; simpl; congruence. Qed.

Lemma string2ll_digits_prefix (d : uint) (rest : string) :
  d ≠ Nil ->
  Redis.string2ll (NilEmpty.string_of_uint d ++ rest)
  = match JS.parse_unsigned (NilEmpty.string_of_uint d ++ rest) with
    | Some z =>
        if (String.eqb (JS.string_of_Z z) (NilEmpty.string_of_uint d ++ rest)
            && Redis.int64_ok z)%bool
        then Some z else None
    | None => None
    end.
Proof. intros H. destruct d; [contradiction | reflexivity ..]. Qed.

Lemma append_point_neq (s rest : string) : s ≠ (s ++ String "." rest)%string.
Proof. induction s as [|a s IH]; cbn; [done|]. intros [= H]. by apply IH. Qed.

Lemma parse_unsigned_until_point (d : uint) (rest : string) :
  d ≠ Nil ->
  JS.parse_unsigned (NilEmpty.string_of_uint d ++ String "." rest) = Some (Z.of_uint d).
Proof.
  intros Hd. unfold JS.parse_unsigned. rewrite scan_digits_until_point.
  destruct d; [contradiction | reflexivity ..].
Qed.

Lemma string2ll_point (z : Z) (rest : string) :
  0 <= z -> Redis.string2ll (JS.string_of_Z z ++ String "." rest) = None.
Proof.
  intros Hz. destruct z as [|p|p]; [reflexivity | | lia].
  assert (JS.string_of_Z (Zpos p) = NilEmpty.string_of_uint (Pos.to_uint p)) as Hs.
  { unfold JS.string_of_Z. simpl Z.to_int. cbn [NilZero.string_of_int].
    apply string_of_uint_to_uint. }
  rewrite Hs.
  rewrite string2ll_digits_prefix, parse_unsigned_until_point
    by apply DecimalPos.Unsigned.to_uint_nonnil.
  unfold Z.of_uint. rewrite DecimalPos.Unsigned.of_to. cbn [Z.of_N]. rewrite Hs.
  destruct (String.eqb_spec (NilEmpty.string_of_uint (Pos.to_uint p))
              (NilEmpty.string_of_uint (Pos.to_uint p) ++ String "." rest)) as [He|_];
    [by apply append_point_neq in He | reflexivity].
Qed.

Lemma num_toString_fraction (q : Q) :
  0 < Qnum q -> Qnum q mod Zpos (Qden q) ≠ 0 ->
  exists rest,
    JS.num_toString q = (JS.string_of_Z (Qnum q / Zpos (Qden q)) ++ String "." rest)%string.
Proof.
  intros Hn Hm. unfold JS.num_toString.
  destruct (Z.eqb_spec (Qnum q mod Z.pos (Qden q)) 0) as [?|_]; [done|].
  destruct (Z.ltb_spec (Qnum q) 0) as [?|_]; [lia|].
  rewrite Z.abs_eq by lia. eexists. reflexivity.
Qed.

Lemma post_add_fraction_refused (u p : string) (q : Q)
    (r : Redis.state) (pgs : Pg.state) (out : list (string * exn)) :
  u ≠ "" -> p ≠ "" ->
  0 < Qnum q -> Qnum q mod Zpos (Qden q) ≠ 0 ->
  post_add (Some u) (Some p) (JS.JNum q) (calm r pgs out)
  = (Ok (mkResponse 500 (Error "Failed to add to cart")),
     calm r pgs
       (out ++ [("Redis error", ReplyError "ERR value is not an integer or out of range")])%list).
Proof.
  intros Hu Hp Hn Hm.
  assert (Qle_bool q 0 = false) as Hq.
  { unfold Qle_bool. cbn. apply Z.leb_gt. lia. }
  destruct (num_toString_fraction q Hn Hm) as [rest Hs].
  unfold post_add. rewrite (falsy_Some u Hu), (falsy_Some p Hp), Hq. cbn [orb].
  run_io. unfold Redis.hIncrBy. rewrite Hs, string2ll_point; [reflexivity|].
  apply Z.div_pos; lia.
Qed.

Lemma post_add_rejects (u : string) (productId : option string) (quantity : JS.jsval)
    (w : world) :
  u ≠ "" ->
  falsy productId = true
  ∨ JS.is_number quantity = false
  ∨ (exists q, quantity = JS.JNum q ∧ Qle_bool q 0 = true) ->
  post_add (Some u) productId quantity w
  = (Ok (mkResponse 400 (Error "Valid productId and quantity required")), w).
Proof.
  intros Hu H. unfold post_add. rewrite (falsy_Some u Hu).
  destruct productId as [pid|]; [|done].
  destruct quantity as [| | |q|]; try done.
  destruct H as [-> | [? | (q' & [= <-] & ->)]]; [done | done |].
  by rewrite orb_true_r.
Qed.

(** ** UpdateItem with quantity zero *)

Lemma sAdd_sAdd (s m : string) (r : Redis.state) :
  Redis.sAdd s m (Redis.sAdd s m r) = Redis.sAdd s m r.
Proof.
  unfold Redis.sAdd, Redis.sMembers; cbn.
  rewrite lookup_insert_eq, insert_insert_eq. cbn.
  do 2 f_equal. by rewrite (assoc_L (∪)), union_idemp_L.
Qed.

Lemma hGetAll_hDel (k f : string) (r : Redis.state) :
  Redis.hGetAll k (Redis.hDel k f r) = delete f (Redis.hGetAll k r).
Proof.
  unfold Redis.hGetAll, Redis.hDel.
  destruct (Redis.hashes r !! k) as [h|] eqn:Hk; cbn.
  - destruct (decide (delete f h = ∅)) as [He|He]; cbn.
    + by rewrite lookup_delete_eq, He.
    + by rewrite lookup_insert_eq.
  - by rewrite Hk, delete_empty.
Qed.

Lemma hDel_sAdd (k p s u : string) (r : Redis.state) :
  Redis.hDel k p (Redis.sAdd s u r) = Redis.sAdd s u (Redis.hDel k p r).
Proof.
  unfold Redis.hDel, Redis.sAdd; cbn.
  destruct (Redis.hashes r !! k); [|done]. by case_decide.
Qed.

Lemma expire_sAdd (k s u : string) (n : Z) (r : Redis.state) :
  Redis.expire k n (Redis.sAdd s u r) = Redis.sAdd s u (Redis.expire k n r).
Proof. unfold Redis.expire, Redis.sAdd; cbn. by destruct (Redis.hashes r !! k). Qed.

Lemma hDel_hDel (k p : string) (r : Redis.state) :
  Redis.hDel k p (Redis.hDel k p r) = Redis.hDel k p r.
Proof.
  unfold Redis.hDel at 2 3.
  destruct (Redis.hashes r !! k) as [h|] eqn:Hk.
  - destruct (decide (delete p h = ∅)) as [He|He].
    + unfold Redis.hDel; cbn. by rewrite lookup_delete_eq.
    + unfold Redis.hDel; cbn. rewrite lookup_insert_eq, delete_delete_eq.
      destruct (decide (delete p h = ∅)); [done|]. cbn.
      by rewrite insert_insert_eq.
  - unfold Redis.hDel. by rewrite Hk.
Qed.

Lemma hDel_expire (k p : string) (n : Z) (r : Redis.state) :
  Redis.hDel k p (Redis.expire k n r) = Redis.expire k n (Redis.hDel k p r).
Proof.
  unfold Redis.expire at 1. unfold Redis.hDel at 2.
  destruct (Redis.hashes r !! k) as [h|] eqn:Hk.
  - unfold Redis.hDel; cbn. rewrite Hk.
    destruct (decide (delete p h = ∅)) as [He|He].
    + unfold Redis.expire; cbn. by rewrite lookup_delete_eq, delete_insert_eq.
    + unfold Redis.expire; cbn. by rewrite lookup_insert_eq.
  - unfold Redis.hDel, Redis.expire. by rewrite !Hk.
Qed.

Lemma expire_expire (k : string) (n : Z) (r : Redis.state) :
  Redis.expire k n (Redis.expire k n r) = Redis.expire k n r.
Proof.
  unfold Redis.expire at 2 3.
  destruct (Redis.hashes r !! k) as [h|] eqn:Hk.
  - unfold Redis.expire; cbn. by rewrite Hk, insert_insert_eq.
  - unfold Redis.expire. by rewrite Hk.
Qed.

Lemma zero_update_twice (k p s u : string) (n : Z) (r : Redis.state) :
  let once := Redis.sAdd s u (Redis.expire k n (Redis.hDel k p r)) in
  Redis.sAdd s u (Redis.expire k n (Redis.hDel k p once)) = once.
Proof.
  cbv zeta.
  by rewrite hDel_sAdd, expire_sAdd, sAdd_sAdd, hDel_expire, hDel_hDel, expire_expire.
Qed.

(** ** Store failures during a mutating call *)

Lemma fails_within_cons_false (n : nat) (plan : list bool) :
  fails_within (S n) (false :: plan) -> fails_within n plan.
Proof. unfold fails_within. cbn. rewrite elem_of_cons. by intros [?|?]. Qed.

Lemma fails_within_nil (n : nat) : ¬ fails_within n [].
Proof. unfold fails_within. rewrite take_nil. apply not_elem_of_nil. Qed.

Lemma fails_within_0 (plan : list bool) : ¬ fails_within 0 plan.
Proof. unfold fails_within. cbn. apply not_elem_of_nil. Qed.

Ltac no_failure :=
  repeat match goal with
    | H : fails_within _ [] |- _ => destruct (fails_within_nil _ H)
    | H : fails_within 0 _ |- _ => destruct (fails_within_0 _ H)
    | H : fails_within (S _) (false :: _) |- _ => apply fails_within_cons_false in H
    end.

Lemma mutation_failure_reported (StringToNumber : string -> JS.jsnum)
    (u : string) (m : mutation) (plan : list bool)
    (r : Redis.state) (pgs : Pg.state) (out : list (string * exn)) :
  u ≠ "" -> well_formed m -> fails_within 3 plan ->
  exists msg,
    (perform StringToNumber u m (mkWorld r pgs plan out)).1
    = Ok (mkResponse 500 (Error msg)).
Proof.
  intros Hu Hm Hf.
  destruct m as [p q|p [q|]|items|]; cbn [perform well_formed] in *.
  - destruct Hm as [Hp Hq]. unfold post_add.
    rewrite (falsy_Some u Hu), (falsy_Some p Hp), Hq. cbn [orb]. run_io.
    destruct plan as [|[] plan]; no_failure; [by eexists|].
    destruct (Redis.hIncrBy _ _ _ _); [by eexists|].
    destruct plan as [|[] plan]; no_failure; [by eexists|].
    destruct plan as [|[] plan]; no_failure; by eexists.
  - unfold put_update. rewrite (falsy_Some u Hu), (falsy_Some p Hm).
    cbn [JS.is_nullish JS.is_number negb andb]. run_io.
    destruct (Qle_bool q 0); run_io;
      (destruct plan as [|[] plan]; no_failure; [by eexists|]);
      (destruct plan as [|[] plan]; no_failure; [by eexists|]);
      (destruct plan as [|[] plan]; no_failure; by eexists).
  - unfold put_update. rewrite (falsy_Some u Hu), (falsy_Some p Hm).
    cbn [JS.is_nullish JS.is_number negb andb]. run_io.
    (destruct plan as [|[] plan]; no_failure; [by eexists|]);
      (destruct plan as [|[] plan]; no_failure; [by eexists|]);
      (destruct plan as [|[] plan]; no_failure; by eexists).
  - unfold post_update_bulk. rewrite (falsy_Some u Hu). run_io.
    destruct (mapM _ items); [|by eexists].
    (destruct plan as [|[] plan]; no_failure; [by eexists|]);
      (destruct plan as [|[] plan]; no_failure; [by eexists|]);
      (destruct plan as [|[] plan]; no_failure; by eexists).
  - unfold delete_clear. rewrite (falsy_Some u Hu). run_io.
    (destruct plan as [|[] plan]; no_failure; [by eexists|]);
      (destruct plan as [|[] plan]; no_failure; [by eexists|]);
      (destruct plan as [|[] plan]; no_failure; by eexists).
Qed.

Lemma mutation_first_call_fails (StringToNumber : string -> JS.jsnum)
    (u : string) (m : mutation) (plan : list bool)
    (r : Redis.state) (pgs : Pg.state) (out : list (string * exn)) :
  u ≠ "" -> well_formed m ->
  redis (perform StringToNumber u m (mkWorld r pgs (true :: plan) out)).2 = r.
Proof.
  intros Hu Hm.
  destruct m as [p q|p [q|]|items|]; cbn [perform well_formed] in *.
  - destruct Hm as [Hp Hq]. unfold post_add.
    by rewrite (falsy_Some u Hu), (falsy_Some p Hp), Hq.
  - unfold put_update. rewrite (falsy_Some u Hu), (falsy_Some p Hm).
    cbn [JS.is_nullish JS.is_number negb andb]. run_io. by destruct (Qle_bool q 0).
  - unfold put_update. by rewrite (falsy_Some u Hu), (falsy_Some p Hm).
  - unfold post_update_bulk. rewrite (falsy_Some u Hu). run_io.
    by destruct (mapM _ items).
  - unfold delete_clear. by rewrite (falsy_Some u Hu).
Qed.

(** ** BulkUpdate *)

Section BulkFacts.

Variable StringToNumber : string -> JS.jsnum.

Lemma bulk_command_is_Some (k : string) (item : bulk_item) :
  is_Some (bulk_command StringToNumber k item).
Proof.
  unfold bulk_command.
  destruct (JS.gt0 (ToNumber StringToNumber (quantity item))) eqn:Hgt; [|by eexists].
  destruct (quantity item) as [| |[]|q|s]; cbn in *; try done; by eexists.
Qed.

Lemma bulk_command_field (k : string) (item : bulk_item) (c : Redis.command) :
  bulk_command StringToNumber k item = Some c ->
  (exists v, c = Redis.HSET k (productId item) v) ∨ c = Redis.HDEL k (productId item).
Proof.
  unfold bulk_command. destruct (JS.gt0 _).
  - destruct (JS.toString _) as [v|]; [|done]. intros [= <-]. left. by eexists.
  - intros [= <-]. by right.
Qed.

Lemma bulk_command_not_positive (k : string) (item : bulk_item) :
  JS.gt0 (ToNumber StringToNumber (quantity item)) = false ->
  bulk_command StringToNumber k item = Some (Redis.HDEL k (productId item)).
Proof. unfold bulk_command. by intros ->. Qed.

Lemma run_commands_other_fields (k f : string) (items : list bulk_item)
    (cs : list Redis.command) (r : Redis.state) :
  Forall2 (fun it c => bulk_command StringToNumber k it = Some c) items cs ->
  Forall (fun it => productId it ≠ f) items ->
  Redis.hGetAll k (Redis.run_commands cs r) !! f = Redis.hGetAll k r !! f.
Proof.
  intros H. revert r. induction H as [|it c items cs Hc _ IH]; intros r Hne; [done|].
  apply Forall_cons in Hne as [Hit Hne].
  unfold Redis.run_commands in *. cbn [foldl]. rewrite IH by done.
  destruct (bulk_command_field _ _ _ Hc) as [[v ->]| ->]; cbn [Redis.run_command].
  - by rewrite hGetAll_hSet, lookup_insert_ne.
  - by rewrite hGetAll_hDel, lookup_delete_ne.
Qed.

Lemma post_update_bulk_run (u : string) (items : list bulk_item)
    (r : Redis.state) (pgs : Pg.state) (out : list (string * exn)) :
  u ≠ "" ->
  exists cs,
    Forall2 (fun it c => bulk_command StringToNumber (cart_key (Some u)) it = Some c) items cs
    ∧ post_update_bulk StringToNumber (Some u) (Some items) (calm r pgs out)
      = (Ok (mkResponse 200 (Message "Cart updated in bulk")),
         calm (Redis.sAdd "dirtyCarts" u
                 (Redis.expire (cart_key (Some u)) CART_TTL
                    (Redis.run_commands cs r))) pgs out).
Proof.
  intros Hu.
  destruct (mapM (bulk_command StringToNumber (cart_key (Some u))) items) as [cs|] eqn:Hcs.
  - exists cs. split; [by apply mapM_Some|].
    unfold post_update_bulk. rewrite (falsy_Some u Hu), Hcs. reflexivity.
  - exfalso. apply eq_None_not_Some in Hcs. apply Hcs, mapM_is_Some.
    apply Forall_forall. intros it _. apply bulk_command_is_Some.
Qed.

Lemma ttl_expire_if_present (k : string) (n : Z) (r : Redis.state) :
  is_Some (Redis.hashes (Redis.expire k n r) !! k) ->
  Redis.ttl (Redis.expire k n r) !! k = Some n.
Proof. rewrite hashes_expire. apply ttl_expire_present. Qed.

End BulkFacts.

(** ** Positive quantities *)

Lemma positive_integer_string_of_Z (z : Z) :
  0 < z -> positive_integer (JS.string_of_Z z) = true.
Proof.
  intros Hz. destruct z as [|p|p]; try lia.
  unfold positive_integer, JS.string_of_Z. simpl Z.to_int. cbn [NilZero.string_of_int].
  rewrite string_of_uint_to_uint, parse_unsigned_pos.
  unfold JS.string_of_Z. simpl Z.to_int. cbn [NilZero.string_of_int].
  by rewrite string_of_uint_to_uint, String.eqb_refl.
Qed.

Lemma positive_integer_inv (v : string) :
  positive_integer v = true -> exists z, 0 < z ∧ v = JS.string_of_Z z.
Proof.
  unfold positive_integer. destruct (JS.parse_unsigned v) as [z|]; [|done].
  intros [He Hz]%andb_true_iff. exists z. split; [lia|].
  symmetry. by apply String.eqb_eq.
Qed.

Lemma string_of_Z_inj (a b : Z) : JS.string_of_Z a = JS.string_of_Z b -> a = b.
Proof.
  intros H. apply (f_equal JS.parseInt) in H.
  rewrite !parseInt_string_of_Z in H. unfold JS.of_Z, inject_Z in H. congruence.
Qed.

Lemma keeps_weaken {A : Type} (m : io A) (Q Q' : A -> Prop) :
  keeps m Q -> (forall a, Q a -> Q' a) -> keeps m Q'.
Proof. intros Hm HQ w Hw. destruct (Hm w Hw). naive_solver. Qed.

Lemma keeps_ret {A : Type} (a : A) (Q : A -> Prop) : Q a -> keeps (mret a) Q.
Proof. intros HQ w Hw. split; [done|]. by intros a' [= <-]. Qed.

Lemma keeps_throw {A : Type} (e : exn) (Q : A -> Prop) : keeps (throw e) Q.
Proof. intros w Hw. by split. Qed.

Lemma keeps_bind {A B : Type} (m : io A) (k : A -> io B) (Q : A -> Prop) (Q' : B -> Prop) :
  keeps m Q -> (forall a, Q a -> keeps (k a) Q') -> keeps (m ≫= k) Q'.
Proof.
  intros Hm Hk w Hw. destruct (Hm w Hw) as [Hw' HQ].
  unfold mbind, io_bind. destruct (m w) as [[a|e] w']; cbn in *.
  - apply Hk; [by apply HQ | done].
  - by split.
Qed.

Lemma keeps_try_catch {A : Type} (m : io A) (h : exn -> io A) (Q : A -> Prop) :
  keeps m Q -> (forall e, keeps (h e) Q) -> keeps (try_catch m h) Q.
Proof.
  intros Hm Hh w Hw. destruct (Hm w Hw) as [Hw' HQ].
  unfold try_catch. destruct (m w) as [[a|e] w']; cbn in *.
  - split; [done|]. intros a' [= <-]. by apply HQ.
  - by apply Hh.
Qed.

Lemma keeps_attempt : keeps attempt (fun _ => True).
Proof.
  intros w Hw. unfold attempt. destruct (faults w) as [|[] ?]; by split.
Qed.

Lemma keeps_console_error (label : string) (e : exn) :
  keeps (console_error label e) (fun _ => True).
Proof. intros w Hw. by split. Qed.

Lemma keeps_redis_write (f : Redis.state -> Redis.state) :
  (forall r, cache_quantities_positive r -> cache_quantities_positive (f r)) ->
  keeps (redis_write f) (fun _ => True).
Proof.
  intros Hf w [Hr Hp]. unfold redis_write, call, attempt, mbind, io_bind.
  destruct (faults w) as [|[] ?]; cbn; (split; [split|]); cbn; auto.
Qed.

Lemma keeps_redis_read {A : Type} (f : Redis.state -> A) (Q : A -> Prop) :
  (forall r, cache_quantities_positive r -> Q (f r)) ->
  keeps (redis_read f) Q.
Proof.
  intros Hf w [Hr Hp]. unfold redis_read, call, attempt, mbind, io_bind.
  destruct (faults w) as [|[] ?]; cbn; (split; [by split|]); intros a [= <-]; auto.
Qed.

Lemma keeps_pool_query {A : Type} (stmt : Z -> Pg.tables -> option (A * Pg.tables))
    (Q : A -> Prop) :
  (forall clock t a t', durable_quantities_positive t -> stmt clock t = Some (a, t') ->
     durable_quantities_positive t' ∧ Q a) ->
  keeps (pool_query stmt) Q.
Proof.
  intros Hs w [Hr Hp]. unfold pool_query, call, attempt, mbind, io_bind.
  destruct (faults w) as [|[] ?]; cbn; try (by split);
    (destruct (stmt _ _) as [[a t']|] eqn:Hst; cbn; [|by split]);
    destruct (Hs _ _ _ _ Hp Hst) as [Ht' Ha];
    (split; [by split|]); by intros a' [= <-].
Qed.

Lemma handleRedisError_keeps (e : exn) (msg : string) :
  keeps (handleRedisError e msg) (fun _ => True).
Proof.
  unfold handleRedisError. eapply keeps_bind; [apply keeps_console_error|].
  intros _ _. by apply keeps_ret.
Qed.

(** Each cache write keeps the quantities positive. *)

Lemma hSet_positive (k f v : string) (r : Redis.state) :
  positive_integer v = true ->
  cache_quantities_positive r -> cache_quantities_positive (Redis.hSet k f v r).
Proof.
  intros Hv Hr. unfold cache_quantities_positive, Redis.hSet; cbn.
  apply map_Forall_insert_2; [|done].
  apply map_Forall_insert_2; [done|].
  unfold Redis.hGetAll. destruct (Redis.hashes r !! k) as [h|] eqn:Hk; cbn.
  - by apply (Hr k h).
  - apply map_Forall_empty.
Qed.

Lemma hDel_positive (k f : string) (r : Redis.state) :
  cache_quantities_positive r -> cache_quantities_positive (Redis.hDel k f r).
Proof.
  intros Hr. unfold cache_quantities_positive, Redis.hDel.
  destruct (Redis.hashes r !! k) as [h|] eqn:Hk; [|done].
  case_decide; cbn.
  - by apply map_Forall_delete.
  - apply map_Forall_insert_2; [|done]. apply map_Forall_delete. by apply (Hr k h).
Qed.

Lemma expire_positive (k : string) (n : Z) (r : Redis.state) :
  cache_quantities_positive r -> cache_quantities_positive (Redis.expire k n r).
Proof. unfold cache_quantities_positive. by rewrite hashes_expire. Qed.

Lemma sAdd_positive (s m : string) (r : Redis.state) :
  cache_quantities_positive r -> cache_quantities_positive (Redis.sAdd s m r).
Proof. done. Qed.

Lemma del_positive (k : string) (r : Redis.state) :
  cache_quantities_positive r -> cache_quantities_positive (Redis.del k r).
Proof. intros Hr. unfold cache_quantities_positive, Redis.del; cbn. by apply map_Forall_delete. Qed.

Lemma stored_integer_nonneg (k f : string) (o : Z) (r : Redis.state) :
  cache_quantities_positive r -> Redis.stored_integer k f r = Some o -> 0 <= o.
Proof.
  intros Hr. unfold Redis.stored_integer, Redis.hGetAll.
  destruct (Redis.hashes r !! k) as [h|] eqn:Hk; cbn.
  - destruct (h !! f) as [v|] eqn:Hf; [|intros [= <-]; lia].
    intros [Hv _]%string2ll_canonical.
    destruct (positive_integer_inv v (Hr k h Hk f v Hf)) as (z & Hz & Hvz).
    rewrite Hvz in Hv. apply string_of_Z_inj in Hv. lia.
  - rewrite lookup_empty. intros [= <-]; lia.
Qed.

Lemma hIncrBy_positive (k f : string) (n : Z) (r r' : Redis.state) :
  0 < n ->
  cache_quantities_positive r ->
  Redis.hIncrBy k f (JS.string_of_Z n) r = inr r' ->
  cache_quantities_positive r'.
Proof.
  intros Hn Hr. unfold Redis.hIncrBy.
  destruct (Redis.string2ll (JS.string_of_Z n)) as [n'|] eqn:Hn'; [|done].
  apply string2ll_canonical in Hn' as [Hn' _]. apply string_of_Z_inj in Hn' as <-.
  destruct (Redis.stored_integer k f r) as [o|] eqn:Ho; [|done].
  destruct (Redis.int64_ok (o + n)); [|done].
  intros [= <-]. apply hSet_positive; [|done].
  apply positive_integer_string_of_Z.
  pose proof (stored_integer_nonneg _ _ _ _ Hr Ho). lia.
Qed.

Lemma keeps_redis_hIncrBy (k f : string) (n : Z) :
  0 < n -> keeps (redis_hIncrBy k f (inject_Z n)) (fun _ => True).
Proof.
  intros Hn w [Hr Hp]. unfold redis_hIncrBy, call, attempt, mbind, io_bind.
  rewrite num_toString_inject_Z.
  destruct (faults w) as [|[] ?]; cbn; try (by split);
    (destruct (Redis.hIncrBy _ _ _ _) as [msg|r'] eqn:Hi; cbn; [by split|]);
    (split; [split|done]); cbn; eauto using hIncrBy_positive.
Qed.

Lemma run_command_positive (c : Redis.command) (r : Redis.state) :
  positive_command c ->
  cache_quantities_positive r -> cache_quantities_positive (Redis.run_command c r).
Proof.
  destruct c; cbn; auto using hSet_positive, hDel_positive, expire_positive.
Qed.

Lemma run_commands_positive (cs : list Redis.command) (r : Redis.state) :
  Forall positive_command cs ->
  cache_quantities_positive r -> cache_quantities_positive (Redis.run_commands cs r).
Proof.
  intros H. revert r. induction H as [|c cs Hc _ IH]; intros r Hr; [done|].
  unfold Redis.run_commands in *. cbn [foldl]. apply IH. by apply run_command_positive.
Qed.

Lemma post_add_keeps (userId productId : option string) (quantity : JS.jsval) :
  integral quantity -> keeps (post_add userId productId quantity) (fun _ => True).
Proof.
  intros Hq. unfold post_add.
  destruct (falsy userId); [by apply keeps_ret|].
  destruct productId as [pid|]; [|by apply keeps_ret].
  destruct quantity as [| | |q|]; try by apply keeps_ret.
  destruct Hq as [z [-> _]].
  rewrite Qle_bool_inject_Z.
  destruct (falsy (Some pid)); cbn [orb]; [by apply keeps_ret|].
  destruct (Z.leb_spec z 0); [by apply keeps_ret|].
  apply keeps_try_catch; [|intros; apply handleRedisError_keeps].
  eapply keeps_bind; [by apply keeps_redis_hIncrBy|]. intros _ _.
  eapply keeps_bind; [apply keeps_redis_write, expire_positive|]. intros _ _.
  eapply keeps_bind; [apply keeps_redis_write, sAdd_positive|]. intros _ _.
  by apply keeps_ret.
Qed.

Lemma put_update_keeps (userId productId : option string) (quantity : JS.jsval) :
  integral quantity -> keeps (put_update userId productId quantity) (fun _ => True).
Proof.
  intros Hq. unfold put_update.
  destruct (falsy userId); [by apply keeps_ret|].
  destruct (falsy productId); [by apply keeps_ret|].
  destruct (_ && _)%bool; [by apply keeps_ret|].
  apply keeps_try_catch; [|intros; apply handleRedisError_keeps].
  eapply keeps_bind with (Q := fun _ => True).
  { destruct quantity as [| | |q|]; try apply keeps_redis_write, hDel_positive.
    destruct Hq as [z [-> _]]. rewrite Qle_bool_inject_Z, num_toString_inject_Z.
    destruct (Z.leb_spec z 0); [apply keeps_redis_write, hDel_positive|].
    apply keeps_redis_write. intros r. by apply hSet_positive, positive_integer_string_of_Z. }
  intros _ _.
  eapply keeps_bind; [apply keeps_redis_write, expire_positive|]. intros _ _.
  eapply keeps_bind; [apply keeps_redis_write, sAdd_positive|]. intros _ _.
  by apply keeps_ret.
Qed.

Lemma delete_cart_positive (u : string) (t : Pg.tables) :
  durable_quantities_positive t -> durable_quantities_positive (Pg.delete_cart u t).
Proof.
  intros Ht. unfold Pg.delete_cart. destruct (Pg.carts t !! u); [|done].
  unfold durable_quantities_positive; cbn. by apply map_Forall_delete.
Qed.

Lemma delete_clear_keeps (userId : option string) :
  keeps (delete_clear userId) (fun _ => True).
Proof.
  unfold delete_clear.
  destruct (falsy userId); [by apply keeps_ret|].
  apply keeps_try_catch; [|intros; apply handleRedisError_keeps].
  eapply keeps_bind; [apply keeps_redis_write, del_positive|]. intros _ _.
  eapply keeps_bind with (Q := fun _ => True).
  { apply keeps_pool_query. intros clock t a t' Ht [= <- <-].
    split; [|done]. by apply delete_cart_positive. }
  intros _ _.
  eapply keeps_bind; [apply keeps_redis_write, sAdd_positive|]. intros _ _.
  by apply keeps_ret.
Qed.

Lemma bulk_command_positive (StringToNumber : string -> JS.jsnum)
    (k : string) (item : bulk_item) (c : Redis.command) :
  integral (quantity item) ->
  bulk_command StringToNumber k item = Some c -> positive_command c.
Proof.
  unfold bulk_command. intros Hq.
  destruct (quantity item) as [| |b|q|s]; cbn in *; try done;
    try (by intros [= <-]).
  destruct Hq as [z [-> _]]. rewrite Qle_bool_inject_Z, num_toString_inject_Z.
  destruct (Z.leb_spec z 0); cbn; intros [= <-]; cbn; [done|].
  by apply positive_integer_string_of_Z.
Qed.

Lemma post_update_bulk_keeps (StringToNumber : string -> JS.jsnum)
    (userId : option string) (items : list bulk_item) :
  Forall (fun it => integral (quantity it)) items ->
  keeps (post_update_bulk StringToNumber userId (Some items)) (fun _ => True).
Proof.
  intros Hq. unfold post_update_bulk.
  destruct (falsy userId); [by apply keeps_ret|].
  apply keeps_try_catch; [|intros; apply handleRedisError_keeps].
  eapply keeps_bind with (Q := Forall positive_command).
  { destruct (mapM _ items) as [cs|] eqn:Hcs; [|apply keeps_throw].
    apply keeps_ret. apply mapM_Some in Hcs.
    induction Hcs as [|it c its cs Hc _ IH]; [done|].
    apply Forall_cons in Hq as [Hit Hq].
    constructor; eauto using bulk_command_positive. }
  intros cs Hcs.
  eapply keeps_bind.
  { apply keeps_redis_write. intros r. by apply run_commands_positive. }
  intros _ _.
  eapply keeps_bind; [apply keeps_redis_write, expire_positive|]. intros _ _.
  eapply keeps_bind; [apply keeps_redis_write, sAdd_positive|]. intros _ _.
  by apply keeps_ret.
Qed.

(** ** Fallback-restore *)

Lemma foldl_insert_list_to_map {V : Type} (rows : list (string * V)) (acc : gmap string V) :
  NoDup rows.*1 ->
  foldl (fun acc row => <[row.1 := row.2]> acc) acc rows = list_to_map rows ∪ acc.
Proof.
  revert acc. induction rows as [|[k v] rows IH]; intros acc Hnd; cbn.
  - by rewrite (left_id_L ∅ (∪)).
  - apply NoDup_cons in Hnd as [Hk Hnd]. rewrite IH by done.
    rewrite <- insert_union_l. symmetry. apply insert_union_r.
    by apply not_elem_of_list_to_map_1.
Qed.

Lemma foldl_insert_Forall {V : Type} (P : V -> Prop) (rows : list (string * V))
    (acc : gmap string V) :
  Forall (fun row => P row.2) rows ->
  map_Forall (fun _ v => P v) acc ->
  map_Forall (fun _ v => P v) (foldl (fun acc row => <[row.1 := row.2]> acc) acc rows).
Proof.
  intros H. revert acc. induction H as [|row rows Hrow _ IH]; intros acc Hacc; [done|].
  cbn. apply IH. by apply map_Forall_insert_2.
Qed.

Lemma select_cart_items_rows (u : string) (t : Pg.tables) :
  Pg.select_cart_items (Some u) t = map_to_list (durable_cart u t).
Proof.
  unfold Pg.select_cart_items, durable_cart.
  destruct (Pg.carts t !! u) as [c|]; [|by rewrite map_to_list_empty].
  by rewrite map_to_list_fmap.
Qed.

Lemma foldl_insert_map_to_list {V : Type} (m : gmap string V) :
  foldl (fun acc row => <[row.1 := row.2]> acc) ∅ (map_to_list m) = m.
Proof.
  rewrite foldl_insert_list_to_map by apply NoDup_fst_map_to_list.
  by rewrite (right_id_L ∅ (∪)), list_to_map_to_list.
Qed.

(** Queued HSETs on one key rebuild its hash field by field. *)
Lemma run_commands_hSet_all {V : Type} (k : string) (g : V -> string)
    (l : list (string * V)) (r : Redis.state) :
  l ≠ [] ->
  Redis.run_commands ((fun '(f, v) => Redis.HSET k f (g v)) <$> l) r
  = Redis.mkState
      (<[k := foldl (fun h row => <[row.1 := g row.2]> h) (Redis.hGetAll k r) l]> (Redis.hashes r))
      (Redis.ttl r) (Redis.sets r).
Proof.
  unfold Redis.run_commands. revert r.
  induction l as [|[f v] l IH]; intros r Hl; [done|].
  cbn [fmap list_fmap foldl Redis.run_command].
  destruct l as [|row l].
  - done.
  - rewrite IH by done. rewrite hGetAll_hSet.
    unfold Redis.hSet at 1 2 3; cbn [Redis.hashes Redis.ttl Redis.sets].
    by rewrite insert_insert_eq.
Qed.

Lemma foldl_insert_fmap {V : Type} (g : V -> string) (m : gmap string V) :
  foldl (fun h row => <[row.1 := g row.2]> h) ∅ (map_to_list m) = g <$> m.
Proof.
  rewrite <- (foldl_insert_map_to_list (g <$> m)), map_to_list_fmap.
  generalize (∅ : gmap string string).
  induction (map_to_list m) as [|[f v] l IH]; intros acc; [done|]. cbn. apply IH.
Qed.

Lemma parseCart_string_of_Z (m : gmap string Z) :
  parseCart (JS.string_of_Z <$> m) = JS.of_Z <$> m.
Proof.
  unfold parseCart. rewrite <- map_fmap_compose.
  apply map_fmap_ext. intros f z _. apply parseInt_string_of_Z.
Qed.

Lemma restored_state (k : string) (mirror : gmap string Z) (r : Redis.state) :
  Redis.hashes r !! k = None -> mirror ≠ ∅ ->
  restored k mirror r
  = Redis.mkState (<[k := JS.string_of_Z <$> mirror]> (Redis.hashes r))
                  (<[k := CART_TTL]> (Redis.ttl r)) (Redis.sets r).
Proof.
  intros Hk Hne.
  assert (map_to_list mirror ≠ []) as Hrows.
  { intros He. by apply map_to_list_empty_iff in He. }
  unfold restored, Redis.run_commands. rewrite foldl_app. cbn [foldl Redis.run_command].
  fold (Redis.run_commands ((fun '(pId, qty) => Redis.HSET k pId (JS.string_of_Z qty)) <$> map_to_list mirror) r).
  rewrite run_commands_hSet_all by done.
  unfold Redis.hGetAll. rewrite Hk. cbn [default]. rewrite foldl_insert_fmap.
  unfold Redis.expire; cbn [Redis.hashes Redis.ttl Redis.sets].
  by rewrite lookup_insert_eq.
Qed.

Lemma get_cart_restores (u : string)
    (r : Redis.state) (pgs : Pg.state) (out : list (string * exn)) :
  Redis.hashes r !! cart_key (Some u) = None ->
  durable_cart u (Pg.committed pgs) ≠ ∅ ->
  get_cart (Some u) (calm r pgs out)
  = (Ok (mkResponse 200 (CartJson (JS.of_Z <$> durable_cart u (Pg.committed pgs)))),
     calm (restored (cart_key (Some u)) (durable_cart u (Pg.committed pgs)) r) pgs out).
Proof.
  intros Hk Hne.
  assert (Redis.hGetAll (cart_key (Some u)) r = ∅) as Hget.
  { unfold Redis.hGetAll. by rewrite Hk. }
  assert (0 < length (map_to_list (durable_cart u (Pg.committed pgs))))%nat as Hlen.
  { destruct (map_to_list _) eqn:He; [by apply map_to_list_empty_iff in He | cbn; lia]. }
  unfold get_cart. run_io. rewrite Hget.
  destruct (decide (size (∅ : gmap string string) = 0%nat)) as [_|Hs];
    [|by rewrite map_size_empty in Hs].
  rewrite select_cart_items_rows.
  destruct pgs as [t s clock]. cbn [Pg.committed Pg.session Pg.now] in *.
  destruct (decide (0 < length (map_to_list (durable_cart u t)))%nat) as [_|?]; [|done].
  rewrite foldl_insert_map_to_list. reflexivity.
Qed.

Lemma get_cart_nothing_to_restore (u : string)
    (r : Redis.state) (pgs : Pg.state) (out : list (string * exn)) :
  Redis.hashes r !! cart_key (Some u) = None ->
  durable_cart u (Pg.committed pgs) = ∅ ->
  get_cart (Some u) (calm r pgs out)
  = (Ok (mkResponse 200 (CartJson ∅)), calm r pgs out).
Proof.
  intros Hk Hm.
  assert (Redis.hGetAll (cart_key (Some u)) r = ∅) as Hget.
  { unfold Redis.hGetAll. by rewrite Hk. }
  destruct pgs as [t s clock]. cbn [Pg.committed] in Hm.
  unfold get_cart. run_io. rewrite Hget.
  destruct (decide (size (∅ : gmap string string) = 0%nat)) as [_|Hs];
    [|by rewrite map_size_empty in Hs].
  by rewrite select_cart_items_rows, Hm, map_to_list_empty.
Qed.

Lemma select_cart_items_positive (userId : option string) (t : Pg.tables) :
  durable_quantities_positive t ->
  Forall (fun row => 0 < row.2) (Pg.select_cart_items userId t).
Proof.
  intros Ht. unfold Pg.select_cart_items.
  destruct userId as [u|]; [|done].
  destruct (Pg.carts t !! u) as [c|]; [|done].
  apply Forall_fmap, Forall_forall. intros [p row] Hin. cbn.
  apply elem_of_map_to_list in Hin.
  destruct (Pg.cart_items t !! Pg.cart_id c) as [items|] eqn:Hc; cbn in Hin.
  - by apply (Ht _ _ Hc p row).
  - by rewrite lookup_empty in Hin.
Qed.

Lemma get_cart_keeps (userId : option string) :
  keeps (get_cart userId) (fun _ => True).
Proof.
  unfold get_cart.
  apply keeps_try_catch; [|intros; apply handleRedisError_keeps].
  eapply keeps_bind with (Q := fun _ => True); [by apply keeps_redis_read|].
  intros cartRaw _.
  destruct (decide (size cartRaw = 0%nat)); [|by apply keeps_ret].
  eapply keeps_bind with (Q := Forall (fun row => 0 < row.2)).
  { apply keeps_pool_query. intros clock t rows t' Ht [= <- <-].
    split; [done|]. by apply select_cart_items_positive. }
  intros rows Hrows.
  destruct (decide (0 < length rows)%nat); [|by apply keeps_ret].
  eapply keeps_bind; [|intros _ _; by apply keeps_ret].
  apply keeps_redis_write. intros r. apply run_commands_positive.
  apply Forall_app. split; [|by repeat constructor].
  apply Forall_fmap, Forall_forall. intros [p qty] Hin. cbn.
  apply positive_integer_string_of_Z.
  apply elem_of_map_to_list in Hin.
  pose proof (foldl_insert_Forall (fun v => 0 < v) rows ∅ Hrows (map_Forall_empty _)) as Hall.
  by apply (Hall p qty).
Qed.

Lemma perform_keeps (StringToNumber : string -> JS.jsnum) (u : string) (m : mutation) :
  integral_mutation m -> keeps (perform StringToNumber u m) (fun _ => True).
Proof.
  destruct m as [p q|p [q|]|items|]; cbn [perform integral_mutation]; intros Hm.
  - by apply post_add_keeps.
  - by apply put_update_keeps.
  - by apply put_update_keeps.
  - by apply post_update_bulk_keeps.
  - apply delete_clear_keeps.
Qed.

Lemma put_update_removes_run (u p : string) (q : Q)
    (r : Redis.state) (pgs : Pg.state) (out : list (string * exn)) :
  u ≠ "" -> p ≠ "" -> Qle_bool q 0 = true ->
  put_update (Some u) (Some p) (JS.JNum q) (calm r pgs out)
  = (Ok (mkResponse 200 (Message "Cart updated")),
     calm (Redis.sAdd "dirtyCarts" u
             (Redis.expire (cart_key (Some u)) CART_TTL
                (Redis.hDel (cart_key (Some u)) p r))) pgs out).
Proof.
  intros Hu Hp Hq. unfold put_update.
  rewrite (falsy_Some u Hu), (falsy_Some p Hp).
  cbn [JS.is_nullish JS.is_number negb andb]. by rewrite Hq.
Qed.

Lemma removed_field_absent (u p : string) (r : Redis.state) :
  cache_cart u (Redis.sAdd "dirtyCarts" u
                  (Redis.expire (cart_key (Some u)) CART_TTL
                     (Redis.hDel (cart_key (Some u)) p r))) !! p = None.
Proof.
  unfold cache_cart.
  by rewrite hGetAll_sAdd, hGetAll_expire, hGetAll_hDel, lookup_delete_eq.
Qed.

(** ** Checkout *)

Lemma select_prices_all (ids : list string) (t : Pg.tables) :
  Forall (fun p => is_Some (Pg.products t !! p)) ids ->
  length (Pg.select_prices ids t) = length ids.
Proof.
  induction 1 as [|p ids [x Hx] _ IH]; [done|].
  unfold Pg.select_prices in *. cbn. rewrite Hx. cbn. by rewrite IH.
Qed.

Lemma select_prices_length (ids : list string) (t : Pg.tables) :
  (length (Pg.select_prices ids t) <= length ids)%nat.
Proof.
  induction ids as [|p ids IH]; [done|].
  unfold Pg.select_prices in *. cbn. destruct (Pg.products t !! p); cbn; lia.
Qed.

Lemma select_prices_missing (ids : list string) (t : Pg.tables) (p : string) :
  p ∈ ids -> Pg.products t !! p = None ->
  length (Pg.select_prices ids t) ≠ length ids.
Proof.
  intros Hin Hp. induction Hin as [p ids|p p' ids _ IH].
  - pose proof (select_prices_length ids t).
    unfold Pg.select_prices in *. cbn. rewrite Hp. cbn. lia.
  - specialize (IH Hp). pose proof (select_prices_length ids t).
    unfold Pg.select_prices in *. cbn. destruct (Pg.products t !! p'); cbn; lia.
Qed.

(** The price table built from the selected rows agrees with [products]. *)
Lemma prices_agree (ids : list string) (t : Pg.tables) (acc : gmap string Q) :
  acc ⊆ Pg.products t ->
  let prices := foldl (fun acc row => <[row.1 := row.2]> acc) acc (Pg.select_prices ids t) in
  prices ⊆ Pg.products t
  ∧ acc ⊆ prices
  ∧ forall p, p ∈ ids -> prices !! p = Pg.products t !! p.
Proof.
  revert acc. induction ids as [|p ids IH]; intros acc Hacc; cbn zeta.
  - split; [done|]. split; [done|]. intros p Hp. by apply elem_of_nil in Hp.
  - unfold Pg.select_prices. cbn [omap list_omap].
    fold (Pg.select_prices ids t).
    destruct (Pg.products t !! p) as [x|] eqn:Hx; cbn.
    + assert (<[p := x]> acc ⊆ Pg.products t) as Hacc'.
      { by apply insert_subseteq_l. }
      destruct (IH _ Hacc') as (H1 & H2 & H3).
      split; [done|]. split.
      * etrans; [|exact H2]. 
        destruct (acc !! p) as [y|] eqn:Hy.
        -- assert (y = x) as ->.
           { eapply lookup_weaken in Hy; [|exact Hacc]. congruence. }
           by rewrite insert_id.
        -- by apply insert_subseteq.
      * intros p' [->|Hp']%elem_of_cons; [|by apply H3].
        rewrite Hx. eapply lookup_weaken; [|exact H2]. apply lookup_insert_eq.
    + destruct (IH _ Hacc) as (H1 & H2 & H3).
      split; [done|]. split; [done|].
      intros p' [->|Hp']%elem_of_cons; [|by apply H3].
      rewrite Hx. destruct (foldl _ acc _ !! p) as [y|] eqn:Hy; [|done].
      eapply lookup_weaken in Hy; [|exact H1]. congruence.
Qed.

Lemma total_amount_fold (t : Pg.tables) (prices : gmap string Q)
    (l : list (string * Z)) (acc : JS.jsnum) :
  Forall (fun pz => is_Some (Pg.products t !! pz.1)
                    ∧ prices !! pz.1 = Pg.products t !! pz.1) l ->
  foldl (fun acc '(productId, quantity) =>
           JS.add acc (JS.mul (price_of prices productId) quantity))
        acc (prod_map id JS.of_Z <$> l)
  = foldl (fun acc '(p, z) =>
             JS.add acc (JS.mul (JS.round64 (unit_price t p)) (JS.of_Z z)))
          acc l.
Proof.
  intros H. revert acc. induction H as [|[p z] l [[x Hx] Hp] _ IH]; intros acc; [done|].
  cbn [fmap list_fmap foldl prod_map fst snd id] in *.
  unfold price_of at 2, unit_price at 2. rewrite Hp, Hx. cbn [default from_option id].
  apply IH.
Qed.

Lemma round64_Qeq (a b : Q) : (a == b)%Q -> JS.round64 a = JS.round64 b.
Proof. intros H. unfold JS.round64. by rewrite (Qred_complete a b H). Qed.

Lemma exact_fold (price : string -> Q) (l : list (string * Z)) (a acc : Q) :
  sums_exactly price a l ->
  (acc == a)%Q ->
  exists total,
    foldl (fun acc '(p, z) =>
             JS.add acc (JS.mul (JS.round64 (price p)) (JS.of_Z z)))
          (JS.Num acc) l
    = JS.Num total
    ∧ (total == a + cart_total price l)%Q.
Proof.
  revert a acc. induction l as [|[p z] l IH]; intros a acc Hex Hacc.
  - exists acc. split; [done|]. cbn [cart_total foldr]. rewrite Hacc. ring.
  - cbn [sums_exactly] in Hex. destruct Hex as (Hp & Hm & Hs & Hrest).
    cbn [foldl]. unfold JS.binary64 in Hp, Hm, Hs.
    rewrite Hp. cbn [JS.mul JS.of_Z].
    rewrite (round64_Qeq (Qred (price p) * inject_Z z) (price p * inject_Z z))
      by (by rewrite Qred_correct).
    rewrite Hm. cbn [JS.add].
    rewrite (round64_Qeq (acc + Qred (price p * inject_Z z)) (a + price p * inject_Z z))
      by (by rewrite Qred_correct, Hacc).
    rewrite Hs.
    destruct (IH (a + price p * inject_Z z)%Q (Qred (a + price p * inject_Z z)) Hrest
                 (Qred_correct _)) as (total & Ht & Heq).
    exists total. split; [exact Ht|].
    rewrite Heq.
    change (cart_total price ((p, z) :: l))
      with (inject_Z z * price p + cart_total price l)%Q.
    ring.
Qed.

Lemma as_integer_of_Z (z : Z) : JS.as_integer (JS.of_Z z) = Some z.
Proof.
  unfold JS.as_integer, JS.of_Z, inject_Z; cbn [Qnum Qden].
  by rewrite Z.mod_1_r, Z.div_1_r.
Qed.

Lemma integer_value_of_Z (z : Z) :
  Pg.integer_value (JS.of_Z z) = if Pg.int4_ok z then Some z else None.
Proof. unfold Pg.integer_value. by rewrite as_integer_of_Z. Qed.

Lemma cart_fits_entries (C : gmap string Z) :
  cart_fits C -> Forall (fun pz => Pg.int4_ok pz.2 = true) (map_to_list C).
Proof.
  intros H. apply Forall_forall. intros [p z] Hin.
  apply elem_of_map_to_list in Hin. exact (H p z Hin).
Qed.

Lemma insert_order_item_run (orderId : Z) (p : string) (z : Z) (price : option Q)
    (r : Redis.state) (t ts : Pg.tables) (clock : Z) (out : list (string * exn)) :
  Pg.int4_ok z = true ->
  client_query
    (fun _ t => (fun t' => (tt, t')) <$>
       Pg.insert_order_item orderId p (JS.of_Z z) price t)
    (mkWorld r (Pg.mkState t (Some ts) clock) [] out)
  = (Ok tt,
     mkWorld r
       (Pg.mkState t
          (Some (Pg.mkTables (Pg.products ts) (Pg.carts ts) (Pg.cart_items ts) (Pg.orders ts)
                   (Pg.order_items ts ++ [Pg.mkOrderItem orderId p z price])
                   (Pg.next_id ts)))
          clock) [] out).
Proof.
  intros Hz. unfold client_query, call, attempt, mbind, io_bind.
  cbn [faults pg redis console Pg.session Pg.now Pg.committed set_pg].
  unfold Pg.insert_order_item. by rewrite integer_value_of_Z, Hz.
Qed.

Lemma insert_order_items_run (orderId : Z) (prices : gmap string Q)
    (l : list (string * Z)) (r : Redis.state) (t ts : Pg.tables) (clock : Z)
    (out : list (string * exn)) :
  Forall (fun pz => Pg.int4_ok pz.2 = true) l ->
  for_each (prod_map id JS.of_Z <$> l)
    (fun '(productId, quantity) =>
       client_query
         (fun _ t => (fun t' => (tt, t')) <$>
            Pg.insert_order_item orderId productId quantity (prices !! productId) t))
    (mkWorld r (Pg.mkState t (Some ts) clock) [] out)
  = (Ok tt,
     mkWorld r
       (Pg.mkState t
          (Some (Pg.mkTables (Pg.products ts) (Pg.carts ts) (Pg.cart_items ts) (Pg.orders ts)
                   (Pg.order_items ts ++ order_item_rows orderId (fun p => prices !! p) l)
                   (Pg.next_id ts)))
          clock) [] out).
Proof.
  intros Hfit. revert ts. induction Hfit as [|[p z] l Hz _ IH]; intros ts.
  - cbn. rewrite app_nil_r. by destruct ts.
  - cbn [fmap list_fmap for_each prod_map fst snd id].
    unfold mbind at 1, io_bind at 1.
    rewrite insert_order_item_run, IH by exact Hz.
    cbn [Pg.products Pg.carts Pg.cart_items Pg.orders Pg.order_items Pg.next_id].
    unfold order_item_rows. cbn [fmap list_fmap]. by rewrite <- app_assoc.
Qed.

Lemma order_item_rows_ext (orderId : Z) (f g : string -> option Q)
    (l : list (string * Z)) :
  Forall (fun pz => f pz.1 = g pz.1) l ->
  order_item_rows orderId f l = order_item_rows orderId g l.
Proof.
  unfold order_item_rows. induction 1 as [|[p z] l Hp _ IH]; [done|].
  cbn in *. by rewrite Hp, IH.
Qed.

Lemma post_checkout_run (u : string) (C : gmap string Z)
    (r : Redis.state) (pgs : Pg.state) (out : list (string * exn)) :
  u ≠ "" ->
  parseCart (cache_cart u r) = JS.of_Z <$> C ->
  C ≠ ∅ ->
  cart_fits C ->
  (forall p, p ∈ dom C -> is_Some (Pg.products (Pg.committed pgs) !! p)) ->
  post_checkout (Some u) (calm r pgs out)
  = (Ok (mkResponse 200 (CheckoutOk (Pg.next_id (Pg.committed pgs)))),
     calm (Redis.del (cart_key (Some u)) r)
          (Pg.mkState
             (Pg.delete_cart u
                (with_order (Pg.committed pgs) u (Pg.now pgs)
                   (checkout_total (unit_price (Pg.committed pgs)) (map_to_list C))
                   (map_to_list C)))
             None (Pg.now pgs))
          out).
Proof.
  intros Hu Hcart Hne Hfit Hprod. destruct pgs as [t s clock].
  cbn [Pg.committed Pg.now] in *.
  set (ids := (map_to_list C).*1).
  assert (forall p, p ∈ ids -> is_Some (Pg.products t !! p)) as Hids.
  { intros p Hp. apply Hprod. unfold ids in Hp.
    apply list_elem_of_fmap in Hp as ([p' z] & -> & Hin).
    apply elem_of_map_to_list in Hin. by apply elem_of_dom. }
  pose proof (prices_agree ids t ∅ (map_empty_subseteq _)) as (_ & _ & Hprices).
  set (prices := foldl (fun acc row => <[row.1 := row.2]> acc) ∅ (Pg.select_prices ids t)) in *.
  assert (Forall (fun pz : string * Z => is_Some (Pg.products t !! pz.1)
                    ∧ prices !! pz.1 = Pg.products t !! pz.1) (map_to_list C)) as Hall.
  { apply Forall_forall. intros [p z] Hin. cbn.
    assert (p ∈ ids) by (unfold ids; apply list_elem_of_fmap; by exists (p, z)).
    split; [by apply Hids | by apply Hprices]. }
  pose proof (total_amount_fold t prices (map_to_list C) (JS.of_Z 0) Hall) as Htot.
  fold (checkout_total (unit_price t) (map_to_list C)) in Htot.
  assert ((map_to_list (JS.of_Z <$> C)).*1 = ids) as Hids_eq.
  { rewrite map_to_list_fmap. unfold ids. rewrite <- list_fmap_compose.
    apply list_fmap_ext. by intros _ [p z] _. }
  assert (length (Pg.select_prices ids t) = length ids) as Hlen.
  { apply select_prices_all, Forall_forall, Hids. }
  unfold post_checkout, calm. unfold cache_cart in Hcart.
  erewrite try_catch_ok; [reflexivity|].
  unfold redis_hGetAll. step_with redis_read_calm.
  rewrite Hcart.
  destruct (decide (size (JS.of_Z <$> C) = 0%nat)) as [Hsz|_].
  { apply map_size_empty_iff, fmap_empty_iff in Hsz. done. }
  rewrite (falsy_Some u Hu), Hids_eq.
  fold prices. rewrite map_to_list_fmap.
  step_with pool_connect_calm.
  eapply finally_run; [|apply client_release_run].
  erewrite try_catch_ok; [reflexivity|].
  step_with client_begin_calm.
  step_with client_query_calm; [|reflexivity].
  fold prices.
  destruct (decide (length (Pg.select_prices ids t) ≠ length ids)) as [?|_]; [done|].
  erewrite bind_run by reflexivity.
  rewrite Htot.
  step_with client_query_calm; [|reflexivity].
  step_with insert_order_items_run; [|by apply cart_fits_entries].
  step_with client_commit_calm.
  unfold redis_del. step_with redis_write_calm.
  step_with pool_query_calm; [|reflexivity].
  unfold mret, io_ret, with_order, template; cbn [default from_option id Pg.insert_order fst snd
    Pg.products Pg.carts Pg.cart_items Pg.orders Pg.order_items Pg.next_id].
  do 4 f_equal. f_equal. f_equal.
  apply order_item_rows_ext. eapply Forall_impl; [exact Hall|]. by intros [p z] [_ ?].
Qed.

Lemma orders_delete_cart (u : string) (t : Pg.tables) :
  Pg.orders (Pg.delete_cart u t) = Pg.orders t
  ∧ Pg.order_items (Pg.delete_cart u t) = Pg.order_items t.
Proof. unfold Pg.delete_cart. by destruct (Pg.carts t !! u). Qed.

Lemma durable_cart_delete_cart (u : string) (t : Pg.tables) :
  Pg.carts (Pg.delete_cart u t) !! u = None ∧ durable_cart u (Pg.delete_cart u t) = ∅.
Proof.
  unfold durable_cart, Pg.delete_cart.
  destruct (Pg.carts t !! u) as [c|] eqn:Hc; cbn.
  - by rewrite lookup_delete_eq.
  - by rewrite Hc.
Qed.

Lemma post_checkout_product_missing (u p : string) (plan : list bool)
    (r : Redis.state) (pgs : Pg.state) (out : list (string * exn)) :
  u ≠ "" ->
  p ∈ dom (cache_cart u r) ->
  Pg.products (Pg.committed pgs) !! p = None ->
  let res := post_checkout (Some u) (mkWorld r pgs plan out) in
  res.1 = Ok (mkResponse 500 (Error "Checkout failed"))
  ∧ redis res.2 = r
  ∧ Pg.committed (pg res.2) = Pg.committed pgs
  ∧ (plan = [] -> console res.2 = (out ++ [("Checkout failed", ProductsNotFound)])%list).
Proof.
  intros Hu Hp Hmiss. destruct pgs as [t s clock]. cbn [Pg.committed] in *.
  unfold cache_cart in Hp.
  set (cart := parseCart (Redis.hGetAll (cart_key (Some u)) r)).
  assert (p ∈ dom cart) as Hp' by (unfold cart, parseCart; by rewrite dom_fmap_L).
  assert (size cart ≠ 0%nat) as Hsize.
  { intros ->%map_size_empty_iff. by rewrite dom_empty_L in Hp'. }
  assert (length (Pg.select_prices (map_to_list cart).*1 t) ≠ length (map_to_list cart).*1) as Hlen.
  { apply (select_prices_missing _ _ p); [|done].
    apply elem_of_dom in Hp' as [q Hq]. apply list_elem_of_fmap.
    exists (p, q). split; [done|]. by apply elem_of_map_to_list. }
  cbv zeta. unfold post_checkout. rewrite (falsy_Some u Hu). fold cart.
  run_io. fold cart.
  repeat first
    [ rewrite (decide_False _ _ Hsize)
    | rewrite (decide_True _ _ Hlen)
    | next_call; cbv beta iota ];
    cbn [fst snd]; repeat split; done.
Qed.

(** ** The sync job *)

Lemma syncCartToPostgres_empty (u : string) (w : world) :
  syncCartToPostgres u ∅ w = (Ok tt, w).
Proof. reflexivity. Qed.

Lemma sync_dirty_user_empty (u : string)
    (r : Redis.state) (pgs : Pg.state) (out : list (string * exn)) :
  cache_cart u r = ∅ ->
  sync_dirty_user u (calm r pgs out)
  = (Ok tt, calm (Redis.sRem "dirtyCarts" u r) pgs out).
Proof.
  intros He. unfold sync_dirty_user, calm.
  unfold redis_hGetAll. step_with redis_read_calm.
  change (Redis.hGetAll ("cart:" ++ u) r) with (cache_cart u r). rewrite He.
  unfold parseCart. rewrite fmap_empty.
  erewrite bind_run by apply syncCartToPostgres_empty.
  apply redis_write_calm.
Qed.

Lemma sMembers_sRem (s m : string) (r : Redis.state) :
  Redis.sMembers s (Redis.sRem s m r) = Redis.sMembers s r ∖ {[m]}.
Proof.
  unfold Redis.sRem. case_decide as He; unfold Redis.sMembers at 1; cbn.
  - by rewrite lookup_delete_eq, He.
  - by rewrite lookup_insert_eq.
Qed.

Lemma hashes_sRem (s m : string) (r : Redis.state) :
  Redis.hashes (Redis.sRem s m r) = Redis.hashes r.
Proof. unfold Redis.sRem. by case_decide. Qed.

Lemma not_dirty_after_sRem (u : string) (r : Redis.state) :
  u ∉ dirty (Redis.sRem "dirtyCarts" u r).
Proof.
  unfold dirty. rewrite sMembers_sRem.
  apply not_elem_of_difference. right. by apply elem_of_singleton.
Qed.

Lemma cleared_cons (u : string) (l : list string) (r : Redis.state) :
  cleared (u :: l) r = cleared l (Redis.sRem "dirtyCarts" u r).
Proof. reflexivity. Qed.

Lemma hashes_cleared (l : list string) (r : Redis.state) :
  Redis.hashes (cleared l r) = Redis.hashes r.
Proof.
  revert r. induction l as [|u l IH]; intros r; [done|].
  rewrite cleared_cons, IH. apply hashes_sRem.
Qed.

Lemma dirty_cleared (l : list string) (r : Redis.state) :
  dirty (cleared l r) = dirty r ∖ list_to_set l.
Proof.
  revert r. induction l as [|u l IH]; intros r.
  - cbn. by rewrite difference_empty_L.
  - rewrite cleared_cons, IH. unfold dirty. rewrite sMembers_sRem.
    cbn [list_to_set foldr]. by rewrite difference_difference_l_L.
Qed.

Lemma for_each_sync_empty (l : list string)
    (r : Redis.state) (pgs : Pg.state) (out : list (string * exn)) :
  (forall u, u ∈ l -> cache_cart u r = ∅) ->
  for_each l sync_dirty_user (calm r pgs out) = (Ok tt, calm (cleared l r) pgs out).
Proof.
  revert r. induction l as [|u l IH]; intros r Hl; [done|].
  cbn [for_each]. erewrite bind_run.
  2:{ apply sync_dirty_user_empty, Hl. by left. }
  rewrite cleared_cons. apply IH. intros u' Hu'. unfold cache_cart, Redis.hGetAll.
  rewrite hashes_sRem. apply Hl. by right.
Qed.

Lemma startCartSyncJob_empty_carts
    (r : Redis.state) (pgs : Pg.state) (out : list (string * exn)) :
  (forall u, u ∈ dirty r -> cache_cart u r = ∅) ->
  exists r',
    startCartSyncJob (calm r pgs out) = (Ok tt, calm r' pgs out)
    ∧ dirty r' = ∅
    ∧ Redis.hashes r' = Redis.hashes r.
Proof.
  intros Hd. exists (cleared (elements (dirty r)) r). split; [|split].
  - unfold startCartSyncJob. erewrite try_catch_ok; [reflexivity|].
    unfold redis_sMembers, calm. step_with redis_read_calm.
    apply for_each_sync_empty. intros u Hu. apply Hd. by apply elem_of_elements.
  - rewrite dirty_cleared, list_to_set_elements_L. apply difference_diag_L.
  - apply hashes_cleared.
Qed.

(** * The claims *)

(** ** C1: the sync job and the dirty set *)

(** C1 (defect in the code).  The claim: a user leaves the dirty set if and
    only if the flush committed; a failed flush leaves the user dirty.  The
    code: with X and Y dirty and the upsert of X's cart row failing, the
    transaction of X is rolled back (no cart row, no item for X), the
    failure is logged, Y is flushed, and X is removed from the dirty set all
    the same, because [syncCartToPostgres] swallows the error and the loop
    calls SREM unconditionally. *)
Theorem sync_failure_still_clears_dirty :
  let w := mkWorld Sample.dirty_X_Y Sample.no_rows Sample.upsert_of_X_fails [] in
  let res := startCartSyncJob w in
  res.1 = Ok tt
  ∧ console res.2 = [("Failed to sync cart for user X", ConnectionError)]
  ∧ Pg.carts (Pg.committed (pg res.2)) !! "X" = None
  ∧ durable_cart "X" (Pg.committed (pg res.2)) = ∅
  ∧ durable_cart "Y" (Pg.committed (pg res.2)) = {[ "B" := 1 ]}
  ∧ cache_cart "X" (redis res.2) = {[ "A" := "2" ]}
  ∧ dirty (redis w) = {[ "X"; "Y" ]}
  ∧ dirty (redis res.2) = ∅.
Proof. cbv zeta. repeat split; vm_compute; reflexivity. Qed.

(** A failure of [pool.connect()], which sits outside the try block of
    [syncCartToPostgres], ends the whole run: the user after it is not
    visited. *)
Example sync_connect_failure_ends_run :
  let w := mkWorld Sample.dirty_X_Y Sample.no_rows Sample.first_connect_fails [] in
  let res := startCartSyncJob w in
  console res.2 = [("Cart sync job failed", ConnectionError)]
  ∧ dirty (redis res.2) = {[ "X"; "Y" ]}
  ∧ Pg.committed (pg res.2) = Sample.no_tables.
Proof. cbv zeta. repeat split; vm_compute; reflexivity. Qed.

(** ** C2: store failure during a mutating call *)

(** C2, as stated, fails: POST /add whose HINCRBY succeeds and whose EXPIRE
    fails reports the failure while the incremented quantity stays in the
    cache (with no time to live and the user not marked dirty). *)
Lemma post_add_failure_leaves_increment :
  let w := mkWorld Redis.empty Sample.no_rows [false; true] [] in
  let res := post_add (Some "U") (Some "A") (JS.JNum 2) w in
  res.1 = Ok (mkResponse 500 (Error "Failed to add to cart"))
  ∧ cache_cart "U" (redis w) = ∅
  ∧ cache_cart "U" (redis res.2) = {[ "A" := "2" ]}
  ∧ Redis.ttl (redis res.2) !! "cart:U" = None
  ∧ dirty (redis res.2) = ∅.
Proof. cbv zeta. repeat split; vm_compute; reflexivity. Qed.

(** C2 (amended).  For every mutating call with well-formed arguments: if
    one of its three store calls fails, the call answers with status 500;
    if the failing call is the first one, the cache is left as it was.
    Nothing undoes the store calls that succeeded before a later failure. *)
Theorem mutation_store_failure (StringToNumber : string -> JS.jsnum)
    (u : string) (m : mutation) (plan : list bool)
    (r : Redis.state) (pgs : Pg.state) (out : list (string * exn)) :
  u ≠ "" -> well_formed m ->
  (fails_within 3 plan ->
   exists msg,
     (perform StringToNumber u m (mkWorld r pgs plan out)).1
     = Ok (mkResponse 500 (Error msg)))
  ∧ redis (perform StringToNumber u m (mkWorld r pgs (true :: plan) out)).2 = r.
Proof.
  intros Hu Hm. split.
  - by apply mutation_failure_reported.
  - by apply mutation_first_call_fails.
Qed.

Lemma mutation_store_failure_witness :
  ("U" ≠ "" ∧ well_formed (AddItem "A" 2) ∧ fails_within 3 [false; false; true])
  ∧ (exists msg,
       (perform (fun _ => JS.NaN) "U" (AddItem "A" 2)
          (mkWorld Redis.empty Sample.no_rows [false; false; true] [])).1
       = Ok (mkResponse 500 (Error msg)))
  ∧ redis (perform (fun _ => JS.NaN) "U" (AddItem "A" 2)
             (mkWorld Redis.empty Sample.no_rows (true :: [false; false; true]) [])).2
    = Redis.empty.
Proof.
  assert (fails_within 3 [false; false; true]) as Hf.
  { unfold fails_within. cbn. do 2 apply list_elem_of_further. apply list_elem_of_here. }
  split.
  - split; [discriminate | split; [split; [discriminate | reflexivity] | exact Hf]].
  - destruct (mutation_store_failure (fun _ => JS.NaN) "U" (AddItem "A" 2)
                [false; false; true] Redis.empty Sample.no_rows []) as [H1 H2].
    + discriminate.
    + split; [discriminate | reflexivity].
    + split; [exact (H1 Hf) | exact H2].
Defined.

(** ** C3: a successful checkout *)

(** The total of an order is a binary64 sum: for the cart {A: 3} with A
    at 0.70 the checkout succeeds and the order's total is
    2.0999999999999996, which is neither the sum 2.1 of quantity times
    price nor the binary64 number nearest to it. *)
Lemma checkout_total_is_rounded :
  let res := post_checkout (Some "U") (calm Sample.cart_A3 Sample.catalog_070 []) in
  res.1 = Ok (mkResponse 200 (CheckoutOk 1))
  ∧ Pg.orders (Pg.committed (pg res.2))
    = [Pg.mkOrder 1 "U" "pending" 1000 (JS.Num Sample.below_2_1)]
  ∧ (cart_total (unit_price (Pg.committed Sample.catalog_070)) (map_to_list Sample.A3)
     == 21 # 10)%Q
  ∧ ¬ (Sample.below_2_1 == 21 # 10)%Q
  ∧ JS.round64 (21 # 10) ≠ JS.Num Sample.below_2_1.
Proof.
  cbv zeta. split; [vm_compute; reflexivity|]. split; [vm_compute; reflexivity|].
  split; [vm_compute; reflexivity|]. split.
  - intros H. vm_compute in H. discriminate H.
  - intros H. vm_compute in H. discriminate H.
Qed.

(** C3 (amended).  With a non-empty cache-side cart [C] whose products all
    have a price, whose quantities fit the integer column and whose total
    is a finite number, and no store failure, POST /checkout answers 200
    with the new order id; exactly one
    order row is appended, its total being the binary64 sum, over the
    entries of [C] in the order the handler visits them, of the binary64
    products of price and quantity, with the prices read from [products];
    when nothing is rounded on the way, in whatever order, that total is
    the sum over [C] of quantity times price.  Exactly one order-item row
    per entry of [C] is appended, carrying that quantity and price;
    afterwards the cache has no cart key and the durable store no cart row
    (and no cart item) for the user.  (A field named [__proto__] is left
    aside: the source's [parseCart] drops it.) *)
Theorem checkout_creates_order (u : string) (C : gmap string Z)
    (r : Redis.state) (pgs : Pg.state) (out : list (string * exn)) :
  u ≠ "" ->
  parseCart (cache_cart u r) = JS.of_Z <$> C ->
  C ≠ ∅ ->
  C !! "__proto__" = None ->
  cart_fits C ->
  (forall p, p ∈ dom C -> is_Some (Pg.products (Pg.committed pgs) !! p)) ->
  finite_total (unit_price (Pg.committed pgs)) C ->
  let t := Pg.committed pgs in
  let res := post_checkout (Some u) (calm r pgs out) in
  let t' := Pg.committed (pg res.2) in
  exists entries total,
    entries ≡ₚ map_to_list C
    ∧ total = checkout_total (unit_price t) entries
    ∧ ((forall l, l ≡ₚ map_to_list C -> sums_exactly (unit_price t) 0 l) ->
       exists q, total = JS.Num q ∧ (q == cart_total (unit_price t) (map_to_list C))%Q)
    ∧ res.1 = Ok (mkResponse 200 (CheckoutOk (Pg.next_id t)))
    ∧ Pg.orders t'
      = (Pg.orders t ++ [Pg.mkOrder (Pg.next_id t) u "pending" (Pg.now pgs) total])%list
    ∧ Pg.order_items t'
      = (Pg.order_items t
           ++ ((fun '(p, z) => Pg.mkOrderItem (Pg.next_id t) p z (Pg.products t !! p))
                 <$> entries))%list
    ∧ Redis.hashes (redis res.2) !! cart_key (Some u) = None
    ∧ cache_cart u (redis res.2) = ∅
    ∧ Pg.carts t' !! u = None
    ∧ durable_cart u t' = ∅.
Proof.
  intros Hu Hcart Hne _ Hfit Hprod _. cbv zeta.
  rewrite (post_checkout_run u C r pgs out Hu Hcart Hne Hfit Hprod).
  exists (map_to_list C), (checkout_total (unit_price (Pg.committed pgs)) (map_to_list C)).
  cbn [fst snd calm redis pg Pg.committed].
  set (total := checkout_total (unit_price (Pg.committed pgs)) (map_to_list C)).
  destruct (orders_delete_cart u
              (with_order (Pg.committed pgs) u (Pg.now pgs) total (map_to_list C)))
    as [Ho Hi].
  destruct (durable_cart_delete_cart u
              (with_order (Pg.committed pgs) u (Pg.now pgs) total (map_to_list C)))
    as [Hc Hd].
  rewrite Ho, Hi, Hc, Hd.
  assert (Redis.hashes (Redis.del (cart_key (Some u)) r) !! cart_key (Some u) = None) as Hk.
  { unfold Redis.del; cbn. apply lookup_delete_eq. }
  split; [done|]. split; [done|]. split.
  { intros Hex.
    destruct (exact_fold (unit_price (Pg.committed pgs)) (map_to_list C) 0 0
                (Hex _ (reflexivity _)) (reflexivity _)) as (q & Hq & Heq).
    exists q. split; [exact Hq|]. by rewrite Heq, Qplus_0_l. }
  repeat split; try done.
  unfold cache_cart, Redis.hGetAll. by rewrite Hk.
Qed.

Lemma A3_fits : cart_fits Sample.A3.
Proof. unfold Sample.A3. apply map_Forall_singleton. reflexivity. Defined.

Lemma A3_total_finite : finite_total (unit_price (Pg.committed Sample.catalog)) Sample.A3.
Proof.
  intros l Hl. unfold Sample.A3 in Hl. rewrite map_to_list_singleton in Hl.
  apply Permutation_singleton_r in Hl as ->. eexists. vm_compute. reflexivity.
Defined.

Lemma checkout_creates_order_witness :
  ("U" ≠ ""
   ∧ parseCart (cache_cart "U" Sample.cart_A3) = JS.of_Z <$> Sample.A3
   ∧ Sample.A3 ≠ ∅
   ∧ Sample.A3 !! "__proto__" = None
   ∧ cart_fits Sample.A3
   ∧ finite_total (unit_price (Pg.committed Sample.catalog)) Sample.A3)
  ∧ exists entries total,
      entries ≡ₚ map_to_list Sample.A3
      ∧ total = checkout_total (unit_price (Pg.committed Sample.catalog)) entries
      ∧ (post_checkout (Some "U") (calm Sample.cart_A3 Sample.catalog [])).1
        = Ok (mkResponse 200 (CheckoutOk 1))
      ∧ Pg.orders (Pg.committed (pg (post_checkout (Some "U")
                                      (calm Sample.cart_A3 Sample.catalog [])).2))
        = ([] ++ [Pg.mkOrder 1 "U" "pending" 1000 total])%list.
Proof.
  split.
  - split; [discriminate|]. split; [vm_compute; reflexivity|]. split; [discriminate|].
    split; [reflexivity|]. split; [exact A3_fits | exact A3_total_finite].
  - destruct (checkout_creates_order "U" Sample.A3 Sample.cart_A3 Sample.catalog [])
      as (entries & total & Hperm & Htotal & _ & Hres & Horders & _).
    + discriminate.
    + vm_compute; reflexivity.
    + discriminate.
    + reflexivity.
    + exact A3_fits.
    + intros p Hp. apply elem_of_dom in Hp as [z Hz].
      unfold Sample.A3 in Hz. apply lookup_singleton_Some in Hz as [<- _]. exists (399 # 100)%Q. reflexivity.
    + exact A3_total_finite.
    + exists entries, total.
      split; [exact Hperm|]. split; [exact Htotal|]. split; [exact Hres | exact Horders].
Defined.

(** The example of the specification: {A: 3} at 3.99 gives the total
    11.97, that is the binary64 number that prints so. *)
Example checkout_total_of_example :
  Pg.orders (Pg.committed (pg (post_checkout (Some "U")
                                 (calm Sample.cart_A3 Sample.catalog [])).2))
  = [Pg.mkOrder 1 "U" "pending" 1000 (JS.round64 (1197 # 100))]
  ∧ Pg.order_items (Pg.committed (pg (post_checkout (Some "U")
                                        (calm Sample.cart_A3 Sample.catalog [])).2))
    = [Pg.mkOrderItem 1 "A" 3 (Some (399 # 100)%Q)].
Proof. repeat split; vm_compute; reflexivity. Qed.

(** With A at 2.50 nothing is rounded and the total is 7.5. *)
Example checkout_total_exact :
  sums_exactly (unit_price (Pg.committed Sample.catalog_250)) 0 (map_to_list Sample.A3)
  ∧ Pg.orders (Pg.committed (pg (post_checkout (Some "U")
                                   (calm Sample.cart_A3 Sample.catalog_250 [])).2))
    = [Pg.mkOrder 1 "U" "pending" 1000 (JS.Num (15 # 2))].
Proof. split; [|vm_compute; reflexivity]. vm_compute. repeat split; reflexivity. Qed.

(** A quantity beyond the integer column: the INSERT into [order_items]
    is refused, nothing is committed and the answer is 500. *)
Example checkout_quantity_out_of_range :
  let res := post_checkout (Some "U") (calm Sample.cart_A_huge Sample.catalog []) in
  res.1 = Ok (mkResponse 500 (Error "Checkout failed"))
  ∧ Pg.committed (pg res.2) = Pg.committed Sample.catalog
  ∧ redis res.2 = Sample.cart_A_huge.
Proof. cbv zeta. repeat split; vm_compute; reflexivity. Qed.

(** ** C4: checkout with a product that has no price *)

(** The answer does not name the failure: a checkout whose product A has
    no price and a checkout whose product A has one but whose
    [pool.connect()] fails get the same answer, status 500 with the error
    "Checkout failed". *)
Lemma checkout_failure_is_not_named :
  Pg.products (Pg.committed Sample.no_rows) !! "A" = None
  ∧ (post_checkout (Some "U") (calm Sample.cart_A3 Sample.no_rows [])).1
    = Ok (mkResponse 500 (Error "Checkout failed"))
  ∧ is_Some (Pg.products (Pg.committed Sample.catalog) !! "A")
  ∧ (post_checkout (Some "U") (mkWorld Sample.cart_A3 Sample.catalog [false; true] [])).1
    = Ok (mkResponse 500 (Error "Checkout failed")).
Proof.
  split; [reflexivity|]. split; [vm_compute; reflexivity|].
  split; [by eexists | vm_compute; reflexivity].
Qed.

(** C4 (amended).  When the cache-side cart names a product (other than
    under the field [__proto__], which the source's [parseCart] drops) with
    no row in [products], POST /checkout fails with the answer of every
    failed checkout (status 500, "Checkout failed") whatever store calls
    fail on the way; the cache is left as it was and the committed tables
    are unchanged, so no order and no order item becomes visible.  When no
    store call fails, the error raised, caught and logged is the
    products-not-found error. *)
Theorem checkout_product_not_found (u p : string) (plan : list bool)
    (r : Redis.state) (pgs : Pg.state) (out : list (string * exn)) :
  u ≠ "" ->
  p ≠ "__proto__" ->
  p ∈ dom (cache_cart u r) ->
  Pg.products (Pg.committed pgs) !! p = None ->
  let res := post_checkout (Some u) (mkWorld r pgs plan out) in
  res.1 = Ok (mkResponse 500 (Error "Checkout failed"))
  ∧ redis res.2 = r
  ∧ Pg.committed (pg res.2) = Pg.committed pgs
  ∧ Pg.orders (Pg.committed (pg res.2)) = Pg.orders (Pg.committed pgs)
  ∧ Pg.order_items (Pg.committed (pg res.2)) = Pg.order_items (Pg.committed pgs)
  ∧ (plan = [] -> console res.2 = (out ++ [("Checkout failed", ProductsNotFound)])%list).
Proof.
  intros Hu _ Hp Hmiss.
  destruct (post_checkout_product_missing u p plan r pgs out Hu Hp Hmiss)
    as (H1 & H2 & H3 & H4).
  cbv zeta in *. rewrite H3. by repeat split.
Qed.

Lemma checkout_product_not_found_witness :
  ("U" ≠ ""
   ∧ "A" ≠ "__proto__"
   ∧ "A" ∈ dom (cache_cart "U" Sample.cart_A3)
   ∧ Pg.products (Pg.committed Sample.no_rows) !! "A" = None)
  ∧ (post_checkout (Some "U") (mkWorld Sample.cart_A3 Sample.no_rows [] [])).1
    = Ok (mkResponse 500 (Error "Checkout failed"))
  ∧ redis (post_checkout (Some "U") (mkWorld Sample.cart_A3 Sample.no_rows [] [])).2
    = Sample.cart_A3.
Proof.
  assert ("A" ∈ dom (cache_cart "U" Sample.cart_A3)) as Hin.
  { apply elem_of_dom. exists "3". vm_compute. reflexivity. }
  split.
  - split; [discriminate|]. split; [discriminate|]. split; [exact Hin | reflexivity].
  - destruct (checkout_product_not_found "U" "A" [] Sample.cart_A3 Sample.no_rows [])
      as (H1 & H2 & _).
    + discriminate.
    + discriminate.
    + exact Hin.
    + reflexivity.
    + split; [exact H1 | exact H2].
Defined.

(** ** C5: a dirty user with no cart in the cache *)

(** C5, as stated, fails: U is dirty, has no cart in the cache and a
    durable cart row last synced at time 5; after the run at time 1000 the
    row still carries time 5 and the stale items are still there, and U has
    left the dirty set. *)
Lemma sync_skips_empty_cart :
  let w := calm Sample.dirty_U Sample.mirror_A2_B1 [] in
  let res := startCartSyncJob w in
  Pg.now (pg w) = 1000
  ∧ cache_cart "U" (redis w) = ∅
  ∧ Pg.carts (Pg.committed (pg res.2)) !! "U" = Some (Pg.mkCart 1 5 5)
  ∧ durable_cart "U" (Pg.committed (pg res.2)) = {[ "A" := 2; "B" := 1 ]}
  ∧ dirty (redis w) = {[ "U" ]}
  ∧ dirty (redis res.2) = ∅.
Proof. cbv zeta. repeat split; vm_compute; reflexivity. Qed.

(** C5 (amended).  For a dirty user whose cache-side cart is empty or
    absent at flush time, [syncCartToPostgres] returns at once without a
    single store call, so the loop body only reads the cart and removes the
    user from the dirty set: the durable store is exactly as before (no
    cart row upserted, no timestamp refreshed, stale items kept). *)
Theorem sync_of_empty_cart_writes_nothing (u : string)
    (r : Redis.state) (pgs : Pg.state) (out : list (string * exn)) :
  cache_cart u r = ∅ ->
  (forall w, syncCartToPostgres u (parseCart (cache_cart u r)) w = (Ok tt, w))
  ∧ sync_dirty_user u (calm r pgs out)
    = (Ok tt, calm (Redis.sRem "dirtyCarts" u r) pgs out)
  ∧ u ∉ dirty (Redis.sRem "dirtyCarts" u r).
Proof.
  intros He. split; [|split].
  - intros w. rewrite He. apply syncCartToPostgres_empty.
  - by apply sync_dirty_user_empty.
  - apply not_dirty_after_sRem.
Qed.

Lemma sync_of_empty_cart_writes_nothing_witness :
  cache_cart "U" Sample.dirty_U = ∅
  ∧ sync_dirty_user "U" (calm Sample.dirty_U Sample.mirror_A2_B1 [])
    = (Ok tt, calm (Redis.sRem "dirtyCarts" "U" Sample.dirty_U) Sample.mirror_A2_B1 []).
Proof.
  split.
  - reflexivity.
  - apply (sync_of_empty_cart_writes_nothing "U" Sample.dirty_U Sample.mirror_A2_B1 []).
    reflexivity.
Defined.

(** A whole run over dirty users that all have no cart in the cache leaves
    the durable store untouched and empties the dirty set. *)
Example sync_run_over_empty_carts
    (r : Redis.state) (pgs : Pg.state) (out : list (string * exn)) :
  (forall u, u ∈ dirty r -> cache_cart u r = ∅) ->
  exists r',
    startCartSyncJob (calm r pgs out) = (Ok tt, calm r' pgs out)
    ∧ dirty r' = ∅
    ∧ Redis.hashes r' = Redis.hashes r.
Proof. apply startCartSyncJob_empty_carts. Qed.

(** ** C6: fallback-restore *)



(** The example of the specification: the mirror {A: 2, B: 1} comes back
    and the cache then holds it. *)
Example restore_of_example :
  let res := get_cart (Some "U") (calm Redis.empty Sample.mirror_A2_B1 []) in
  res.1 = Ok (mkResponse 200 (CartJson {[ "A" := JS.of_Z 2; "B" := JS.of_Z 1 ]}))
  ∧ cache_cart "U" (redis res.2) = {[ "A" := "2"; "B" := "1" ]}
  ∧ Redis.ttl (redis res.2) !! "cart:U" = Some 86400
  ∧ dirty (redis res.2) = ∅.
Proof. cbv zeta. repeat split; vm_compute; reflexivity. Qed.

(** ** C7: stored quantities *)

(** C7, as stated, fails: PUT /update with quantity 1.5 is accepted and
    stores "1.5", which is not the decimal form of a positive integer. *)
Lemma put_update_stores_fraction :
  let w := calm Redis.empty Sample.no_rows [] in
  let res := put_update (Some "U") (Some "A") (JS.JNum (3 # 2)) w in
  res.1 = Ok (mkResponse 200 (Message "Cart updated"))
  ∧ cache_cart "U" (redis res.2) = {[ "A" := "1.5" ]}
  ∧ positive_integer "1.5" = false
  ∧ cache_quantities_positive (redis w)
  ∧ ¬ cache_quantities_positive (redis res.2).
Proof.
  cbv zeta. split; [reflexivity|]. split; [vm_compute; reflexivity|].
  split; [reflexivity|]. split.
  - unfold cache_quantities_positive. cbn. apply map_Forall_empty.
  - intros H.
    assert (Redis.hashes
              (redis (put_update (Some "U") (Some "A") (JS.JNum (3 # 2))
                        (calm Redis.empty Sample.no_rows [])).2) !! "cart:U"
            = Some {[ "A" := "1.5" ]}) as Hk by (vm_compute; reflexivity).
    specialize (H _ _ Hk "A" "1.5" ltac:(vm_compute; reflexivity)).
    discriminate H.
Qed.

(** C7 (amended).  As long as the quantities of the requests are safe
    integers, of magnitude at most 2^53 - 1, which print with all their
    digits (or absent), every Cart Accessor operation (AddItem, UpdateItem,
    BulkUpdate, ClearCart, and GetCart with its restore) keeps this
    invariant, whatever store calls fail: every quantity stored in the
    cache is the decimal form of a positive integer and every durable
    cart-item quantity is positive and within the range of its column.  An update to a quantity of zero or
    below removes the field.  (A positive quantity that is not an integer
    is stored as it is by UpdateItem and BulkUpdate.) *)
Theorem integral_calls_keep_quantities_positive
    (StringToNumber : string -> JS.jsnum) (u : string) (m : mutation) (w : world) :
  integral_mutation m ->
  quantities_positive w ->
  quantities_positive (perform StringToNumber u m w).2
  ∧ quantities_positive (get_cart (Some u) w).2
  ∧ forall (p : string) (z : Z) r pgs out,
      u ≠ "" -> p ≠ "" -> z <= 0 ->
      cache_cart u
        (redis (put_update (Some u) (Some p) (JS.JNum (inject_Z z)) (calm r pgs out)).2)
        !! p = None.
Proof.
  intros Hm Hw. split; [|split].
  - by apply (perform_keeps StringToNumber u m Hm w).
  - by apply (get_cart_keeps (Some u) w).
  - intros p z r pgs out Hu Hp Hz.
    rewrite put_update_removes_run; [apply removed_field_absent | done | done |].
    rewrite Qle_bool_inject_Z. by apply Z.leb_le.
Qed.

Lemma integral_calls_keep_quantities_positive_witness :
  (integral_mutation (UpdateItem "A" (Some (inject_Z 4)))
   ∧ quantities_positive (calm Sample.cart_A3 Sample.mirror_A2_B1 []))
  ∧ quantities_positive
      (perform (fun _ => JS.NaN) "U" (UpdateItem "A" (Some (inject_Z 4)))
         (calm Sample.cart_A3 Sample.mirror_A2_B1 [])).2.
Proof.
  assert (quantities_positive (calm Sample.cart_A3 Sample.mirror_A2_B1 [])) as Hw.
  { split.
    - unfold cache_quantities_positive. cbn.
      apply map_Forall_singleton, map_Forall_singleton. reflexivity.
    - unfold durable_quantities_positive. cbn.
      apply map_Forall_singleton, map_Forall_insert_2; [by split|].
      apply map_Forall_singleton. by split. }
  split.
  - split; [by exists 4 | exact Hw].
  - apply (integral_calls_keep_quantities_positive (fun _ => JS.NaN) "U"
             (UpdateItem "A" (Some (inject_Z 4)))
             (calm Sample.cart_A3 Sample.mirror_A2_B1 [])).
    + by exists 4.
    + exact Hw.
Defined.

(** ** C8: a zero update twice *)

(** C8.  PUT /update with quantity 0, run twice without store failure,
    leaves the world exactly as one run does; both runs answer 200 and the
    product is absent from the cart. *)
Theorem put_update_zero_idempotent (u p : string)
    (r : Redis.state) (pgs : Pg.state) (out : list (string * exn)) :
  u ≠ "" -> p ≠ "" ->
  let once := put_update (Some u) (Some p) (JS.JNum 0) (calm r pgs out) in
  let twice := put_update (Some u) (Some p) (JS.JNum 0) once.2 in
  once.1 = Ok (mkResponse 200 (Message "Cart updated"))
  ∧ twice.1 = Ok (mkResponse 200 (Message "Cart updated"))
  ∧ twice.2 = once.2
  ∧ cache_cart u (redis once.2) !! p = None
  ∧ cache_cart u (redis twice.2) !! p = None.
Proof.
  intros Hu Hp. cbv zeta.
  rewrite (put_update_removes_run u p 0 r pgs out Hu Hp eq_refl). cbn [fst snd].
  rewrite (put_update_removes_run u p 0 _ pgs out Hu Hp eq_refl). cbn [fst snd].
  rewrite zero_update_twice. cbn [calm redis].
  repeat split; try done; apply removed_field_absent.
Qed.

Lemma put_update_zero_idempotent_witness :
  ("U" ≠ "" ∧ "A" ≠ "")
  ∧ (put_update (Some "U") (Some "A") (JS.JNum 0)
       (put_update (Some "U") (Some "A") (JS.JNum 0)
          (calm Sample.cart_A2_B1 Sample.no_rows [])).2).2
    = (put_update (Some "U") (Some "A") (JS.JNum 0)
         (calm Sample.cart_A2_B1 Sample.no_rows [])).2.
Proof.
  split.
  - split; discriminate.
  - apply (put_update_zero_idempotent "U" "A" Sample.cart_A2_B1 Sample.no_rows []);
      discriminate.
Defined.

(** ** C9: AddItem *)

(** C9, as stated, fails: the quantity 1.5 is a number greater than 0 and
    the product is present, yet nothing is added; the cache refuses the
    increment and the call answers 500, with no cart and the user not
    marked dirty. *)
Lemma post_add_fraction_not_added :
  let w := calm Redis.empty Sample.no_rows [] in
  let res := post_add (Some "U") (Some "A") (JS.JNum (3 # 2)) w in
  JS.is_number (JS.JNum (3 # 2)) = true
  ∧ JS.gt0 (JS.Num (3 # 2)) = true
  ∧ res.1 = Ok (mkResponse 500 (Error "Failed to add to cart"))
  ∧ cache_cart "U" (redis res.2) = ∅
  ∧ dirty (redis res.2) = ∅.
Proof. cbv zeta. repeat split; vm_compute; reflexivity. Qed.

(** C9 (amended).  For an authenticated user: if the product is present
    and the quantity is a safe integer [n > 0], at most 2^53 - 1 (with the
    stored quantity an integer [old], 0 when the field is absent, and
    [old + n] within 64 bits), POST /add without store failure stores
    [old + n] for the
    product, sets the time to live of the cart to [CART_TTL] and marks the
    user dirty.  If the quantity is not a number, is [<= 0], or the product
    is missing, it answers 400 before any store call and changes nothing.
    A binary64 number [> 0] that is not an integer passes the validation
    and is refused by the cache: status 500, cache unchanged. *)
Theorem post_add_contract (u : string) :
  u ≠ "" ->
  (forall (p : string) (n old : Z) r pgs out,
     p ≠ "" -> 0 < n -> JS.safe_integer n = true ->
     Redis.stored_integer (cart_key (Some u)) p r = Some old ->
     Redis.int64_ok (old + n) = true ->
     exists r',
       post_add (Some u) (Some p) (JS.JNum (inject_Z n)) (calm r pgs out)
       = (Ok (mkResponse 200 (Message "Item added to cart")), calm r' pgs out)
       ∧ cache_cart u r' = <[p := JS.string_of_Z (old + n)]> (cache_cart u r)
       ∧ Redis.ttl r' !! cart_key (Some u) = Some CART_TTL
       ∧ u ∈ dirty r')
  ∧ (forall (productId : option string) (quantity : JS.jsval) (w : world),
       falsy productId = true
       ∨ JS.is_number quantity = false
       ∨ (exists q, quantity = JS.JNum q ∧ Qle_bool q 0 = true) ->
       post_add (Some u) productId quantity w
       = (Ok (mkResponse 400 (Error "Valid productId and quantity required")), w))
  ∧ (forall (p : string) (q : Q) r pgs out,
       p ≠ "" -> JS.binary64 q -> 0 < Qnum q -> Qnum q mod Zpos (Qden q) ≠ 0 ->
       post_add (Some u) (Some p) (JS.JNum q) (calm r pgs out)
       = (Ok (mkResponse 500 (Error "Failed to add to cart")),
          calm r pgs
            (out ++ [("Redis error",
                      ReplyError "ERR value is not an integer or out of range")])%list)).
Proof.
  intros Hu. split; [|split].
  - intros p n old r pgs out Hp Hn Hsafe Hold Hsum.
    apply post_add_increments; try done.
    unfold JS.safe_integer in Hsafe. apply Z.leb_le in Hsafe.
    unfold Redis.int64_ok. apply andb_true_iff. split; apply Z.leb_le; lia.
  - intros productId quantity w H. by apply post_add_rejects.
  - intros p q r pgs out Hp _ Hn Hm. by apply post_add_fraction_refused.
Qed.

Lemma post_add_contract_witness :
  "U" ≠ ""
  ∧ exists r',
      post_add (Some "U") (Some "A") (JS.JNum (inject_Z 2)) (calm Sample.cart_A3 Sample.no_rows [])
      = (Ok (mkResponse 200 (Message "Item added to cart")), calm r' Sample.no_rows [])
      ∧ cache_cart "U" r' = <["A" := JS.string_of_Z (3 + 2)]> (cache_cart "U" Sample.cart_A3)
      ∧ Redis.ttl r' !! cart_key (Some "U") = Some CART_TTL
      ∧ "U" ∈ dirty r'.
Proof.
  split.
  - discriminate.
  - apply (proj1 (post_add_contract "U" ltac:(discriminate))
             "A" 2 3 Sample.cart_A3 Sample.no_rows []).
    + discriminate.
    + reflexivity.
    + reflexivity.
    + reflexivity.
    + reflexivity.
Defined.

(** ** C10: BulkUpdate *)

(** C10.  POST /update-bulk validates no item: for an authenticated user
    and any list of items, without store failure, the call answers 200,
    the user is marked dirty and the cart, if it still exists, has its
    time to live set to [CART_TTL].  A quantity that is missing, null,
    false, a number [<= 0], a string that converts to NaN, or anything else
    that is not [> 0], makes its item queue an HDEL of the product's field; unless a later item of the list sets
    the same product again, that field is absent from the cart afterwards. *)
Theorem bulk_update_deletes_not_positive
    (StringToNumber : string -> JS.jsnum) (u : string) (items : list bulk_item)
    (r : Redis.state) (pgs : Pg.state) (out : list (string * exn)) :
  u ≠ "" ->
  exists r',
    post_update_bulk StringToNumber (Some u) (Some items) (calm r pgs out)
    = (Ok (mkResponse 200 (Message "Cart updated in bulk")), calm r' pgs out)
    ∧ u ∈ dirty r'
    ∧ (is_Some (Redis.hashes r' !! cart_key (Some u)) ->
       Redis.ttl r' !! cart_key (Some u) = Some CART_TTL)
    ∧ (forall v,
         v = JS.JUndefined ∨ v = JS.JNull ∨ v = JS.JBool false
         ∨ (exists q, v = JS.JNum q ∧ Qle_bool q 0 = true)
         ∨ (exists s, v = JS.JStr s ∧ StringToNumber s = JS.NaN) ->
         JS.gt0 (ToNumber StringToNumber v) = false)
    ∧ (forall before item after,
         items = (before ++ item :: after)%list ->
         JS.gt0 (ToNumber StringToNumber (quantity item)) = false ->
         bulk_command StringToNumber (cart_key (Some u)) item
         = Some (Redis.HDEL (cart_key (Some u)) (productId item))
         ∧ (Forall (fun it => productId it ≠ productId item) after ->
            cache_cart u r' !! productId item = None)).
Proof.
  intros Hu.
  destruct (post_update_bulk_run StringToNumber u items r pgs out Hu) as (cs & Hcs & Hrun).
  eexists. split; [exact Hrun|]. split; [apply elem_of_dirty_sAdd|].
  split; [|split].
  - rewrite hashes_sAdd, ttl_sAdd. apply ttl_expire_if_present.
  - intros v [-> | [-> | [-> | [(q & -> & Hq) | (s & -> & Hs)]]]]; cbn;
      [done | done | done | by rewrite Hq | by rewrite Hs].
  - intros before item after -> Hgt.
    split; [by apply bulk_command_not_positive|].
    intros Hafter.
    apply Forall2_app_inv_l in Hcs as (cs1 & cs2 & H1 & H2 & ->).
    apply Forall2_cons_inv_l in H2 as (c & cs3 & Hc & H3 & ->).
    rewrite bulk_command_not_positive in Hc by done. injection Hc as <-.
    unfold cache_cart. rewrite hGetAll_sAdd, hGetAll_expire.
    unfold Redis.run_commands. rewrite foldl_app. cbn [foldl Redis.run_command].
    fold (Redis.run_commands cs1 r).
    fold (Redis.run_commands cs3
            (Redis.hDel (cart_key (Some u)) (productId item) (Redis.run_commands cs1 r))).
    rewrite (run_commands_other_fields StringToNumber _ _ after cs3) by done.
    by rewrite hGetAll_hDel, lookup_delete_eq.
Qed.

Lemma bulk_update_deletes_not_positive_witness :
  "U" ≠ ""
  ∧ exists r',
      post_update_bulk (fun _ => JS.NaN) (Some "U")
        (Some [mkItem "A" JS.JNull; mkItem "B" (JS.JNum (-1)); mkItem "C" (JS.JStr "abc")])
        (calm Sample.cart_A2_B1 Sample.no_rows [])
      = (Ok (mkResponse 200 (Message "Cart updated in bulk")), calm r' Sample.no_rows [])
      ∧ "U" ∈ dirty r'.
Proof.
  split.
  - discriminate.
  - destruct (bulk_update_deletes_not_positive (fun _ => JS.NaN) "U"
                [mkItem "A" JS.JNull; mkItem "B" (JS.JNum (-1)); mkItem "C" (JS.JStr "abc")]
                Sample.cart_A2_B1 Sample.no_rows [])
      as (r' & Hrun & Hdirty & _).
    + discriminate.
    + exists r'. split; [exact Hrun | exact Hdirty].
Defined.

(** Null, a negative number and a word all delete: the cart {A: 2, B: 1}
    is gone after this bulk update, and the call succeeds. *)
Example bulk_update_of_bad_quantities :
  let res :=
    post_update_bulk (fun _ => JS.NaN) (Some "U")
      (Some [mkItem "A" JS.JNull; mkItem "B" (JS.JNum (-1)); mkItem "C" (JS.JStr "abc")])
      (calm Sample.cart_A2_B1 Sample.no_rows []) in
  res.1 = Ok (mkResponse 200 (Message "Cart updated in bulk"))
  ∧ cache_cart "U" (redis res.2) = ∅
  ∧ dirty (redis res.2) = {[ "U" ]}.
Proof. cbv zeta. repeat split; vm_compute; reflexivity. Qed.

(** * Further properties of the cart routes and the sync job *)

(** ** What a 200 of a mutating call stands for *)

Lemma ttl_after_mark (k u : string) (r : Redis.state) :
  is_Some (Redis.hashes (Redis.sAdd "dirtyCarts" u (Redis.expire k CART_TTL r)) !! k) ->
  Redis.ttl (Redis.sAdd "dirtyCarts" u (Redis.expire k CART_TTL r)) !! k = Some CART_TTL.
Proof. rewrite hashes_sAdd, ttl_sAdd. apply ttl_expire_if_present. Qed.

Lemma ttl_after_clear (k u : string) (r : Redis.state) :
  is_Some (Redis.hashes (Redis.sAdd "dirtyCarts" u (Redis.del k r)) !! k) ->
  Redis.ttl (Redis.sAdd "dirtyCarts" u (Redis.del k r)) !! k = Some CART_TTL.
Proof.
  rewrite hashes_sAdd. unfold Redis.del; cbn. rewrite lookup_delete_eq.
  by intros [? ?].
Qed.

(** Follow every fate of the store calls of a handler. *)
Ltac walk_plan :=
  repeat first
    [ next_call; cbv beta iota
    | match goal with
      | |- context [Redis.hIncrBy ?k ?f ?i ?r] => destruct (Redis.hIncrBy k f i r)
      end ].

(** X1.  Whatever store calls fail: when a mutating call (AddItem,
    UpdateItem, BulkUpdate, ClearCart) answers 200, the user is in the
    dirty set and the cart key, if it exists, has the time to live
    [CART_TTL]. *)
Theorem success_marks_dirty (StringToNumber : string -> JS.jsnum)
    (u : string) (m : mutation) (w : world) (resp : response) :
  (perform StringToNumber u m w).1 = Ok resp ->
  status resp = 200 ->
  u ∈ dirty (redis (perform StringToNumber u m w).2)
  ∧ (is_Some (Redis.hashes (redis (perform StringToNumber u m w).2) !! cart_key (Some u)) ->
     Redis.ttl (redis (perform StringToNumber u m w).2) !! cart_key (Some u) = Some CART_TTL).
Proof.
  destruct w as [r pgs plan out].
  destruct m as [p q|p [q|]|items|]; cbn [perform].
  - unfold post_add. destruct (falsy (Some u)); [by intros [= <-]|].
    destruct (falsy (Some p) || Qle_bool q 0)%bool; [by intros [= <-]|].
    run_io. walk_plan; try (by intros [= <-]);
      intros _ _; (split; [apply elem_of_dirty_sAdd | apply ttl_after_mark]).
  - unfold put_update. destruct (falsy (Some u)); [by intros [= <-]|].
    destruct (falsy (Some p)); [by intros [= <-]|].
    cbn [JS.is_nullish JS.is_number negb andb]. run_io.
    destruct (Qle_bool q 0); run_io; walk_plan; try (by intros [= <-]);
      intros _ _; (split; [apply elem_of_dirty_sAdd | apply ttl_after_mark]).
  - unfold put_update. destruct (falsy (Some u)); [by intros [= <-]|].
    destruct (falsy (Some p)); [by intros [= <-]|].
    cbn [JS.is_nullish JS.is_number negb andb]. run_io.
    walk_plan; try (by intros [= <-]);
      intros _ _; (split; [apply elem_of_dirty_sAdd | apply ttl_after_mark]).
  - unfold post_update_bulk. destruct (falsy (Some u)); [by intros [= <-]|].
    run_io. destruct (mapM _ items); [|by intros [= <-]].
    walk_plan; try (by intros [= <-]);
      intros _ _; (split; [apply elem_of_dirty_sAdd | apply ttl_after_mark]).
  - unfold delete_clear. destruct (falsy (Some u)); [by intros [= <-]|].
    run_io. walk_plan; try (by intros [= <-]);
      intros _ _; (split; [apply elem_of_dirty_sAdd | apply ttl_after_clear]).
Qed.

(** ** No exception leaves a handler *)

Lemma yields_ret {A : Type} (a : A) (Q : A -> Prop) : Q a -> yields (mret a) Q.
Proof. intros HQ w a' [= <-]. done. Qed.

Lemma yields_throw {A : Type} (e : exn) (Q : A -> Prop) : yields (throw e) Q.
Proof. by intros w a. Qed.

Lemma yields_bind {A B : Type} (m : io A) (k : A -> io B) (Q : B -> Prop) :
  (forall a, yields (k a) Q) -> yields (m ≫= k) Q.
Proof.
  intros Hk w b. unfold mbind, io_bind.
  destruct (m w) as [[a|e] w'] eqn:Hm; [apply Hk | done].
Qed.

Lemma yields_try_catch {A : Type} (m : io A) (h : exn -> io A) (Q : A -> Prop) :
  yields m Q -> (forall e, yields (h e) Q) -> yields (try_catch m h) Q.
Proof.
  intros Hm Hh w a. unfold try_catch.
  destruct (m w) as [[a'|e] w'] eqn:Hmw.
  - intros [= <-]. apply (Hm w). by rewrite Hmw.
  - apply Hh.
Qed.

Lemma yields_finally {A : Type} (m : io A) (f : io unit) (Q : A -> Prop) :
  yields m Q -> yields (finally m f) Q.
Proof.
  intros Hm w a. unfold finally.
  destruct (m w) as [res w'] eqn:Hmw. destruct (f w') as [[[]|e] w'']; [|done].
  cbn. intros ->. apply (Hm w). by rewrite Hmw.
Qed.

Lemma returns_ret {A : Type} (a : A) : returns (mret a).
Proof. intros w. by exists a. Qed.

Lemma returns_try_catch {A : Type} (m : io A) (h : exn -> io A) :
  (forall e, returns (h e)) -> returns (try_catch m h).
Proof.
  intros Hh w. unfold try_catch.
  destruct (m w) as [[a|e] w']; [by exists a | apply Hh].
Qed.

Lemma returns_handleRedisError (e : exn) (msg : string) : returns (handleRedisError e msg).
Proof. intros w. by eexists. Qed.

Lemma yields_handleRedisError (e : exn) (msg : string) :
  yields (handleRedisError e msg) cart_status.
Proof. intros w a [= <-]. unfold cart_status. cbn. tauto. Qed.

Lemma cart_status_200 (b : body) : cart_status (mkResponse 200 b).
Proof. unfold cart_status. cbn. tauto. Qed.

Lemma cart_status_400 (b : body) : cart_status (mkResponse 400 b).
Proof. unfold cart_status. cbn. tauto. Qed.

Lemma cart_status_401 (b : body) : cart_status (mkResponse 401 b).
Proof. unfold cart_status. cbn. tauto. Qed.

Lemma cart_status_500 (b : body) : cart_status (mkResponse 500 b).
Proof. unfold cart_status. cbn. tauto. Qed.

Create HintDb cart.

#[local] Hint Resolve cart_status_200 cart_status_400 cart_status_401 cart_status_500 : cart.

(** Close a goal about a handler by following its structure. *)
Ltac through_handler :=
  repeat first
    [ apply returns_ret
    | apply returns_handleRedisError
    | apply returns_try_catch; intros
    | apply yields_handleRedisError
    | apply yields_ret; auto with cart
    | apply yields_throw
    | apply yields_try_catch; [|intros]
    | apply yields_finally
    | apply yields_bind; intros
    | match goal with
      | |- context [if ?c then _ else _] => destruct c
      | |- context [match ?x with _ => _ end] => destruct x
      end ].

Lemma post_add_answers (userId productId : option string) (quantity : JS.jsval) :
  returns (post_add userId productId quantity)
  ∧ yields (post_add userId productId quantity) cart_status.
Proof. split; unfold post_add; through_handler. Qed.

Lemma get_cart_answers (userId : option string) :
  returns (get_cart userId) ∧ yields (get_cart userId) cart_status.
Proof. split; unfold get_cart; through_handler. Qed.

Lemma put_update_answers (userId productId : option string) (quantity : JS.jsval) :
  returns (put_update userId productId quantity)
  ∧ yields (put_update userId productId quantity) cart_status.
Proof. split; unfold put_update; through_handler. Qed.

Lemma delete_clear_answers (userId : option string) :
  returns (delete_clear userId) ∧ yields (delete_clear userId) cart_status.
Proof. split; unfold delete_clear; through_handler. Qed.

Lemma post_update_bulk_answers (StringToNumber : string -> JS.jsnum)
    (userId : option string) (items : option (list bulk_item)) :
  returns (post_update_bulk StringToNumber userId items)
  ∧ yields (post_update_bulk StringToNumber userId items) cart_status.
Proof. split; unfold post_update_bulk; through_handler. Qed.

Lemma post_checkout_answers (userId : option string) :
  returns (post_checkout userId) ∧ yields (post_checkout userId) cart_status.
Proof.
  split; unfold post_checkout.
  - apply returns_try_catch. intros e w. by eexists.
  - apply yields_try_catch.
    + apply yields_bind; intros cartRaw.
      destruct (decide _); [apply yields_ret; auto with cart|].
      destruct (falsy userId); [apply yields_ret; auto with cart|].
      apply yields_bind; intros _. apply yields_finally.
      apply yields_try_catch.
      * repeat (apply yields_bind; intros). apply yields_ret; auto with cart.
      * intros e. repeat (apply yields_bind; intros). apply yields_ret; auto with cart.
    + intros e. apply yields_bind; intros _. apply yields_ret; auto with cart.
Qed.


(** X2.  Every handler of the cart router answers, whatever the request,
    the state of the stores and the store calls that fail: no exception
    leaves the handler, and the status is 200, 400, 401 or 500.  The
    callback of the sync job always ends normally as well, while
    [syncCartToPostgres] itself can throw (a failing [pool.connect()]). *)
Theorem cart_handlers_always_answer (StringToNumber : string -> JS.jsnum)
    (userId : option string) (req : cart_request) (w : world) :
  (exists resp,
     (handle StringToNumber userId req w).1 = Ok resp ∧ cart_status resp)
  ∧ (startCartSyncJob w).1 = Ok tt
  ∧ (forall u cart r pgs plan out,
       cart ≠ ∅ ->
       (syncCartToPostgres u cart (mkWorld r pgs (true :: plan) out)).1
       = Throw ConnectionError).
Proof.
  split; [|split].
  - assert (returns (handle StringToNumber userId req)
            ∧ yields (handle StringToNumber userId req) cart_status) as [Hr Hy].
    { destruct req; cbn [handle];
        auto using post_add_answers, get_cart_answers, put_update_answers,
          delete_clear_answers, post_update_bulk_answers, post_checkout_answers. }
    destruct (Hr w) as [resp Hresp]. exists resp. split; [done|]. by apply (Hy w).
  - unfold startCartSyncJob, try_catch.
    match goal with
    | |- (match ?x with _ => _ end).1 = _ => destruct x as [[[]|e] w']
    end; reflexivity.
  - intros u cart r pgs plan out Hne. unfold syncCartToPostgres.
    destruct (decide (size cart = 0%nat)) as [He|_].
    { by apply map_size_empty_iff in He. }
    reflexivity.
Qed.

(** ** Reading the cart *)

(** X3.  On a cache hit GET / only reads: with a cart in the cache and the
    HGETALL succeeding, it answers with the parsed cart after exactly one
    store call; Redis and PostgreSQL are left as they were whatever fails,
    so the time to live of the cart is not refreshed and the durable
    store is not queried. *)
Theorem get_cart_hit_only_reads (userId : option string)
    (r : Redis.state) (pgs : Pg.state) (plan : list bool) (out : list (string * exn)) :
  Redis.hGetAll (cart_key userId) r ≠ ∅ ->
  get_cart userId (mkWorld r pgs (false :: plan) out)
  = (Ok (mkResponse 200 (CartJson (parseCart (Redis.hGetAll (cart_key userId) r)))),
     mkWorld r pgs plan out)
  ∧ get_cart userId (calm r pgs out)
    = (Ok (mkResponse 200 (CartJson (parseCart (Redis.hGetAll (cart_key userId) r)))),
       calm r pgs out)
  ∧ redis (get_cart userId (mkWorld r pgs plan out)).2 = r
  ∧ pg (get_cart userId (mkWorld r pgs plan out)).2 = pgs.
Proof.
  intros Hne.
  assert (size (Redis.hGetAll (cart_key userId) r) ≠ 0%nat) as Hsize.
  { intros He. by apply map_size_empty_iff in He. }
  unfold get_cart. run_io.
  rewrite !(decide_False _ _ Hsize).
  repeat split. destruct plan as [|[] plan]; cbv beta iota;
    rewrite ?(decide_False _ _ Hsize); reflexivity.
  destruct plan as [|[] plan]; cbv beta iota;
    rewrite ?(decide_False _ _ Hsize); reflexivity.
Qed.

(** ** Checkout without a cart in the cache *)


(** ** Clearing the cart *)

Lemma delete_clear_run (u : string)
    (r : Redis.state) (t : Pg.tables) (s : option Pg.tables) (clock : Z)
    (out : list (string * exn)) :
  u ≠ "" ->
  delete_clear (Some u) (calm r (Pg.mkState t s clock) out)
  = (Ok (mkResponse 200 (Message "Cart cleared")),
     calm (Redis.sAdd "dirtyCarts" u (Redis.del (cart_key (Some u)) r))
          (Pg.mkState (Pg.delete_cart u t) s clock) out).
Proof. intros Hu. unfold delete_clear. by rewrite (falsy_Some u Hu). Qed.

Lemma hashes_del (k : string) (r : Redis.state) :
  Redis.hashes (Redis.del k r) !! k = None.
Proof. unfold Redis.del; cbn. apply lookup_delete_eq. Qed.

(** X5.  A DELETE /clear without store failure removes the cart from the
    cache and the cart row from the durable store, so that the durable cart
    read through that row is empty; it marks the user dirty and leaves
    orders alone; the GET / that follows answers the empty mapping and
    restores nothing. *)
Theorem clear_then_get_is_empty (u : string)
    (r : Redis.state) (pgs : Pg.state) (out : list (string * exn)) :
  u ≠ "" ->
  let cleared := delete_clear (Some u) (calm r pgs out) in
  cleared.1 = Ok (mkResponse 200 (Message "Cart cleared"))
  ∧ cache_cart u (redis cleared.2) = ∅
  ∧ Pg.carts (Pg.committed (pg cleared.2)) !! u = None
  ∧ durable_cart u (Pg.committed (pg cleared.2)) = ∅
  ∧ Pg.orders (Pg.committed (pg cleared.2)) = Pg.orders (Pg.committed pgs)
  ∧ u ∈ dirty (redis cleared.2)
  ∧ get_cart (Some u) cleared.2 = (Ok (mkResponse 200 (CartJson ∅)), cleared.2).
Proof.
  intros Hu. cbv zeta. destruct pgs as [t s clock].
  rewrite (delete_clear_run u r t s clock out Hu). cbn [fst snd calm redis pg Pg.committed].
  destruct (durable_cart_delete_cart u t) as [Hc Hd].
  destruct (orders_delete_cart u t) as [Ho _].
  assert (Redis.hashes (Redis.sAdd "dirtyCarts" u (Redis.del (cart_key (Some u)) r))
            !! cart_key (Some u) = None) as Hk.
  { rewrite hashes_sAdd. apply hashes_del. }
  repeat split; try done.
  - unfold cache_cart, Redis.hGetAll. by rewrite Hk.
  - apply elem_of_dirty_sAdd.
  - by apply get_cart_nothing_to_restore.
Qed.


(** ** Removing the last item *)


(** ** Sequences of AddItem and UpdateItem *)

Lemma put_update_run (u p : string) (quantity : JS.jsval)
    (r : Redis.state) (pgs : Pg.state) (out : list (string * exn)) :
  u ≠ "" -> p ≠ "" -> accepted_quantity quantity ->
  put_update (Some u) (Some p) quantity (calm r pgs out)
  = (Ok (mkResponse 200 (Message "Cart updated")),
     calm (Redis.sAdd "dirtyCarts" u
             (Redis.expire (cart_key (Some u)) CART_TTL
                (Redis.run_command (update_command (cart_key (Some u)) p quantity) r)))
          pgs out).
Proof.
  intros Hu Hp Hq. unfold put_update. rewrite (falsy_Some u Hu), (falsy_Some p Hp).
  destruct quantity as [| | |q|]; destruct Hq as [Hq|Hq]; try done.
  cbn [JS.is_nullish JS.is_number negb andb update_command].
  by destruct (Qle_bool q 0).
Qed.

Lemma get_cart_hit_run (u : string)
    (r : Redis.state) (pgs : Pg.state) (out : list (string * exn)) :
  cache_cart u r ≠ ∅ ->
  get_cart (Some u) (calm r pgs out)
  = (Ok (mkResponse 200 (CartJson (parseCart (cache_cart u r)))), calm r pgs out).
Proof.
  intros Hne. unfold cache_cart in *.
  assert (size (Redis.hGetAll (cart_key (Some u)) r) ≠ 0%nat) as Hsize.
  { intros He. by apply map_size_empty_iff in He. }
  unfold get_cart. run_io. by rewrite (decide_False _ _ Hsize).
Qed.

Lemma stored_integer_of_cart (u p : string) (C : gmap string Z) (r : Redis.state) :
  cache_cart u r = JS.string_of_Z <$> C ->
  Redis.int64_ok (default 0 (C !! p)) = true ->
  Redis.stored_integer (cart_key (Some u)) p r = Some (default 0 (C !! p)).
Proof.
  intros Hcart Hok. unfold Redis.stored_integer. fold (cache_cart u r).
  rewrite Hcart, lookup_fmap.
  destruct (C !! p) as [c|]; cbn in *; [|done].
  by apply string2ll_string_of_Z.
Qed.

Lemma safe_integer_int64 (z : Z) : JS.safe_integer z = true -> Redis.int64_ok z = true.
Proof.
  unfold JS.safe_integer, Redis.int64_ok. intros H%Z.leb_le.
  apply andb_true_iff. split; apply Z.leb_le; lia.
Qed.

Lemma perform_op (StringToNumber : string -> JS.jsnum) (u : string) (op : cart_op)
    (C : gmap string Z) (r : Redis.state) (pgs : Pg.state) (out : list (string * exn)) :
  u ≠ "" ->
  cache_cart u r = JS.string_of_Z <$> C ->
  op_accepted C op ->
  exists resp r',
    perform StringToNumber u (op_request op) (calm r pgs out) = (Ok resp, calm r' pgs out)
    ∧ status resp = 200
    ∧ cache_cart u r' = JS.string_of_Z <$> apply_op C op
    ∧ u ∈ dirty r'.
Proof.
  intros Hu Hcart Hop. destruct op as [p n|p z]; cbn [op_request perform apply_op op_accepted] in *.
  - destruct Hop as (Hp & _ & Hn & Hn64%safe_integer_int64 & Hold%safe_integer_int64
                     & Hsum%safe_integer_int64).
    destruct (post_add_increments u p n (default 0 (C !! p)) r pgs out Hu Hp Hn Hn64
                (stored_integer_of_cart u p C r Hcart Hold) Hsum)
      as (r' & Hrun & Hc & _ & Hd).
    eexists _, r'. split; [exact Hrun|]. split; [done|]. split; [|done].
    by rewrite Hc, Hcart, fmap_insert.
  - destruct Hop as (Hp & _ & _).
    rewrite (put_update_run u p _ r pgs out Hu Hp) by (by left).
    eexists _, _. split; [reflexivity|]. split; [done|]. split; [|apply elem_of_dirty_sAdd].
    unfold cache_cart. rewrite hGetAll_sAdd, hGetAll_expire.
    cbn [update_command]. rewrite Qle_bool_inject_Z, num_toString_inject_Z.
    fold (cache_cart u r).
    destruct (Z.leb z 0); cbn [Redis.run_command].
    + rewrite hGetAll_hDel. fold (cache_cart u r). by rewrite Hcart, fmap_delete.
    + rewrite hGetAll_hSet. fold (cache_cart u r). by rewrite Hcart, fmap_insert.
Qed.

Lemma run_ops_run (StringToNumber : string -> JS.jsnum) (u : string) (ops : list cart_op)
    (C : gmap string Z) (r : Redis.state) (pgs : Pg.state) (out : list (string * exn)) :
  u ≠ "" ->
  cache_cart u r = JS.string_of_Z <$> C ->
  ops_accepted C ops ->
  exists resps r',
    run_ops StringToNumber u ops (calm r pgs out) = (Ok resps, calm r' pgs out)
    ∧ length resps = length ops
    ∧ Forall (fun resp => status resp = 200) resps
    ∧ cache_cart u r' = JS.string_of_Z <$> foldl apply_op C ops
    ∧ (ops ≠ [] -> u ∈ dirty r').
Proof.
  intros Hu. revert C r. induction ops as [|op ops IH]; intros C r Hcart Hops.
  - exists [], r. by repeat split.
  - destruct Hops as [Hop Hops].
    destruct (perform_op StringToNumber u op C r pgs out Hu Hcart Hop)
      as (resp & r1 & Hrun1 & Hst & Hc1 & Hd1).
    destruct (IH _ r1 Hc1 Hops) as (resps & r' & Hrun & Hlen & Hall & Hc & Hd).
    exists (resp :: resps), r'. split; [|split; [|split; [|split]]].
    + cbn [run_ops]. erewrite bind_run by exact Hrun1.
      erewrite bind_run by exact Hrun. reflexivity.
    + cbn. by rewrite Hlen.
    + by constructor.
    + done.
    + intros _. destruct ops as [|op' ops']; [|by apply Hd].
      cbn in Hrun. injection Hrun as _ <-. done.
Qed.

(** X8.  GET / reflects the net effect of AddItem and UpdateItem.  Start
    from a cart whose stored quantities are the safe integers of [C]; send
    any sequence of additions (positive) and absolute updates whose
    quantities, like the quantities they lead to, are safe integers (of
    magnitude at most 2^53 - 1), without store failure.  Every call
    answers 200 and the cache then holds [C] with each addition added and
    each update set, items updated to zero or below being absent; when
    that cart is not empty, GET / answers with exactly it.  (A field
    named [__proto__] is left aside: the source's [parseCart] drops it.) *)
Theorem cart_reflects_net_quantities (StringToNumber : string -> JS.jsnum)
    (u : string) (ops : list cart_op) (C : gmap string Z)
    (r : Redis.state) (pgs : Pg.state) (out : list (string * exn)) :
  u ≠ "" ->
  cache_cart u r = JS.string_of_Z <$> C ->
  C !! "__proto__" = None ->
  cart_safe C ->
  ops_accepted C ops ->
  exists resps r',
    run_ops StringToNumber u ops (calm r pgs out) = (Ok resps, calm r' pgs out)
    ∧ length resps = length ops
    ∧ Forall (fun resp => status resp = 200) resps
    ∧ cache_cart u r' = JS.string_of_Z <$> foldl apply_op C ops
    ∧ (foldl apply_op C ops ≠ ∅ ->
       get_cart (Some u) (calm r' pgs out)
       = (Ok (mkResponse 200 (CartJson (JS.of_Z <$> foldl apply_op C ops))),
          calm r' pgs out)).
Proof.
  intros Hu Hcart _ _ Hops.
  destruct (run_ops_run StringToNumber u ops C r pgs out Hu Hcart Hops)
    as (resps & r' & Hrun & Hlen & Hall & Hc & _).
  exists resps, r'. repeat split; try done.
  intros Hne. rewrite get_cart_hit_run.
  - by rewrite Hc, parseCart_string_of_Z.
  - rewrite Hc. intros He. by apply fmap_empty_iff in He.
Qed.

(** ** BulkUpdate against UpdateItem *)

Lemma hSet_sAdd (k f v s m : string) (r : Redis.state) :
  Redis.hSet k f v (Redis.sAdd s m r) = Redis.sAdd s m (Redis.hSet k f v r).
Proof. reflexivity. Qed.

Lemma run_command_sAdd (c : Redis.command) (s m : string) (r : Redis.state) :
  Redis.run_command c (Redis.sAdd s m r) = Redis.sAdd s m (Redis.run_command c r).
Proof.
  destruct c; cbn [Redis.run_command];
    auto using hSet_sAdd, hDel_sAdd, expire_sAdd.
Qed.

(** A time to live set before a write on the same key is absorbed by the
    one set after it. *)
Lemma expire_hSet_expire (k f v : string) (n : Z) (r : Redis.state) :
  Redis.expire k n (Redis.hSet k f v (Redis.expire k n r))
  = Redis.expire k n (Redis.hSet k f v r).
Proof.
  unfold Redis.expire at 2. destruct (Redis.hashes r !! k) as [h|] eqn:Hk; [|done].
  unfold Redis.expire, Redis.hSet, Redis.hGetAll; cbn.
  rewrite !lookup_insert_eq, Hk; cbn. by rewrite insert_insert_eq.
Qed.

Lemma expire_update_expire (k p : string) (quantity : JS.jsval) (n : Z) (r : Redis.state) :
  Redis.expire k n (Redis.run_command (update_command k p quantity) (Redis.expire k n r))
  = Redis.expire k n (Redis.run_command (update_command k p quantity) r).
Proof.
  unfold update_command.
  destruct quantity as [| | |q|]; cbn [Redis.run_command];
    try (by rewrite hDel_expire, expire_expire).
  destruct (Qle_bool q 0); cbn [Redis.run_command].
  - by rewrite hDel_expire, expire_expire.
  - apply expire_hSet_expire.
Qed.

Lemma bulk_command_update (StringToNumber : string -> JS.jsnum) (k : string) (it : bulk_item) :
  accepted_quantity (quantity it) ->
  bulk_command StringToNumber k it
  = Some (update_command k (productId it) (quantity it)).
Proof.
  unfold bulk_command, update_command, accepted_quantity.
  destruct (quantity it) as [| | |q|]; cbn; intros [?|?]; try done.
  by destruct (Qle_bool q 0).
Qed.

Lemma updated_one_by_one_run (u : string) (items : list bulk_item)
    (r : Redis.state) (pgs : Pg.state) (out : list (string * exn)) :
  u ≠ "" ->
  Forall (fun it => productId it ≠ "" ∧ accepted_quantity (quantity it)) items ->
  updated_one_by_one u items
    (calm (Redis.sAdd "dirtyCarts" u (Redis.expire (cart_key (Some u)) CART_TTL r)) pgs out)
  = calm (Redis.sAdd "dirtyCarts" u
            (Redis.expire (cart_key (Some u)) CART_TTL
               (Redis.run_commands
                  ((fun it => update_command (cart_key (Some u)) (productId it) (quantity it))
                     <$> items) r)))
         pgs out.
Proof.
  intros Hu H. revert r. induction H as [|it items [Hp Hq] _ IH]; intros r; [done|].
  unfold updated_one_by_one in *. cbn [foldl fmap list_fmap].
  rewrite (put_update_run u _ _ _ pgs out Hu Hp Hq). cbn [snd].
  rewrite run_command_sAdd, expire_sAdd, sAdd_sAdd, expire_update_expire.
  rewrite IH. reflexivity.
Qed.

(** X9.  A bulk update is the same as the updates one by one: for a
    non-empty list of items with a product id and a quantity that is a
    number or absent, POST /update-bulk without store failure leaves the
    world (cart, time to live, dirty set) exactly as sending each item in
    order through PUT /update does. *)
Theorem bulk_update_as_single_updates (StringToNumber : string -> JS.jsnum)
    (u : string) (items : list bulk_item)
    (r : Redis.state) (pgs : Pg.state) (out : list (string * exn)) :
  u ≠ "" ->
  items ≠ [] ->
  Forall (fun it => productId it ≠ "" ∧ accepted_quantity (quantity it)) items ->
  (post_update_bulk StringToNumber (Some u) (Some items) (calm r pgs out)).1
  = Ok (mkResponse 200 (Message "Cart updated in bulk"))
  ∧ (post_update_bulk StringToNumber (Some u) (Some items) (calm r pgs out)).2
    = updated_one_by_one u items (calm r pgs out).
Proof.
  intros Hu Hne Hall.
  destruct (post_update_bulk_run StringToNumber u items r pgs out Hu) as (cs & Hcs & ->).
  split; [done|]. cbn [snd].
  assert (cs = (fun it => update_command (cart_key (Some u)) (productId it) (quantity it))
                 <$> items) as ->.
  { clear Hne. induction Hcs as [|it c items cs Hc _ IH]; [done|].
    apply Forall_cons in Hall as [[_ Hq] Hall].
    rewrite (bulk_command_update _ _ _ Hq) in Hc. injection Hc as <-.
    cbn. by rewrite IH. }
  destruct items as [|it items]; [done|].
  apply Forall_cons in Hall as [[Hp Hq] Hall].
  unfold updated_one_by_one. cbn [foldl].
  rewrite (put_update_run u _ _ r pgs out Hu Hp Hq). cbn [snd].
  fold (updated_one_by_one u items
          (calm (Redis.sAdd "dirtyCarts" u
                   (Redis.expire (cart_key (Some u)) CART_TTL
                      (Redis.run_command
                         (update_command (cart_key (Some u)) (productId it) (quantity it)) r)))
                pgs out)).
  by rewrite (updated_one_by_one_run u items _ pgs out Hu Hall).
Qed.

(** ** A checkout that fails after its commit *)

Section Quiet.

Variables (r : Redis.state) (t : Pg.tables) (clock : Z)
          (plan : list bool) (out : list (string * exn)).

Lemma redis_read_ok {A : Type} (f : Redis.state -> A) (p : Pg.state) :
  redis_read f (mkWorld r p (false :: plan) out) = (Ok (f r), mkWorld r p plan out).
Proof. reflexivity. Qed.

Lemma redis_write_fails (f : Redis.state -> Redis.state) (p : Pg.state) :
  redis_write f (mkWorld r p (true :: plan) out)
  = (Throw ConnectionError, mkWorld r p plan out).
Proof. reflexivity. Qed.

Lemma pool_connect_ok (p : Pg.state) :
  pool_connect (mkWorld r p (false :: plan) out) = (Ok tt, mkWorld r p plan out).
Proof. reflexivity. Qed.

Lemma client_begin_ok (s : option Pg.tables) :
  client_begin (mkWorld r (Pg.mkState t s clock) (false :: plan) out)
  = (Ok tt, mkWorld r (Pg.mkState t (Some t) clock) plan out).
Proof. reflexivity. Qed.

Lemma client_commit_ok (ts : Pg.tables) :
  client_commit (mkWorld r (Pg.mkState t (Some ts) clock) (false :: plan) out)
  = (Ok tt, mkWorld r (Pg.mkState ts None clock) plan out).
Proof. reflexivity. Qed.

Lemma client_query_ok {A : Type} (stmt : Z -> Pg.tables -> option (A * Pg.tables))
    (ts ts' : Pg.tables) (a : A) :
  stmt clock ts = Some (a, ts') ->
  client_query stmt (mkWorld r (Pg.mkState t (Some ts) clock) (false :: plan) out)
  = (Ok a, mkWorld r (Pg.mkState t (Some ts') clock) plan out).
Proof.
  intros H. unfold client_query, call, attempt, mbind, io_bind.
  cbn [faults pg redis console Pg.session Pg.now Pg.committed set_pg]. by rewrite H.
Qed.

End Quiet.

Lemma insert_order_items_ok (orderId : Z) (prices : gmap string Q)
    (l : list (string * Z)) (r : Redis.state) (t ts : Pg.tables) (clock : Z)
    (plan : list bool) (out : list (string * exn)) :
  Forall (fun pz => Pg.int4_ok pz.2 = true) l ->
  for_each (prod_map id JS.of_Z <$> l)
    (fun '(productId, quantity) =>
       client_query
         (fun _ t => (fun t' => (tt, t')) <$>
            Pg.insert_order_item orderId productId quantity (prices !! productId) t))
    (mkWorld r (Pg.mkState t (Some ts) clock) (replicate (length l) false ++ plan) out)
  = (Ok tt,
     mkWorld r
       (Pg.mkState t
          (Some (Pg.mkTables (Pg.products ts) (Pg.carts ts) (Pg.cart_items ts) (Pg.orders ts)
                   (Pg.order_items ts ++ order_item_rows orderId (fun p => prices !! p) l)
                   (Pg.next_id ts)))
          clock) plan out).
Proof.
  intros Hfit. revert ts. induction Hfit as [|[p z] l Hz _ IH]; intros ts.
  - cbn. rewrite app_nil_r. by destruct ts.
  - cbn [fmap list_fmap for_each prod_map fst snd id length replicate app].
    erewrite bind_run.
    2:{ apply client_query_ok. unfold Pg.insert_order_item.
        cbn [snd] in Hz. rewrite integer_value_of_Z, Hz. reflexivity. }
    rewrite IH.
    cbn [Pg.products Pg.carts Pg.cart_items Pg.orders Pg.order_items Pg.next_id].
    unfold order_item_rows. cbn [fmap list_fmap]. by rewrite <- app_assoc.
Qed.

Lemma post_checkout_fails_after_commit (u : string) (C : gmap string Z)
    (r : Redis.state) (pgs : Pg.state) (out : list (string * exn)) :
  u ≠ "" ->
  parseCart (cache_cart u r) = JS.of_Z <$> C ->
  C ≠ ∅ ->
  cart_fits C ->
  (forall p, p ∈ dom C -> is_Some (Pg.products (Pg.committed pgs) !! p)) ->
  post_checkout (Some u)
    (mkWorld r pgs (replicate (6 + size C) false ++ [true]) out)
  = (Ok (mkResponse 500 (Error "Checkout failed")),
     calm r
       (Pg.mkState
          (with_order (Pg.committed pgs) u (Pg.now pgs)
             (checkout_total (unit_price (Pg.committed pgs)) (map_to_list C))
             (map_to_list C))
          None (Pg.now pgs))
       (out ++ [("Checkout failed", ConnectionError)])%list).
Proof.
  intros Hu Hcart Hne Hfit Hprod. destruct pgs as [t s clock].
  cbn [Pg.committed Pg.now] in *.
  set (ids := (map_to_list C).*1).
  assert (forall p, p ∈ ids -> is_Some (Pg.products t !! p)) as Hids.
  { intros p Hp. apply Hprod. unfold ids in Hp.
    apply list_elem_of_fmap in Hp as ([p' z] & -> & Hin).
    apply elem_of_map_to_list in Hin. by apply elem_of_dom. }
  pose proof (prices_agree ids t ∅ (map_empty_subseteq _)) as (_ & _ & Hprices).
  set (prices := foldl (fun acc row => <[row.1 := row.2]> acc) ∅ (Pg.select_prices ids t)) in *.
  assert (Forall (fun pz : string * Z => is_Some (Pg.products t !! pz.1)
                    ∧ prices !! pz.1 = Pg.products t !! pz.1) (map_to_list C)) as Hall.
  { apply Forall_forall. intros [p z] Hin. cbn.
    assert (p ∈ ids) by (unfold ids; apply list_elem_of_fmap; by exists (p, z)).
    split; [by apply Hids | by apply Hprices]. }
  pose proof (total_amount_fold t prices (map_to_list C) (JS.of_Z 0) Hall) as Htot.
  fold (checkout_total (unit_price t) (map_to_list C)) in Htot.
  assert ((map_to_list (JS.of_Z <$> C)).*1 = ids) as Hids_eq.
  { rewrite map_to_list_fmap. unfold ids. rewrite <- list_fmap_compose.
    apply list_fmap_ext. by intros _ [p z] _. }
  assert (length (Pg.select_prices ids t) = length ids) as Hlen.
  { apply select_prices_all, Forall_forall, Hids. }
  rewrite <- length_map_to_list.
  replace (6 + length (map_to_list C))%nat with (5 + length (map_to_list C) + 1)%nat by lia.
  rewrite replicate_add, replicate_add. cbn [replicate app]. rewrite <- app_assoc.
  cbn [app].
  unfold post_checkout. unfold cache_cart in Hcart.
  erewrite try_catch_ok; [reflexivity|].
  unfold redis_hGetAll. step_with redis_read_ok.
  rewrite Hcart.
  destruct (decide (size (JS.of_Z <$> C) = 0%nat)) as [Hsz|_].
  { apply map_size_empty_iff, fmap_empty_iff in Hsz. done. }
  rewrite (falsy_Some u Hu), Hids_eq.
  fold prices. rewrite map_to_list_fmap.
  step_with pool_connect_ok.
  eapply finally_run; [|apply client_release_run].
  erewrite try_catch_throw.
  2:{ step_with client_begin_ok.
      step_with client_query_ok; [|reflexivity].
      fold prices.
      destruct (decide (length (Pg.select_prices ids t) ≠ length ids)) as [?|_];
        [contradiction|].
      erewrite bind_run by reflexivity.
      rewrite Htot.
      step_with client_query_ok; [|reflexivity].
      step_with insert_order_items_ok; [|by apply cart_fits_entries].
      step_with client_commit_ok.
      unfold redis_del. erewrite bind_throw by apply redis_write_fails.
      reflexivity. }
  cbv beta.
  erewrite bind_run by apply client_rollback_calm.
  rewrite (order_item_rows_ext _ (fun p => prices !! p) (fun p => Pg.products t !! p));
    [reflexivity|].
  eapply Forall_impl; [exact Hall|]. by intros [p z] [_ ?].
Qed.

(** X10.  The order is committed before the carts are cleared, and the
    clearing is not part of the transaction: for a cart whose quantities
    fit the integer column, whose products have a price and whose total
    is a finite number, when the DEL
    of the cart key fails right after COMMIT, POST /checkout answers 500
    "Checkout failed" although the order and its items are in place; the
    cart is still in the cache and in the durable store, and the same
    request sent again succeeds and places a second order for the same
    cart, with the same total.  (A field named [__proto__] is left aside:
    the source's [parseCart] drops it.) *)
Theorem failed_checkout_has_placed_the_order (u : string) (C : gmap string Z)
    (r : Redis.state) (pgs : Pg.state) (out : list (string * exn)) :
  u ≠ "" ->
  parseCart (cache_cart u r) = JS.of_Z <$> C ->
  C ≠ ∅ ->
  C !! "__proto__" = None ->
  cart_fits C ->
  (forall p, p ∈ dom C -> is_Some (Pg.products (Pg.committed pgs) !! p)) ->
  finite_total (unit_price (Pg.committed pgs)) C ->
  let t := Pg.committed pgs in
  let failed :=
    post_checkout (Some u) (mkWorld r pgs (replicate (6 + size C) false ++ [true]) out) in
  let again := post_checkout (Some u) failed.2 in
  exists entries total,
    entries ≡ₚ map_to_list C
    ∧ total = checkout_total (unit_price t) entries
    ∧ failed.1 = Ok (mkResponse 500 (Error "Checkout failed"))
    ∧ redis failed.2 = r
    ∧ Pg.carts (Pg.committed (pg failed.2)) = Pg.carts t
    ∧ Pg.cart_items (Pg.committed (pg failed.2)) = Pg.cart_items t
    ∧ Pg.orders (Pg.committed (pg failed.2))
      = (Pg.orders t ++ [Pg.mkOrder (Pg.next_id t) u "pending" (Pg.now pgs) total])%list
    ∧ Pg.order_items (Pg.committed (pg failed.2))
      = (Pg.order_items t
           ++ order_item_rows (Pg.next_id t) (fun p => Pg.products t !! p) entries)%list
    ∧ again.1 = Ok (mkResponse 200 (CheckoutOk (Pg.next_id t + 1)))
    ∧ Pg.orders (Pg.committed (pg again.2))
      = (Pg.orders t
           ++ [Pg.mkOrder (Pg.next_id t) u "pending" (Pg.now pgs) total;
               Pg.mkOrder (Pg.next_id t + 1) u "pending" (Pg.now pgs) total])%list.
Proof.
  intros Hu Hcart Hne _ Hfit Hprod _. cbv zeta.
  rewrite (post_checkout_fails_after_commit u C r pgs out Hu Hcart Hne Hfit Hprod).
  cbn [fst snd].
  set (total := checkout_total (unit_price (Pg.committed pgs)) (map_to_list C)).
  rewrite (post_checkout_run u C r
             (Pg.mkState (with_order (Pg.committed pgs) u (Pg.now pgs) total (map_to_list C))
                         None (Pg.now pgs))
             (out ++ [("Checkout failed", ConnectionError)])%list Hu Hcart Hne Hfit Hprod).
  exists (map_to_list C), total. cbn [fst snd calm redis pg Pg.committed Pg.now].
  match goal with
  | |- context [Pg.delete_cart u ?t1] =>
      destruct (orders_delete_cart u t1) as [Ho _]; rewrite Ho
  end.
  cbn [with_order Pg.orders Pg.order_items Pg.carts Pg.cart_items Pg.next_id].
  rewrite <- app_assoc.
  repeat split; done.
Qed.

(** ** A successful flush *)

Lemma integer_rows_of_Z (l : list (string * Z)) :
  Forall (fun pz => Pg.int4_ok pz.2 = true) l ->
  Pg.integer_rows (prod_map id JS.of_Z <$> l) = Some l.
Proof.
  induction 1 as [|[p z] l Hz _ IH]; [done|].
  cbn [fmap list_fmap prod_map fst snd id Pg.integer_rows] in *.
  change (list_fmap _ _ (prod_map id JS.of_Z) l) with (prod_map id JS.of_Z <$> l).
  by rewrite integer_value_of_Z, Hz, IH.
Qed.

Lemma integer_rows_refused (l : list (string * Z)) :
  ¬ Forall (fun pz => Pg.int4_ok pz.2 = true) l ->
  Pg.integer_rows (prod_map id JS.of_Z <$> l) = None.
Proof.
  induction l as [|[p z] l IH]; intros Hno; [by destruct Hno|].
  cbn [fmap list_fmap prod_map fst snd id Pg.integer_rows] in *.
  change (list_fmap _ _ (prod_map id JS.of_Z) l) with (prod_map id JS.of_Z <$> l).
  rewrite integer_value_of_Z.
  destruct (Pg.int4_ok z) eqn:Hz; [|done].
  rewrite IH; [done|]. intros Hl. apply Hno. by constructor.
Qed.

Lemma cart_does_not_fit (C : gmap string Z) :
  ¬ cart_fits C -> ¬ Forall (fun pz => Pg.int4_ok pz.2 = true) (map_to_list C).
Proof.
  intros Hno Hall. apply Hno. intros p z Hpz.
  apply elem_of_map_to_list in Hpz.
  exact (proj1 (Forall_forall _ _) Hall (p, z) Hpz).
Qed.

Lemma foldl_insert_rows {V W : Type} (g : V -> W) (m : gmap string V) :
  foldl (fun acc row => <[row.1 := g row.2]> acc) ∅ (map_to_list m) = g <$> m.
Proof.
  rewrite <- (foldl_insert_map_to_list (g <$> m)), map_to_list_fmap.
  generalize (∅ : gmap string W).
  induction (map_to_list m) as [|[f v] l IH]; intros acc; [done|]. cbn. apply IH.
Qed.

Lemma sync_dirty_user_flush_run (u : string) (C : gmap string Z)
    (r : Redis.state) (pgs : Pg.state) (out : list (string * exn)) :
  parseCart (cache_cart u r) = JS.of_Z <$> C ->
  C ≠ ∅ ->
  flushable C ->
  sync_dirty_user u (calm r pgs out)
  = (Ok tt,
     calm (Redis.sRem "dirtyCarts" u r)
          (Pg.mkState (flushed (Pg.committed pgs) u (Pg.now pgs) C) None (Pg.now pgs))
          out).
Proof.
  intros Hcart Hne [Hfit Hsmall]. destruct pgs as [t s clock]. cbn [Pg.committed Pg.now].
  assert (0 < length (map_to_list C))%nat as Hlen.
  { destruct (map_to_list C) eqn:He; [by apply map_to_list_empty_iff in He | cbn; lia]. }
  unfold sync_dirty_user, calm.
  unfold redis_hGetAll. step_with redis_read_calm.
  change (Redis.hGetAll ("cart:" ++ u) r) with (cache_cart u r). rewrite Hcart.
  erewrite bind_run; [apply redis_write_calm|].
  unfold syncCartToPostgres.
  destruct (decide (size (JS.of_Z <$> C) = 0%nat)) as [Hsz|_].
  { apply map_size_empty_iff, fmap_empty_iff in Hsz. done. }
  step_with pool_connect_calm.
  eapply finally_run; [|apply client_release_run].
  erewrite try_catch_ok; [reflexivity|].
  step_with client_begin_calm.
  step_with client_query_calm; [|apply (f_equal Some), surjective_pairing].
  step_with client_query_calm; [|reflexivity].
  rewrite map_to_list_fmap, length_fmap.
  destruct (decide (0 < length (map_to_list C))%nat) as [_|?]; [|done].
  step_with client_query_calm.
  2:{ unfold Pg.insert_cart_items.
      rewrite length_fmap, length_map_to_list, Hsmall.
      rewrite integer_rows_of_Z by (by apply cart_fits_entries). reflexivity. }
  rewrite client_commit_calm.
  unfold flushed. cbn [Pg.delete_cart_items Pg.products Pg.carts Pg.cart_items Pg.orders
                         Pg.order_items Pg.next_id].
  rewrite lookup_delete_eq. cbn [default from_option].
  rewrite (foldl_insert_rows (fun z => Pg.mkCartItem z clock) C).
  by rewrite insert_delete_eq.
Qed.

Lemma upsert_cart_row (u : string) (clock : Z) (t : Pg.tables) :
  Pg.carts (Pg.upsert_cart u clock t).2 !! u
  = Some (Pg.mkCart (Pg.upsert_cart u clock t).1 clock clock).
Proof.
  unfold Pg.upsert_cart. destruct (Pg.carts t !! u); cbn; apply lookup_insert_eq.
Qed.

Lemma upsert_cart_keeps_id (u : string) (clock : Z) (t : Pg.tables) (c : Pg.cart_row) :
  Pg.carts t !! u = Some c -> (Pg.upsert_cart u clock t).1 = Pg.cart_id c.
Proof. intros H. unfold Pg.upsert_cart. by rewrite H. Qed.

Lemma durable_cart_flushed (u : string) (clock : Z) (C : gmap string Z) (t : Pg.tables) :
  durable_cart u (flushed t u clock C) = C.
Proof.
  unfold durable_cart, flushed. cbn [Pg.carts Pg.cart_items].
  rewrite upsert_cart_row. cbn [Pg.cart_id]. rewrite lookup_insert_eq. cbn.
  rewrite <- map_fmap_compose. apply map_fmap_id.
Qed.

Lemma flushed_keeps_orders (u : string) (clock : Z) (C : gmap string Z) (t : Pg.tables) :
  Pg.orders (flushed t u clock C) = Pg.orders t
  ∧ Pg.order_items (flushed t u clock C) = Pg.order_items t
  ∧ Pg.products (flushed t u clock C) = Pg.products t.
Proof. unfold flushed, Pg.upsert_cart. by destruct (Pg.carts t !! u). Qed.

(** X11.  A flush mirrors the cache.  For a dirty user whose cache-side
    cart holds the integer quantities [C] (not empty, every quantity
    within the integer column, the items within the parameters of one
    statement), the loop body of the sync job without store
    failure commits a durable cart that is exactly [C] (rows of the mirror
    that are no longer in the cache are gone), with a cart row stamped
    with the current time that keeps its id if it existed; the user leaves
    the dirty set; the cache, the orders and the catalog are untouched.
    (A field named [__proto__] is left aside: the source's [parseCart]
    drops it.) *)
Theorem flush_mirrors_cache (u : string) (C : gmap string Z)
    (r : Redis.state) (pgs : Pg.state) (out : list (string * exn)) :
  parseCart (cache_cart u r) = JS.of_Z <$> C ->
  C ≠ ∅ ->
  C !! "__proto__" = None ->
  flushable C ->
  let synced := sync_dirty_user u (calm r pgs out) in
  let t' := Pg.committed (pg synced.2) in
  synced.1 = Ok tt
  ∧ durable_cart u t' = C
  ∧ (exists cartId,
       Pg.carts t' !! u = Some (Pg.mkCart cartId (Pg.now pgs) (Pg.now pgs))
       ∧ forall c, Pg.carts (Pg.committed pgs) !! u = Some c -> cartId = Pg.cart_id c)
  ∧ (u ∉ dirty (redis synced.2))
  ∧ Redis.hashes (redis synced.2) = Redis.hashes r
  ∧ Pg.orders t' = Pg.orders (Pg.committed pgs)
  ∧ Pg.order_items t' = Pg.order_items (Pg.committed pgs)
  ∧ Pg.products t' = Pg.products (Pg.committed pgs).
Proof.
  intros Hcart Hne _ Hfit. cbv zeta.
  rewrite (sync_dirty_user_flush_run u C r pgs out Hcart Hne Hfit).
  cbn [fst snd calm redis pg Pg.committed].
  destruct (flushed_keeps_orders u (Pg.now pgs) C (Pg.committed pgs)) as (Ho & Hi & Hp).
  split; [done|]. split; [apply durable_cart_flushed|]. split.
  { eexists. split.
    - unfold flushed; cbn [Pg.carts]. apply upsert_cart_row.
    - intros c Hc. by apply upsert_cart_keeps_id. }
  split; [apply not_dirty_after_sRem|]. split; [apply hashes_sRem|]. done.
Qed.

(** X12.  What was flushed survives the loss of the cache.  After such a
    flush (a cart the job can write, no field [__proto__]), if
    the cart key disappears from the cache (expiry, eviction, restart),
    GET / answers with the same cart [C] and the cache holds [C] again. *)
Theorem flushed_cart_survives_cache_loss (u : string) (C : gmap string Z)
    (r : Redis.state) (pgs : Pg.state) (out : list (string * exn)) :
  parseCart (cache_cart u r) = JS.of_Z <$> C ->
  C ≠ ∅ ->
  C !! "__proto__" = None ->
  flushable C ->
  let synced := sync_dirty_user u (calm r pgs out) in
  let lost := cache_lost u synced.2 in
  let next := get_cart (Some u) lost in
  cache_cart u (redis lost) = ∅
  ∧ next.1 = Ok (mkResponse 200 (CartJson (JS.of_Z <$> C)))
  ∧ cache_cart u (redis next.2) = JS.string_of_Z <$> C
  ∧ parseCart (cache_cart u (redis next.2)) = parseCart (cache_cart u r)
  ∧ Redis.ttl (redis next.2) !! cart_key (Some u) = Some CART_TTL.
Proof.
  intros Hcart Hne _ Hfit. cbv zeta.
  rewrite (sync_dirty_user_flush_run u C r pgs out Hcart Hne Hfit).
  cbn [fst snd]. unfold cache_lost, calm; cbn [redis pg faults console].
  set (r1 := Redis.del (cart_key (Some u)) (Redis.sRem "dirtyCarts" u r)).
  set (pgs1 := Pg.mkState (flushed (Pg.committed pgs) u (Pg.now pgs) C) None (Pg.now pgs)).
  assert (Redis.hashes r1 !! cart_key (Some u) = None) as Hk by apply hashes_del.
  assert (durable_cart u (Pg.committed pgs1) = C) as Hd by apply durable_cart_flushed.
  fold (calm r1 pgs1 out).
  rewrite (get_cart_restores u r1 pgs1 out Hk) by (by rewrite Hd).
  cbn [fst snd calm redis]. rewrite Hd.
  rewrite restored_state by done.
  unfold cache_cart at 1 2 3, Redis.hGetAll; cbn [Redis.hashes Redis.ttl].
  rewrite Hk, !lookup_insert_eq. cbn [default from_option id].
  repeat split; try done.
  by rewrite parseCart_string_of_Z, Hcart.
Qed.

Lemma carts_flushed (u : string) (clock : Z) (C : gmap string Z) (t : Pg.tables) :
  Pg.carts (flushed t u clock C)
  = <[u := Pg.mkCart (Pg.upsert_cart u clock t).1 clock clock]> (Pg.carts t).
Proof. unfold flushed, Pg.upsert_cart. by destruct (Pg.carts t !! u). Qed.

Lemma cart_items_flushed (u : string) (clock : Z) (C : gmap string Z) (t : Pg.tables) :
  Pg.cart_items (flushed t u clock C)
  = <[(Pg.upsert_cart u clock t).1 := (fun z => Pg.mkCartItem z clock) <$> C]>
      (Pg.cart_items t).
Proof. unfold flushed, Pg.upsert_cart. by destruct (Pg.carts t !! u). Qed.

Lemma upserted_id_is_own (u u' : string) (clock : Z) (t : Pg.tables) (c' : Pg.cart_row) :
  cart_ids_sound t -> u' ≠ u -> Pg.carts t !! u' = Some c' ->
  (Pg.upsert_cart u clock t).1 ≠ Pg.cart_id c'.
Proof.
  intros [Hinj Hlt] Hu Hc'. unfold Pg.upsert_cart.
  destruct (Pg.carts t !! u) as [c|] eqn:Hc; cbn [fst].
  - intros He. by apply Hu, eq_sym, (Hinj u u' c c').
  - specialize (Hlt u' c' Hc'). lia.
Qed.

Lemma upserted_id_below_next (u : string) (clock : Z) (t : Pg.tables) :
  cart_ids_sound t ->
  (Pg.upsert_cart u clock t).1 < Pg.next_id (Pg.upsert_cart u clock t).2
  ∧ Pg.next_id t <= Pg.next_id (Pg.upsert_cart u clock t).2.
Proof.
  intros [_ Hlt]. unfold Pg.upsert_cart.
  destruct (Pg.carts t !! u) as [c|] eqn:Hc; cbn [fst snd Pg.next_id].
  - specialize (Hlt u c Hc). lia.
  - lia.
Qed.

Lemma durable_cart_flushed_other (u u' : string) (clock : Z) (C : gmap string Z)
    (t : Pg.tables) :
  cart_ids_sound t -> u' ≠ u ->
  durable_cart u' (flushed t u clock C) = durable_cart u' t.
Proof.
  intros Hs Hu. unfold durable_cart.
  rewrite carts_flushed, cart_items_flushed, lookup_insert_ne by done.
  destruct (Pg.carts t !! u') as [c'|] eqn:Hc'; [|done].
  rewrite lookup_insert_ne; [done|]. by apply (upserted_id_is_own u u').
Qed.

Lemma flushed_sound (u : string) (clock : Z) (C : gmap string Z) (t : Pg.tables) :
  cart_ids_sound t -> cart_ids_sound (flushed t u clock C).
Proof.
  intros Hs.
  destruct (upserted_id_below_next u clock t Hs) as [Hown Hnext].
  assert (Pg.next_id (flushed t u clock C) = Pg.next_id (Pg.upsert_cart u clock t).2)
    as Hn by reflexivity.
  split.
  - intros u1 u2 c1 c2. rewrite carts_flushed.
    destruct (decide (u1 = u)) as [->|H1], (decide (u2 = u)) as [->|H2]; [done| | |].
    + rewrite lookup_insert_eq, lookup_insert_ne by done.
      intros [= <-] H2' He. cbn [Pg.cart_id] in He.
      by destruct (upserted_id_is_own u u2 clock t c2 Hs H2 H2').
    + rewrite lookup_insert_ne, lookup_insert_eq by done.
      intros H1' [= <-] He. cbn [Pg.cart_id] in He.
      by destruct (upserted_id_is_own u u1 clock t c1 Hs H1 H1').
    + rewrite !lookup_insert_ne by done. apply Hs.
  - intros u1 c1. rewrite carts_flushed, Hn.
    destruct (decide (u1 = u)) as [->|H1].
    + rewrite lookup_insert_eq. intros [= <-]. cbn [Pg.cart_id]. exact Hown.
    + rewrite lookup_insert_ne by done. intros Hc1.
      destruct Hs as [_ Hlt]. specialize (Hlt u1 c1 Hc1). lia.
Qed.

(** A flush that PostgreSQL refuses. *)
Lemma sync_dirty_user_rollback_run (u : string)
    (r : Redis.state) (pgs : Pg.state) (out : list (string * exn)) :
  parseCart (cache_cart u r) ≠ ∅ ->
  (forall cartId clock t,
     Pg.insert_cart_items cartId (map_to_list (parseCart (cache_cart u r))) clock t = None) ->
  sync_dirty_user u (calm r pgs out)
  = (Ok tt,
     calm (Redis.sRem "dirtyCarts" u r)
          (Pg.mkState (Pg.committed pgs) None (Pg.now pgs))
          (out ++ [(("Failed to sync cart for user " ++ u)%string, QueryError)])%list).
Proof.
  intros Hne Hrows. destruct pgs as [t s clock]. cbn [Pg.committed Pg.now].
  unfold sync_dirty_user, calm.
  unfold redis_hGetAll. step_with redis_read_calm.
  change (Redis.hGetAll ("cart:" ++ u) r) with (cache_cart u r).
  set (cart := parseCart (cache_cart u r)) in *.
  erewrite bind_run; [apply redis_write_calm|].
  unfold syncCartToPostgres.
  destruct (decide (size cart = 0%nat)) as [Hsz|_].
  { by apply map_size_empty_iff in Hsz. }
  step_with pool_connect_calm.
  eapply finally_run; [|apply client_release_run].
  erewrite try_catch_throw.
  2:{ step_with client_begin_calm.
      step_with client_query_calm; [|apply (f_equal Some), surjective_pairing].
      step_with client_query_calm; [|reflexivity].
      destruct (decide (0 < length (map_to_list cart))%nat) as [_|Hl].
      2:{ destruct (map_to_list cart) eqn:He;
            [by apply map_to_list_empty_iff in He | cbn in Hl; lia]. }
      erewrite bind_throw; [reflexivity|].
      unfold client_query, call, attempt, mbind, io_bind.
      cbn [faults pg redis console Pg.session Pg.now Pg.committed set_pg].
      rewrite Hrows. reflexivity. }
  step_with client_rollback_calm. reflexivity.
Qed.

Lemma sync_dirty_user_refused_run (u : string) (C : gmap string Z)
    (r : Redis.state) (pgs : Pg.state) (out : list (string * exn)) :
  parseCart (cache_cart u r) = JS.of_Z <$> C ->
  C ≠ ∅ ->
  ¬ flushable C ->
  sync_dirty_user u (calm r pgs out)
  = (Ok tt,
     calm (Redis.sRem "dirtyCarts" u r)
          (Pg.mkState (Pg.committed pgs) None (Pg.now pgs))
          (out ++ [(("Failed to sync cart for user " ++ u)%string, QueryError)])%list).
Proof.
  intros Hcart Hne Hno. apply sync_dirty_user_rollback_run.
  - rewrite Hcart. intros He. by apply fmap_empty_iff in He.
  - intros cartId clock t. rewrite Hcart, map_to_list_fmap.
    unfold Pg.insert_cart_items. rewrite length_fmap, length_map_to_list.
    destruct (Z.leb (3 * Z.of_nat (size C)) Pg.max_parameters) eqn:Hsmall; [|done].
    rewrite integer_rows_refused; [done|].
    apply cart_does_not_fit. intros Hfit. by apply Hno.
Qed.

(** X13.  A flush touches one user's durable cart only.  When cart ids
    identify carts, the flush of user [u] leaves the durable cart of every
    other user as it was, and cart ids still identify carts afterwards. *)
Theorem flush_leaves_other_carts (u : string) (C : gmap string Z)
    (r : Redis.state) (pgs : Pg.state) (out : list (string * exn)) :
  parseCart (cache_cart u r) = JS.of_Z <$> C ->
  C ≠ ∅ ->
  cart_ids_sound (Pg.committed pgs) ->
  let t' := Pg.committed (pg (sync_dirty_user u (calm r pgs out)).2) in
  (forall u', u' ≠ u -> durable_cart u' t' = durable_cart u' (Pg.committed pgs))
  ∧ cart_ids_sound t'.
Proof.
  intros Hcart Hne Hs. cbv zeta.
  destruct (decide (flushable C)) as [Hfit|Hno].
  - rewrite (sync_dirty_user_flush_run u C r pgs out Hcart Hne Hfit).
    cbn [snd calm pg Pg.committed]. split.
    + intros u' Hu. by apply durable_cart_flushed_other.
    + by apply flushed_sound.
  - rewrite (sync_dirty_user_refused_run u C r pgs out Hcart Hne Hno).
    cbn [snd calm pg Pg.committed]. by split.
Qed.

(** ** The authentication middleware *)

Lemma split_field (sep : ascii) (t rest : string) :
  has_char sep t = false ->
  split sep (t ++ String sep rest) = t :: split sep rest.
Proof.
  induction t as [|c t IH]; intros Hno; simpl.
  - by rewrite Ascii.eqb_refl.
  - simpl in Hno. apply orb_false_iff in Hno as [Hc Ht].
    by rewrite Hc, (IH Ht).
Qed.

Lemma split_last_field (sep : ascii) (t : string) :
  has_char sep t = false -> split sep t = [t].
Proof.
  induction t as [|c t IH]; intros Hno; cbn [split]; [done|].
  cbn [has_char] in Hno. apply orb_false_iff in Hno as [Hc Ht].
  by rewrite Hc, (IH Ht).
Qed.


Lemma append_empty_r (s : string) : (s ++ "")%string = s.
Proof.
  induction s as [|c s IH]; [done|].
  change (String c (s ++ "") = String c s). by rewrite IH.
Qed.

Lemma bearer_second_field (s : string) :
  split " " ("Bearer " ++ s) !! 1%nat = head (split " " s).
Proof.
  change ("Bearer " ++ s)%string with ("Bearer" ++ String " " s)%string.
  rewrite split_field by reflexivity. by destruct (split " " s).
Qed.

(** X14.  The token the middleware verifies is the text between the first
    and the second space of the header.  For a header ["Bearer " ++ t],
    with no space in [t], possibly followed by a space and any further text,
    the verdict is that of [jwt.verify] on [t]: the further text is ignored. *)
Theorem bearer_token_is_second_field
    (jwt_verify : string -> option Auth.UserPayload) (t rest : string) :
  has_char " " t = false ->
  rest = "" ∨ (exists more, rest = String " " more) ->
  authenticate jwt_verify (Some ("Bearer " ++ t ++ rest)%string)
  = match jwt_verify t with
    | Some decoded => Next decoded
    | None => Respond (mkResponse 401 (Error "Invalid or expired token"))
    end.
Proof.
  intros Hno Hrest. unfold authenticate. cbn [default from_option id].
  change (falsy (Some ("Bearer " ++ t ++ rest)%string)) with false.
  change (startsWith ("Bearer " ++ t ++ rest) "Bearer ")
    with (String.prefix "" (t ++ rest)%string).
  replace (String.prefix "" (t ++ rest)%string) with true by (by destruct (t ++ rest)%string).
  cbn [orb negb]. rewrite bearer_second_field.
  destruct Hrest as [->|[more ->]].
  - by rewrite append_empty_r, split_last_field.
  - by rewrite split_field.
Qed.

(** X15.  No cart change without an identified user.  When the middleware
    does not pass on a user with an id (the header is absent or no Bearer
    header, the token does not verify, or its payload has no id), the routes
    that add, update, clear and bulk-update answer 401 and leave both
    stores as they were, whatever the request and the store failures to
    come. *)
Theorem no_cart_change_without_user
    (jwt_verify : string -> option Auth.UserPayload)
    (StringToNumber : string -> JS.jsnum)
    (authHeader : option string) (req : cart_request) (w : world) :
  (forall user, authenticate jwt_verify authHeader = Next user ->
                falsy (Auth.id user) = true) ->
  changes_cart req = true ->
  exists text,
    cart_route jwt_verify StringToNumber authHeader req w
    = (Ok (mkResponse 401 (Error text)), w).
Proof.
  intros Hid Hreq. unfold cart_route.
  destruct (authenticate jwt_verify authHeader) as [resp|user] eqn:Hv.
  - unfold authenticate in Hv.
    destruct (falsy authHeader || _); [injection Hv as <-; by eexists|].
    destruct (_ ≫= jwt_verify); [done|]. injection Hv as <-. by eexists.
  - specialize (Hid user eq_refl).
    destruct req; try discriminate Hreq; cbn [handle];
      unfold post_add, put_update, delete_clear, post_update_bulk;
      rewrite Hid; by eexists.
Qed.

(** ** A whole run of the sync job *)

Lemma integer_rows_NaN (p : string) (items : list (string * JS.jsnum)) :
  (p, JS.NaN) ∈ items -> Pg.integer_rows items = None.
Proof.
  induction items as [|[p' q] items IH]; intros Hin; [by apply elem_of_nil in Hin|].
  cbn [Pg.integer_rows]. apply elem_of_cons in Hin as [[= <- <-]|Hin]; [done|].
  rewrite (IH Hin). by destruct (Pg.integer_value q).
Qed.

Lemma parseInt_cases (s : string) :
  JS.parseInt s = JS.NaN ∨ exists z, JS.parseInt s = JS.of_Z z.
Proof. unfold JS.parseInt. repeat case_match; eauto. Qed.

Lemma parseCart_cases (cartRaw : gmap string string) :
  (exists C, parseCart cartRaw = JS.of_Z <$> C)
  ∨ (exists p, parseCart cartRaw !! p = Some JS.NaN).
Proof.
  unfold parseCart.
  induction cartRaw as [|p s m Hp _ IH] using map_first_key_ind.
  - left. exists ∅. by rewrite !fmap_empty.
  - rewrite fmap_insert. destruct IH as [[C HC]|[p' Hp']].
    + destruct (parseInt_cases s) as [->|[z ->]].
      * right. exists p. apply lookup_insert_eq.
      * left. exists (<[p := z]> C). by rewrite fmap_insert, HC.
    + right. exists p'. rewrite lookup_insert_ne; [done|].
      intros <-. by rewrite lookup_fmap, Hp in Hp'.
Qed.

Lemma of_Z_cart_inj (C C' : gmap string Z) :
  JS.of_Z <$> C = JS.of_Z <$> C' -> C = C'.
Proof.
  intros H. apply map_eq. intros i. apply (f_equal (fun m => m !! i)) in H.
  rewrite !lookup_fmap in H.
  destruct (C !! i) as [z|], (C' !! i) as [z'|]; try done.
  cbn in H. by injection H as ->.
Qed.

(** One turn of the loop on a world without store failure. *)
Lemma sync_dirty_user_calm (u : string)
    (r : Redis.state) (pgs : Pg.state) (out : list (string * exn)) :
  cart_ids_sound (Pg.committed pgs) ->
  exists pgs' out',
    sync_dirty_user u (calm r pgs out)
    = (Ok tt, calm (Redis.sRem "dirtyCarts" u r) pgs' out')
    ∧ cart_ids_sound (Pg.committed pgs')
    ∧ Pg.orders (Pg.committed pgs') = Pg.orders (Pg.committed pgs)
    ∧ (forall u', u' ≠ u ->
         durable_cart u' (Pg.committed pgs') = durable_cart u' (Pg.committed pgs))
    ∧ (forall C, parseCart (cache_cart u r) = JS.of_Z <$> C -> C ≠ ∅ -> flushable C ->
         durable_cart u (Pg.committed pgs') = C)
    ∧ (forall C, parseCart (cache_cart u r) = JS.of_Z <$> C -> C = ∅ ∨ ¬ flushable C ->
         Pg.committed pgs' = Pg.committed pgs).
Proof.
  intros Hs. destruct (parseCart_cases (cache_cart u r)) as [[C HC]|[p Hp]].
  - destruct (decide (C = ∅)) as [->|Hne].
    + exists pgs, out. split.
      { apply sync_dirty_user_empty. rewrite fmap_empty in HC.
        by apply fmap_empty_iff in HC. }
      split; [done|]. split; [done|]. split; [done|]. split; [|done].
      intros C' HC' Hne'. rewrite HC in HC'. by apply of_Z_cart_inj in HC' as <-.
    + destruct (decide (flushable C)) as [Hfit|Hno].
      * eexists _, _. split; [by apply sync_dirty_user_flush_run|].
        cbn [Pg.committed]. split; [by apply flushed_sound|].
        split; [apply flushed_keeps_orders|].
        split; [intros u' Hu'; by apply durable_cart_flushed_other|].
        split.
        -- intros C' HC' _ _. rewrite HC in HC'. apply of_Z_cart_inj in HC' as <-.
           apply durable_cart_flushed.
        -- intros C' HC' Hor. rewrite HC in HC'. apply of_Z_cart_inj in HC' as <-.
           by destruct Hor.
      * eexists _, _. split; [by apply (sync_dirty_user_refused_run u C)|].
        cbn [Pg.committed]. split; [done|]. split; [done|]. split; [done|]. split; [|done].
        intros C' HC' _ Hfit. rewrite HC in HC'. by apply of_Z_cart_inj in HC' as <-.
  - eexists _, _. split.
    { apply sync_dirty_user_rollback_run.
      - intros He. by rewrite He in Hp.
      - intros cartId clock t. unfold Pg.insert_cart_items.
        rewrite (integer_rows_NaN p) by (by apply elem_of_map_to_list).
        by destruct (Z.leb _ _). }
    cbn [Pg.committed]. split; [done|]. split; [done|]. split; [done|]. split; [|done].
    intros C HC _ _. rewrite HC, lookup_fmap in Hp. by destruct (C !! p).
Qed.

Lemma cache_cart_sRem (u s m : string) (r : Redis.state) :
  cache_cart u (Redis.sRem s m r) = cache_cart u r.
Proof. unfold cache_cart, Redis.hGetAll. by rewrite hashes_sRem. Qed.

Lemma for_each_sync_calm (l : list string) :
  NoDup l ->
  forall (r : Redis.state) (pgs : Pg.state) (out : list (string * exn)),
  cart_ids_sound (Pg.committed pgs) ->
  exists pgs' out',
    for_each l sync_dirty_user (calm r pgs out) = (Ok tt, calm (cleared l r) pgs' out')
    ∧ cart_ids_sound (Pg.committed pgs')
    ∧ Pg.orders (Pg.committed pgs') = Pg.orders (Pg.committed pgs)
    ∧ (forall u, u ∉ l ->
         durable_cart u (Pg.committed pgs') = durable_cart u (Pg.committed pgs))
    ∧ (forall u C, u ∈ l -> parseCart (cache_cart u r) = JS.of_Z <$> C -> C ≠ ∅ ->
         flushable C -> durable_cart u (Pg.committed pgs') = C)
    ∧ (forall u C, u ∈ l -> parseCart (cache_cart u r) = JS.of_Z <$> C ->
         C = ∅ ∨ ¬ flushable C ->
         durable_cart u (Pg.committed pgs') = durable_cart u (Pg.committed pgs)).
Proof.
  induction 1 as [|u l Hu Hl IH]; intros r pgs out Hs.
  - exists pgs, out. split; [done|]. split; [done|]. split; [done|]. split; [done|]. split.
    + intros u C Hin. by apply elem_of_nil in Hin.
    + intros u C Hin. by apply elem_of_nil in Hin.
  - destruct (sync_dirty_user_calm u r pgs out Hs)
      as (pgs1 & out1 & Hrun & Hs1 & Ho1 & Hother & Hown & Hskip).
    destruct (IH (Redis.sRem "dirtyCarts" u r) pgs1 out1 Hs1)
      as (pgs' & out' & Hrest & Hs' & Ho' & Hout & Hin & Hkept).
    exists pgs', out'. split.
    { cbn [for_each]. erewrite bind_run; [|exact Hrun]. by rewrite cleared_cons. }
    split; [done|]. split; [by rewrite Ho'|]. split; [|split].
    + intros u' Hu'. apply not_elem_of_cons in Hu' as [Hne Hu'].
      rewrite (Hout u' Hu'). by apply Hother.
    + intros u' C Hu' HC Hne Hfit. apply elem_of_cons in Hu' as [->|Hu'].
      * rewrite (Hout u Hu). by apply Hown.
      * apply (Hin u' C Hu'); [|done|done]. by rewrite cache_cart_sRem.
    + intros u' C Hu' HC Hor. apply elem_of_cons in Hu' as [->|Hu'].
      * rewrite (Hout u Hu). f_equal. by apply (Hskip C).
      * rewrite (Hkept u' C Hu') by (done || by rewrite cache_cart_sRem).
        apply Hother. intros ->. done.
Qed.

(** X16.  A run of the sync job without store failure.  When cart ids
    identify carts, the callback ends normally and afterwards: nobody is
    dirty; every user that was dirty with integer quantities [C] in the
    cache (not empty, the quantities within the integer column and the
    items within the parameters of one statement) has exactly [C] as
    durable cart; a dirty user whose cache cart is empty, or is one the
    job cannot write, and every user that was not dirty keep their
    durable cart; the cache-side carts and the orders are untouched.
    (Carts with a field named [__proto__] are left aside: the source's
    [parseCart] drops that field.) *)
Theorem job_run_mirrors_dirty_carts
    (r : Redis.state) (pgs : Pg.state) (out : list (string * exn)) :
  cart_ids_sound (Pg.committed pgs) ->
  let ran := startCartSyncJob (calm r pgs out) in
  let t := Pg.committed pgs in
  let t' := Pg.committed (pg ran.2) in
  ran.1 = Ok tt
  ∧ dirty (redis ran.2) = ∅
  ∧ Redis.hashes (redis ran.2) = Redis.hashes r
  ∧ (forall u C, u ∈ dirty r -> parseCart (cache_cart u r) = JS.of_Z <$> C ->
       C !! "__proto__" = None -> C ≠ ∅ -> flushable C ->
       durable_cart u t' = C)
  ∧ (forall u C, u ∈ dirty r -> parseCart (cache_cart u r) = JS.of_Z <$> C ->
       C !! "__proto__" = None -> C = ∅ ∨ ¬ flushable C ->
       durable_cart u t' = durable_cart u t)
  ∧ (forall u, u ∉ dirty r -> durable_cart u t' = durable_cart u t)
  ∧ Pg.orders t' = Pg.orders t
  ∧ cart_ids_sound t'.
Proof.
  intros Hs. cbv zeta.
  destruct (for_each_sync_calm (elements (dirty r)) (NoDup_elements _) r pgs out Hs)
    as (pgs' & out' & Hrun & Hs' & Ho & Hout & Hin & Hkept).
  assert (startCartSyncJob (calm r pgs out)
          = (Ok tt, calm (cleared (elements (dirty r)) r) pgs' out')) as ->.
  { unfold startCartSyncJob. erewrite try_catch_ok; [reflexivity|].
    unfold redis_sMembers, calm. step_with redis_read_calm. exact Hrun. }
  cbn [fst snd calm redis pg].
  split; [done|]. split.
  { rewrite dirty_cleared, list_to_set_elements_L. apply difference_diag_L. }
  split; [apply hashes_cleared|]. split; [|split; [|split]].
  - intros u C Hu HC _. apply Hin; [|done]. by apply elem_of_elements.
  - intros u C Hu HC _. apply Hkept; [|done]. by apply elem_of_elements.
  - intros u Hu. apply Hout. by rewrite elem_of_elements.
  - done.
Qed.

(** ** The properties at sample inputs *)

Lemma A3_in_range : cart_fits Sample.A3.
Proof. unfold Sample.A3. apply map_Forall_singleton. reflexivity. Defined.

Lemma A3_total_is_finite :
  finite_total (unit_price (Pg.committed Sample.catalog)) Sample.A3.
Proof.
  intros l Hl. unfold Sample.A3 in Hl. rewrite map_to_list_singleton in Hl.
  apply Permutation_singleton_r in Hl as ->. eexists. vm_compute. reflexivity.
Defined.

Lemma A3_flushable : flushable Sample.A3.
Proof. split; [exact A3_in_range | reflexivity]. Defined.


Lemma mirror_A2_B1_sound : cart_ids_sound (Pg.committed Sample.mirror_A2_B1).
Proof.
  unfold Sample.mirror_A2_B1. cbn [Pg.committed]. split; cbn [Pg.carts Pg.next_id].
  - intros u1 u2 c1 c2 H1 H2 _.
    apply lookup_singleton_Some in H1 as [<- _]. by apply lookup_singleton_Some in H2 as [<- _].
  - intros u c H. apply lookup_singleton_Some in H as [_ <-]. cbn. lia.
Defined.

Lemma no_tables_sound : cart_ids_sound (Pg.committed Sample.no_rows).
Proof.
  split; cbn.
  - intros u1 u2 c1 c2 H1. by rewrite lookup_empty in H1.
  - intros u c H. by rewrite lookup_empty in H.
Defined.

Lemma success_marks_dirty_witness :
  ((perform (fun _ => JS.NaN) "U" (AddItem "A" 2) (calm Redis.empty Sample.no_rows [])).1
   = Ok (mkResponse 200 (Message "Item added to cart"))
   ∧ status (mkResponse 200 (Message "Item added to cart")) = 200)
  ∧ "U" ∈ dirty (redis (perform (fun _ => JS.NaN) "U" (AddItem "A" 2)
                          (calm Redis.empty Sample.no_rows [])).2).
Proof.
  split.
  - split; vm_compute; reflexivity.
  - apply (success_marks_dirty (fun _ => JS.NaN) "U" (AddItem "A" 2)
             (calm Redis.empty Sample.no_rows [])
             (mkResponse 200 (Message "Item added to cart"))).
    + vm_compute; reflexivity.
    + reflexivity.
Defined.

Lemma cart_handlers_always_answer_witness :
  exists resp,
    (handle (fun _ => JS.NaN) (Some "U") PostCheckout
       (mkWorld Sample.cart_A3 Sample.catalog [false; false; true] [])).1 = Ok resp
    ∧ cart_status resp.
Proof.
  apply (cart_handlers_always_answer (fun _ => JS.NaN) (Some "U") PostCheckout
           (mkWorld Sample.cart_A3 Sample.catalog [false; false; true] [])).
Defined.

Lemma get_cart_hit_only_reads_witness :
  Redis.hGetAll (cart_key (Some "U")) Sample.cart_A3 ≠ ∅
  ∧ get_cart (Some "U") (calm Sample.cart_A3 Sample.mirror_A2_B1 [])
    = (Ok (mkResponse 200
             (CartJson (parseCart (Redis.hGetAll (cart_key (Some "U")) Sample.cart_A3)))),
       calm Sample.cart_A3 Sample.mirror_A2_B1 []).
Proof.
  assert (Redis.hGetAll (cart_key (Some "U")) Sample.cart_A3 ≠ ∅) as Hne.
  { intros H. apply (f_equal (fun m : gmap string string => m !! "A")) in H.
    vm_compute in H. discriminate H. }
  split; [exact Hne|].
  apply (get_cart_hit_only_reads (Some "U") Sample.cart_A3 Sample.mirror_A2_B1 [] [] Hne).
Defined.


Lemma clear_then_get_is_empty_witness :
  "U" ≠ ""
  ∧ durable_cart "U"
      (Pg.committed (pg (delete_clear (Some "U")
                           (calm Sample.cart_A3 Sample.mirror_A2_B1 [])).2)) = ∅.
Proof.
  split; [discriminate|].
  apply (clear_then_get_is_empty "U" Sample.cart_A3 Sample.mirror_A2_B1 []). discriminate.
Defined.



Lemma cart_reflects_net_quantities_witness :
  ("U" ≠ ""
   ∧ cache_cart "U" Sample.cart_A3 = JS.string_of_Z <$> Sample.A3
   ∧ Sample.A3 !! "__proto__" = None
   ∧ cart_safe Sample.A3
   ∧ ops_accepted Sample.A3 Cases.ops)
  ∧ exists resps r',
      run_ops (fun _ => JS.NaN) "U" Cases.ops (calm Sample.cart_A3 Sample.no_rows [])
      = (Ok resps, calm r' Sample.no_rows [])
      ∧ cache_cart "U" r' = JS.string_of_Z <$> foldl apply_op Sample.A3 Cases.ops.
Proof.
  assert (ops_accepted Sample.A3 Cases.ops) as Hops.
  { cbn. repeat split; first [discriminate | reflexivity]. }
  assert (cart_safe Sample.A3) as Hsafe.
  { unfold Sample.A3. apply map_Forall_singleton. reflexivity. }
  split.
  - split; [discriminate|]. split; [vm_compute; reflexivity|].
    split; [reflexivity|]. split; [exact Hsafe | exact Hops].
  - destruct (cart_reflects_net_quantities (fun _ => JS.NaN) "U" Cases.ops Sample.A3
                Sample.cart_A3 Sample.no_rows [])
      as (resps & r' & Hrun & _ & _ & Hcart & _).
    + discriminate.
    + vm_compute; reflexivity.
    + reflexivity.
    + exact Hsafe.
    + exact Hops.
    + exists resps, r'. split; [exact Hrun | exact Hcart].
Defined.

Lemma bulk_update_as_single_updates_witness :
  ("U" ≠ "" ∧ Cases.items ≠ []
   ∧ Forall (fun it => productId it ≠ "" ∧ accepted_quantity (quantity it)) Cases.items)
  ∧ (post_update_bulk (fun _ => JS.NaN) (Some "U") (Some Cases.items)
       (calm Sample.cart_A3 Sample.no_rows [])).2
    = updated_one_by_one "U" Cases.items (calm Sample.cart_A3 Sample.no_rows []).
Proof.
  assert (Forall (fun it => productId it ≠ "" ∧ accepted_quantity (quantity it)) Cases.items)
    as Hall.
  { repeat constructor; first [discriminate | by left | by right]. }
  split.
  - split; [discriminate|]. split; [discriminate | exact Hall].
  - apply (bulk_update_as_single_updates (fun _ => JS.NaN) "U" Cases.items
             Sample.cart_A3 Sample.no_rows []); [discriminate | discriminate | exact Hall].
Defined.

Lemma catalog_prices_A3 (p : string) :
  p ∈ dom Sample.A3 -> is_Some (Pg.products (Pg.committed Sample.catalog) !! p).
Proof.
  intros Hp. apply elem_of_dom in Hp as [z Hz].
  unfold Sample.A3 in Hz. apply lookup_singleton_Some in Hz as [<- _].
  exists (399 # 100)%Q. reflexivity.
Defined.

Lemma failed_checkout_has_placed_the_order_witness :
  ("U" ≠ ""
   ∧ parseCart (cache_cart "U" Sample.cart_A3) = JS.of_Z <$> Sample.A3
   ∧ Sample.A3 ≠ ∅
   ∧ Sample.A3 !! "__proto__" = None
   ∧ cart_fits Sample.A3
   ∧ finite_total (unit_price (Pg.committed Sample.catalog)) Sample.A3)
  ∧ (post_checkout (Some "U")
       (mkWorld Sample.cart_A3 Sample.catalog
          (replicate (6 + size Sample.A3) false ++ [true]) [])).1
    = Ok (mkResponse 500 (Error "Checkout failed")).
Proof.
  split.
  - split; [discriminate|]. split; [vm_compute; reflexivity|]. split; [discriminate|].
    split; [reflexivity|]. split; [exact A3_in_range | exact A3_total_is_finite].
  - destruct (failed_checkout_has_placed_the_order "U" Sample.A3 Sample.cart_A3
                Sample.catalog [])
      as (entries & total & _ & _ & Hres & _).
    + discriminate.
    + vm_compute; reflexivity.
    + discriminate.
    + reflexivity.
    + exact A3_in_range.
    + exact catalog_prices_A3.
    + exact A3_total_is_finite.
    + exact Hres.
Defined.

Lemma flush_mirrors_cache_witness :
  (parseCart (cache_cart "U" Sample.cart_A3) = JS.of_Z <$> Sample.A3
   ∧ Sample.A3 ≠ ∅
   ∧ Sample.A3 !! "__proto__" = None
   ∧ flushable Sample.A3)
  ∧ durable_cart "U"
      (Pg.committed (pg (sync_dirty_user "U"
                           (calm Sample.cart_A3 Sample.mirror_A2_B1 [])).2))
    = Sample.A3.
Proof.
  split.
  - split; [vm_compute; reflexivity|]. split; [discriminate|].
    split; [reflexivity | exact A3_flushable].
  - apply (flush_mirrors_cache "U" Sample.A3 Sample.cart_A3 Sample.mirror_A2_B1 []);
      [vm_compute; reflexivity | discriminate | reflexivity | exact A3_flushable].
Defined.

Lemma flushed_cart_survives_cache_loss_witness :
  (parseCart (cache_cart "U" Sample.cart_A3) = JS.of_Z <$> Sample.A3
   ∧ Sample.A3 ≠ ∅
   ∧ Sample.A3 !! "__proto__" = None
   ∧ flushable Sample.A3)
  ∧ (get_cart (Some "U")
       (cache_lost "U" (sync_dirty_user "U" (calm Sample.cart_A3 Sample.no_rows [])).2)).1
    = Ok (mkResponse 200 (CartJson (JS.of_Z <$> Sample.A3))).
Proof.
  split.
  - split; [vm_compute; reflexivity|]. split; [discriminate|].
    split; [reflexivity | exact A3_flushable].
  - apply (flushed_cart_survives_cache_loss "U" Sample.A3 Sample.cart_A3 Sample.no_rows []);
      [vm_compute; reflexivity | discriminate | reflexivity | exact A3_flushable].
Defined.

Lemma flush_leaves_other_carts_witness :
  (parseCart (cache_cart "X" Sample.dirty_X_Y) = JS.of_Z <$> Cases.A2
   ∧ Cases.A2 ≠ ∅
   ∧ cart_ids_sound (Pg.committed Sample.mirror_A2_B1))
  ∧ forall u', u' ≠ "X" ->
      durable_cart u'
        (Pg.committed (pg (sync_dirty_user "X"
                             (calm Sample.dirty_X_Y Sample.mirror_A2_B1 [])).2))
      = durable_cart u' (Pg.committed Sample.mirror_A2_B1).
Proof.
  split.
  - split; [vm_compute; reflexivity | split; [discriminate | exact mirror_A2_B1_sound]].
  - apply (flush_leaves_other_carts "X" Cases.A2 Sample.dirty_X_Y Sample.mirror_A2_B1 []);
      [vm_compute; reflexivity | discriminate | exact mirror_A2_B1_sound].
Defined.

Lemma bearer_token_is_second_field_witness :
  (has_char " " "tok" = false ∧ exists more, " and more" = String " " more)
  ∧ authenticate Cases.verify_tok (Some "Bearer tok and more")
    = Next (Auth.mkUserPayload (Some "U") (Some "555")).
Proof.
  split.
  - split; [reflexivity | by exists "and more"].
  - apply (bearer_token_is_second_field Cases.verify_tok "tok" " and more");
      [reflexivity | right; by exists "and more"].
Defined.

Lemma no_cart_change_without_user_witness :
  ((forall user, authenticate Cases.verify_tok (Some "Bearer other") = Next user ->
                 falsy (Auth.id user) = true)
   ∧ changes_cart DeleteClear = true)
  ∧ exists text,
      cart_route Cases.verify_tok (fun _ => JS.NaN) (Some "Bearer other") DeleteClear
        (calm Sample.cart_A3 Sample.mirror_A2_B1 [])
      = (Ok (mkResponse 401 (Error text)), calm Sample.cart_A3 Sample.mirror_A2_B1 []).
Proof.
  assert (forall user, authenticate Cases.verify_tok (Some "Bearer other") = Next user ->
                       falsy (Auth.id user) = true) as Hno.
  { intros user H. vm_compute in H. discriminate H. }
  split; [split; [exact Hno | reflexivity]|].
  apply (no_cart_change_without_user Cases.verify_tok (fun _ => JS.NaN)
           (Some "Bearer other") DeleteClear _ Hno eq_refl).
Defined.

Lemma job_run_mirrors_dirty_carts_witness :
  cart_ids_sound (Pg.committed Sample.no_rows)
  ∧ dirty (redis (startCartSyncJob (calm Sample.dirty_X_Y Sample.no_rows [])).2) = ∅.
Proof.
  split; [exact no_tables_sound|].
  apply (job_run_mirrors_dirty_carts Sample.dirty_X_Y Sample.no_rows [] no_tables_sound).
Defined.

(** The job on the sample with X and Y dirty writes both carts. *)
Example job_of_example :
  let ran := startCartSyncJob (calm Sample.dirty_X_Y Sample.no_rows []) in
  durable_cart "X" (Pg.committed (pg ran.2)) = {[ "A" := 2 ]}
  ∧ durable_cart "Y" (Pg.committed (pg ran.2)) = {[ "B" := 1 ]}
  ∧ dirty (redis ran.2) = ∅.
Proof. cbv zeta. repeat split; vm_compute; reflexivity. Qed.
